(** * devc_to_docker: the capture-and-fold pipeline

    A shallow embedding of [src/doehyunbaek/devc_to_docker.py].

    Conventions.
    - A Python [str] is a [string]; every character of the [string] stands
      for one character of the Python string.
    - A [pathlib.Path] (POSIX flavour) is the pair of its root and its
      remaining segments, as [PurePosixPath] keeps it after parsing.
    - A JSON object read with [dict.get] is a record of [field]s; a field
      is absent, [null], or holds a value of the type Docker documents.
    - Everything the program does to the outside world (a [docker]
      invocation, a file-system operation, a warning line) is an [event]
      appended to a chronological trace; the outcome of each operation is
      read from a [World], which may answer differently after each event.
      The progress lines the program prints are left out.
    - Exceptions are the [Err] results of the monad [M]; a failed
      [docker] invocation raises [CalledProcessError], a failed
      file-system operation [OSError]. *)

From Stdlib Require Import String Ascii List Bool Arith Lia.
Import ListNotations.
Open Scope string_scope.
Open Scope list_scope.

(* ================================================================== *)
(** ** Python strings *)

Module PyStr.

(** The double quote, which the string notation cannot hold. *)
Definition dquote : ascii := ascii_of_nat 34.

(** [sep.join(parts)]. *)
Fixpoint join (sep : string) (parts : list string) : string :=
  match parts with
  | [] => ""
  | [p] => p
  | p :: rest => p ++ sep ++ join sep rest
  end.

(** [s.split(sep)] for a one-character separator. *)
Fixpoint split (sep : ascii) (s : string) : list string :=
  match s with
  | EmptyString => [""]
  | String c s' =>
      if (c =? sep)%char then "" :: split sep s'
      else match split sep s' with
           | [] => [String c ""]
           | h :: t => String c h :: t
           end
  end.

(** [s.lstrip(chars)]: drop the longest prefix made of [chars]. *)
Fixpoint lstrip (chars : ascii -> bool) (s : string) : string :=
  match s with
  | EmptyString => ""
  | String c s' => if chars c then lstrip chars s' else s
  end.

(** [s.rstrip(chars)]: drop the longest suffix made of [chars]. *)
Fixpoint rstrip (chars : ascii -> bool) (s : string) : string :=
  match s with
  | EmptyString => ""
  | String c s' =>
      match rstrip chars s' with
      | EmptyString => if chars c then "" else String c ""
      | r => String c r
      end
  end.

(** [s.strip(chars)]: CPython advances the left index first and then
    moves the right index down to it. *)
Definition strip (chars : ascii -> bool) (s : string) : string :=
  rstrip chars (lstrip chars s).

(** [s[:n]]. *)
Definition take (n : nat) (s : string) : string := substring 0 n s.

(** Truthiness of a [str]. *)
Definition truthy (s : string) : bool := negb (s =? "").

(** All characters of a string satisfy [p]. *)
Fixpoint all (p : ascii -> bool) (s : string) : bool :=
  match s with
  | EmptyString => true
  | String c s' => p c && all p s'
  end.

Definition first (s : string) : option ascii :=
  match s with EmptyString => None | String c _ => Some c end.

Fixpoint last (s : string) : option ascii :=
  match s with
  | EmptyString => None
  | String c EmptyString => Some c
  | String _ s' => last s'
  end.

(** [re.sub] with a pattern that is a single character class and a
    constant replacement: scanning left to right, each character the
    class matches is replaced by [repl], the others are kept. *)
Fixpoint re_sub_class (cls : ascii -> bool) (repl : string) (s : string)
  : string :=
  match s with
  | EmptyString => ""
  | String c s' =>
      (if cls c then repl else String c "") ++ re_sub_class cls repl s'
  end.

(** Character ranges of a regular-expression class. *)
Definition in_range (lo hi c : ascii) : bool :=
  (Ascii.leb lo c && Ascii.leb c hi)%bool.

End PyStr.

(* ================================================================== *)
(** ** [json.dumps] on a list of strings *)

Module Json.
Import PyStr.

Definition hex_digit (n : nat) : ascii :=
  match get n "0123456789abcdef" with Some c => c | None => "0"%char end.

(** [json.encoder.py_encode_basestring_ascii]: backslash, double quote
    and every character outside [' '..'~'] are escaped. *)
Definition escape_char (c : ascii) : string :=
  let n := nat_of_ascii c in
  if (c =? dquote)%char then String "\" (String dquote "")
  else if (c =? "\")%char then "\\"
  else if Nat.eqb n 8 then "\b"
  else if Nat.eqb n 12 then "\f"
  else if Nat.eqb n 10 then "\n"
  else if Nat.eqb n 13 then "\r"
  else if Nat.eqb n 9 then "\t"
  else if in_range " " "~" c then String c ""
  else "\u00" ++ String (hex_digit (n / 16)) (String (hex_digit (n mod 16)) "").

Fixpoint escape (s : string) : string :=
  match s with
  | EmptyString => ""
  | String c s' => escape_char c ++ escape s'
  end.

Definition dumps_str (s : string) : string :=
  String dquote (escape s) ++ String dquote "".

(** [json.dumps(l)] with the default separators. *)
Definition dumps (l : list string) : string :=
  "[" ++ join ", " (map dumps_str l) ++ "]".

End Json.

(* ================================================================== *)
(** ** [pathlib.PurePosixPath] *)

Module PosixPath.
Import PyStr.

(** A parsed path: [root] is the empty string, one slash or two; [tail]
    holds the segments after the root.  [parts] is the root, when there
    is one, followed by [tail]. *)
Record Path : Type := mkPath { root : string; tail : list string }.

Definition is_slash (c : ascii) : bool := (c =? "/")%char.

(** [_PosixFlavour.splitroot]: exactly two leading slashes are kept,
    any other number of them collapses to one. *)
Definition splitroot (part : string) : string * string :=
  match part with
  | String c _ =>
      if is_slash c then
        let stripped := lstrip is_slash part in
        if Nat.eqb (String.length part - String.length stripped) 2
        then ("//", stripped) else ("/", stripped)
      else ("", part)
  | EmptyString => ("", part)
  end.

Definition keep_segment (x : string) : bool :=
  (negb (x =? "") && negb (x =? "."))%bool.

(** [Path(s)]: empty segments and ["."] segments are dropped. *)
Definition of_string (s : string) : Path :=
  let (r, rel) := splitroot s in
  mkPath r (filter keep_segment (split "/" rel)).

(** [a / b] for two paths: a rooted right operand replaces the left. *)
Definition joinpath (a b : Path) : Path :=
  if truthy (root b) then b else mkPath (root a) (tail a ++ tail b).

(** [Path] applied to several segments, each parsed and joined to the
    ones before it; with no segment it is the empty relative path. *)
Definition of_strings (segments : list string) : Path :=
  fold_left (fun acc s => joinpath acc (of_string s)) segments (mkPath "" []).

Definition is_absolute (p : Path) : bool := truthy (root p).

(** [p.parts]. *)
Definition parts (p : Path) : list string :=
  if truthy (root p) then root p :: tail p else tail p.

(** [p.parent]: a bare root and the empty path are their own parent. *)
Definition parent (p : Path) : Path :=
  mkPath (root p) (removelast (tail p)).

(** [str(p)] and [p.as_posix()]. *)
Definition to_string (p : Path) : string :=
  let s := (root p ++ join "/" (tail p))%string in
  if truthy s then s else ".".

Definition eqb (a b : Path) : bool :=
  ((root a =? root b)%string
   && if list_eq_dec string_dec (tail a) (tail b) then true else false)%bool.

(** [p.is_relative_to(base)], on the parsed parts. *)
Fixpoint is_prefix (l m : list string) : bool :=
  match l, m with
  | [], _ => true
  | x :: l', y :: m' => ((x =? y)%string && is_prefix l' m')%bool
  | _ :: _, [] => false
  end.

Definition is_relative_to (p base : Path) : bool :=
  ((root p =? root base)%string && is_prefix (tail base) (tail p))%bool.

(** [p.relative_to(base)] when [p.is_relative_to(base)]. *)
Definition relative_to (p base : Path) : Path :=
  mkPath "" (skipn (List.length (tail base)) (tail p)).

(** The segments a parsed path can hold. *)
Definition segment_ok (x : string) : bool :=
  (keep_segment x && all (fun c => negb (is_slash c)) x)%bool.

Definition wf (p : Path) : Prop :=
  Forall (fun x => segment_ok x = true) (tail p).

End PosixPath.

Import PyStr PosixPath.

(* ================================================================== *)
(** ** Data model *)

(** A key of a JSON object, as [dict.get] sees it. *)
Inductive field (A : Type) : Type :=
| Absent
| Null
| Val (a : A).
Arguments Absent {A}.
Arguments Null {A}.
Arguments Val {A} a.

(** [d.get(key)]: [None] stands for Python's [None]. *)
Definition get {A} (f : field A) : option A :=
  match f with Val a => Some a | Absent | Null => None end.

(** [d.get(key, default)]. *)
Definition get_default {A} (f : field A) (default : A) : option A :=
  match f with Absent => Some default | Null => None | Val a => Some a end.

(** One element of [Mounts]. *)
Record MountDesc : Type := mkMountDesc {
  Type_ : field string;
  Source : field string;
  Destination : field string
}.

(** The [Config] object of an inspected container. *)
Record ContainerConfig : Type := mkConfig {
  Entrypoint : field (list string);
  Cmd : field (list string);
  WorkingDir : field string;
  User : field string
}.

(** The first element of the array [docker inspect] prints. *)
Record InspectInfo : Type := mkInspectInfo {
  Name : field string;
  Mounts : field (list MountDesc);
  Config : field ContainerConfig
}.

Record BindMount : Type := mkBindMount {
  source : Path;
  destination : Path
}.

(** The field [destination] of the source is [cs_destination] here: the
    projections of two records share one name space. *)
Record CopySpec : Type := mkCopySpec {
  cs_destination : Path;
  host_path : Path
}.

Record DevcToDockerResult : Type := mkResult {
  container_id : string;
  final_image : string;
  intermediate_image : string;
  temp_dir : Path;
  copied_mounts : list CopySpec
}.

(* ================================================================== *)
(** ** Effects *)

(** What the program asks of the outside world. *)
Inductive action : Type :=
| Docker (argv : list string)        (* subprocess.run(["docker", *argv], check=True) *)
| Mkdir (p : Path)                   (* p.mkdir(parents=True, exist_ok=True) *)
| Mkdtemp (prefix dir : string)      (* tempfile.mkdtemp(prefix=..., dir=...) *)
| Rmtree (p : Path)                  (* shutil.rmtree(p) *)
| Unlink (p : Path)                  (* p.unlink() *)
| Copytree (src dst : Path)          (* shutil.copytree(src, dst, symlinks=True) *)
| Copy2 (src dst : Path)             (* shutil.copy2(src, dst) *)
| RmtreeIgnoreErrors (p : Path).     (* shutil.rmtree(p, ignore_errors=True) *)

(** The warning lines the program prints. *)
Inductive warning : Type :=
| CouldNotRemoveExisting (destination_str temp_container : string)
| CouldNotRemoveIntermediate (intermediate_image : string).

Inductive event : Type :=
| Did (a : action) (ok : bool)
| Warned (w : warning).

(** The messages of [DevcToDockerError], named as the design names them. *)
Inductive domain_error : Type :=
| EngineUnavailable
| NotFound (container_id : string)
| NoBindMounts (container_id : string)
| SourceMissing (source : Path)
| InvalidDestination
| RestoreFailed (parent_str temp_container : string).

Inductive exn : Type :=
| DevcToDockerError (m : domain_error)
| CalledProcessError (argv : list string)
| OSError (a : action)
| AttributeError
| TypeError.

Inductive result (A : Type) : Type :=
| Ok (a : A)
| Err (e : exn).
Arguments Ok {A} a.
Arguments Err {A} e.

(** The environment of one run.  Every answer may depend on the events
    so far. *)
Record World : Type := mkWorld {
  which_docker : bool;                             (* shutil.which("docker") is not None *)
  utcnow : string;                                 (* utcnow().strftime("%Y%m%d%H%M%S") *)
  gettempdir : string;
  resolve : Path -> Path;
  mkdtemp_path : list event -> string -> string -> string;
  inspect_json : list event -> string -> list InspectInfo;
  succeeds : list event -> action -> bool;
  path_exists : list event -> Path -> bool;
  path_is_dir : list event -> Path -> bool
}.

(** Computations: the trace is threaded, an exception ends the run of
    the enclosing block. *)
Definition M (A : Type) : Type := list event -> result A * list event.

Definition ret {A} (a : A) : M A := fun tr => (Ok a, tr).

Definition raise {A} (e : exn) : M A := fun tr => (Err e, tr).

Definition bind {A B} (c : M A) (k : A -> M B) : M B :=
  fun tr =>
    match c tr with
    | (Ok a, tr') => k a tr'
    | (Err e, tr') => (Err e, tr')
    end.

Notation "x <- c ;; k" := (bind c (fun x => k))
  (at level 61, c at next level, right associativity).
Notation "c ;; k" := (bind c (fun _ => k))
  (at level 61, right associativity).

Definition lift {A} (r : result A) : M A := fun tr => (r, tr).

Definition emit (e : event) : M unit := fun tr => (Ok tt, tr ++ [e]).

(** [try: body except subprocess.CalledProcessError as exc: handler]. *)
Definition try_except_CalledProcessError {A}
  (body : M A) (handler : list string -> M A) : M A :=
  fun tr =>
    match body tr with
    | (Err (CalledProcessError argv), tr') => handler argv tr'
    | other => other
    end.

(** [try: body finally: cleanup]: the cleanup always runs; an exception
    of the cleanup replaces the outcome of the body. *)
Definition try_finally {A} (body : M A) (cleanup : M unit) : M A :=
  fun tr =>
    let (r, tr') := body tr in
    match cleanup tr' with
    | (Ok _, tr'') => (r, tr'')
    | (Err e, tr'') => (Err e, tr'')
    end.

(** The exception a failed operation raises. *)
Definition exn_of (a : action) : exn :=
  match a with
  | Docker argv => CalledProcessError argv
  | _ => OSError a
  end.

(* ================================================================== *)
(** ** The program *)

(** Truthiness of a [Path] object: [PurePath] defines neither [__bool__]
    nor [__len__], so every instance is true, the empty path included. *)
Definition Path_truthy (p : Path) : bool := true.

(** Truthiness of a list that may be [None]. *)
Definition list_truthy {A} (v : option (list A)) : bool :=
  match v with Some (_ :: _) => true | _ => false end.

(** The list a true value holds. *)
Definition value_or_nil {A} (v : option (list A)) : list A :=
  match v with Some l => l | None => [] end.

(** Truthiness of a string that may be [None]. *)
Definition str_truthy (v : option string) : bool :=
  match v with Some s => truthy s | None => false end.

(** [mount.get("Type") != "bind"]. *)
Definition type_is_not_bind (mount : MountDesc) : bool :=
  match get (Type_ mount) with
  | Some t => negb (t =? "bind")
  | None => true
  end.

(** [Path(v)]: [Path(None)] raises [TypeError]. *)
Definition Path_of_value (v : option string) : result Path :=
  match v with
  | Some s => Ok (of_string s)
  | None => Err TypeError
  end.

(** The loop of [_extract_bind_mounts], with the list built so far. *)
Fixpoint extract_loop (mounts : list MountDesc) (bind_mounts : list BindMount)
  : result (list BindMount) :=
  match mounts with
  | [] => Ok bind_mounts
  | mount :: rest =>
      if type_is_not_bind mount then extract_loop rest bind_mounts
      else
        match Path_of_value (get_default (Source mount) "") with
        | Err e => Err e
        | Ok source =>
            match Path_of_value (get_default (Destination mount) "") with
            | Err e => Err e
            | Ok destination =>
                if negb (Path_truthy source) then extract_loop rest bind_mounts
                else extract_loop rest
                       (bind_mounts ++ [mkBindMount source destination])
            end
        end
  end.

Definition _extract_bind_mounts (mounts : list MountDesc)
  : result (list BindMount) :=
  extract_loop mounts [].

(** The class [[^a-zA-Z0-9_.-]]. *)
Definition name_char (c : ascii) : bool :=
  (in_range "a" "z" c || in_range "A" "Z" c || in_range "0" "9" c
   || (c =? "_")%char || (c =? ".")%char || (c =? "-")%char)%bool.

Definition not_name_char (c : ascii) : bool := negb (name_char c).

Definition dash_or_dot (c : ascii) : bool :=
  ((c =? "-")%char || (c =? ".")%char)%bool.

Definition _sanitize_name (name : string) : string :=
  let sanitized := strip dash_or_dot (re_sub_class not_name_char "-" name) in
  if truthy sanitized then sanitized else "container".

(** Lines 212-220 and 237-239 of [devc_to_docker]: the names of one run. *)
Definition container_name_of (inspect_info : InspectInfo) (container_id : string)
  : result string :=
  match get_default (Name inspect_info) "" with
  | None => Err AttributeError
  | Some name =>
      let stripped := lstrip is_slash name in
      Ok (if truthy stripped then stripped else container_id)
  end.

Definition default_output_image (output_image : option string)
  (sanitized_name timestamp : string) : string :=
  match output_image with
  | None => "devc_to_docker/" ++ sanitized_name ++ ":" ++ timestamp
  | Some tag => tag
  end.

Definition default_intermediate_image (intermediate_image : option string)
  (output_image : string) : string :=
  match intermediate_image with
  | None => output_image ++ "-stage"
  | Some tag => tag
  end.

Definition temp_container_name_of (sanitized_name timestamp : string) : string :=
  let temp_container_name :=
    ("devc-to-docker-" ++ sanitized_name ++ "-" ++ timestamp)%string in
  if Nat.ltb 60 (String.length temp_container_name)
  then take 60 temp_container_name else temp_container_name.

Definition empty_config : ContainerConfig := mkConfig Absent Absent Absent Absent.

(** [_build_commit_changes]; [config] is [None] when the inspected
    [Config] is [null], and [None.get] raises [AttributeError]. *)
Definition _build_commit_changes (config : option ContainerConfig)
  : result (list string) :=
  match config with
  | None => Err AttributeError
  | Some config =>
      let changes : list string := [] in
      let entrypoint := get (Entrypoint config) in
      let cmd := get (Cmd config) in
      let changes :=
        if list_truthy entrypoint
        then changes ++ [("ENTRYPOINT " ++ Json.dumps (value_or_nil entrypoint))%string]
        else changes ++ ["ENTRYPOINT []"] in
      let changes :=
        if list_truthy cmd
        then changes ++ [("CMD " ++ Json.dumps (value_or_nil cmd))%string]
        else changes ++ ["CMD []"] in
      let work_dir := get (WorkingDir config) in
      let changes :=
        match work_dir with
        | Some w => if truthy w then changes ++ [("WORKDIR " ++ w)%string] else changes
        | None => changes
        end in
      let user := get (User config) in
      let changes :=
        match user with
        | Some u => if truthy u then changes ++ [("USER " ++ u)%string] else changes
        | None => changes
        end in
      Ok changes
  end.

Definition keepalive : string := "while true; do sleep 3600; done".

(** The arguments of the [docker run] that starts the disposable container. *)
Definition run_argv (image container_name : string) : list string :=
  ["run"; "-d"; "--name"; container_name;
   "--entrypoint"; "/bin/sh"; image; "-lc"; keepalive].

Section Program.

Variable W : World.

(** An operation that raises when it fails. *)
Definition perform (a : action) : M unit :=
  fun tr =>
    if succeeds W tr a
    then (Ok tt, tr ++ [Did a true])
    else (Err (exn_of a), tr ++ [Did a false]).

(** An operation whose failure is swallowed. *)
Definition perform_ignore_errors (a : action) : M unit :=
  fun tr => (Ok tt, tr ++ [Did a (succeeds W tr a)]).

Definition exists_ (p : Path) : M bool := fun tr => (Ok (path_exists W tr p), tr).

Definition is_dir (p : Path) : M bool := fun tr => (Ok (path_is_dir W tr p), tr).

Definition _ensure_docker_available : M unit :=
  if negb (which_docker W) then raise (DevcToDockerError EngineUnavailable)
  else ret tt.

Definition _run_docker (args : list string) : M unit := perform (Docker args).

Definition _inspect_container (container_id : string) : M InspectInfo :=
  _run_docker ["inspect"; container_id] ;;
  fun tr =>
    match inspect_json W tr container_id with
    | [] => (Err (DevcToDockerError (NotFound container_id)), tr)
    | info0 :: _ => (Ok info0, tr)
    end.

Definition _resolve_temp_dir (temp_root : option string) : M Path :=
  let root :=
    if str_truthy temp_root
    then of_string (match temp_root with Some s => s | None => "" end)
    else of_string (gettempdir W) in
  let root := resolve W root in
  perform (Mkdir root) ;;
  fun tr =>
    let a := Mkdtemp "devc_to_docker_" (to_string root) in
    if succeeds W tr a
    then (Ok (of_string (mkdtemp_path W tr "devc_to_docker_" (to_string root))),
          tr ++ [Did a true])
    else (Err (exn_of a), tr ++ [Did a false]).

(** The path under the staging root a destination is mirrored at. *)
Definition relative_of (destination : Path) : M Path :=
  if is_absolute destination then
    let parts := skipn 1 (parts destination) in
    match parts with
    | [] => raise (DevcToDockerError InvalidDestination)
    | _ :: _ => ret (of_strings parts)
    end
  else ret destination.

(** The body of the loop of [_copy_bind_mounts_to_tmp]. *)
Definition stage_one (mount : BindMount) (temp_dir : Path) : M CopySpec :=
  src_exists <- exists_ (source mount) ;;
  (if negb src_exists
   then raise (DevcToDockerError (SourceMissing (source mount)))
   else ret tt) ;;
  let destination := destination mount in
  relative <- relative_of destination ;;
  let host_target := joinpath temp_dir relative in
  perform (Mkdir (parent host_target)) ;;
  target_exists <- exists_ host_target ;;
  (if target_exists then
     target_is_dir <- is_dir host_target ;;
     if target_is_dir then perform (Rmtree host_target)
     else perform (Unlink host_target)
   else ret tt) ;;
  source_is_dir <- is_dir (source mount) ;;
  (if source_is_dir then perform (Copytree (source mount) host_target)
   else perform (Copy2 (source mount) host_target)) ;;
  ret (mkCopySpec destination host_target).

(** The loop of [_copy_bind_mounts_to_tmp], with the list built so far. *)
Fixpoint copy_loop (bind_mounts : list BindMount) (temp_dir : Path)
  (copies : list CopySpec) : M (list CopySpec) :=
  match bind_mounts with
  | [] => ret copies
  | mount :: rest =>
      spec <- stage_one mount temp_dir ;;
      copy_loop rest temp_dir (copies ++ [spec])
  end.

Definition _copy_bind_mounts_to_tmp (bind_mounts : list BindMount)
  (temp_dir : Path) : M (list CopySpec) :=
  copy_loop bind_mounts temp_dir [].

Definition _start_keepalive_container (image container_name : string) : M unit :=
  _run_docker (run_argv image container_name).

(** [p.as_posix() or "."]. *)
Definition posix_or_dot (p : Path) : string :=
  let s := to_string p in if truthy s then s else ".".

Definition destination_parent_of (destination : Path) : Path :=
  if negb (PosixPath.eqb (parent destination) destination)
  then parent destination else of_string "/".

Definition rm_argv (temp_container destination_str : string) : list string :=
  ["exec"; temp_container; "rm"; "-rf"; destination_str].

Definition mkdir_argv (temp_container parent_str : string) : list string :=
  ["exec"; temp_container; "mkdir"; "-p"; parent_str].

Definition cp_argv (temp_container : string) (host_path : Path)
  (parent_str : string) : list string :=
  ["cp"; to_string host_path; (temp_container ++ ":" ++ parent_str)%string].

(** The body of the loop of [_restore_bind_mounts]. *)
Definition restore_one (temp_container : string) (spec : CopySpec) : M unit :=
  let destination := cs_destination spec in
  let host_path := host_path spec in
  let destination_parent := destination_parent_of destination in
  let destination_str := posix_or_dot destination in
  let parent_str := posix_or_dot destination_parent in
  try_except_CalledProcessError
    (_run_docker (rm_argv temp_container destination_str))
    (fun _ => emit (Warned (CouldNotRemoveExisting destination_str temp_container))) ;;
  try_except_CalledProcessError
    (_run_docker (mkdir_argv temp_container parent_str))
    (fun _ => raise (DevcToDockerError (RestoreFailed parent_str temp_container))) ;;
  _run_docker (cp_argv temp_container host_path parent_str).

Fixpoint _restore_bind_mounts (temp_container : string) (copies : list CopySpec)
  : M unit :=
  match copies with
  | [] => ret tt
  | spec :: rest =>
      restore_one temp_container spec ;;
      _restore_bind_mounts temp_container rest
  end.

(** [commit_cmd] of the final commit. *)
Definition final_commit_argv (changes : list string)
  (temp_container_name output_image : string) : list string :=
  ["commit"]
  ++ flat_map (fun change => ["--change"; change]) changes
  ++ [temp_container_name; output_image].

(** The [finally] block. *)
Definition teardown (temp_container_name : string) (temp_dir : Path)
  (keep_temp : bool) : M unit :=
  try_except_CalledProcessError
    (_run_docker ["stop"; temp_container_name]) (fun _ => ret tt) ;;
  try_except_CalledProcessError
    (_run_docker ["rm"; temp_container_name]) (fun _ => ret tt) ;;
  if negb keep_temp then perform_ignore_errors (RmtreeIgnoreErrors temp_dir)
  else ret tt.

(** Lines 243-267 of [devc_to_docker]: restore, translate and commit,
    with the [finally] block. *)
Definition restore_and_commit (inspect_info : InspectInfo)
  (temp_container_name output_image : string) (temp_dir : Path)
  (copies : list CopySpec) (keep_temp : bool) : M unit :=
  try_finally
    (_restore_bind_mounts temp_container_name copies ;;
     changes <- lift (_build_commit_changes
                        (get_default (Config inspect_info) empty_config)) ;;
     _run_docker (final_commit_argv changes temp_container_name output_image))
    (teardown temp_container_name temp_dir keep_temp).

(** Lines 222-281 of [devc_to_docker]: the run once the names are known. *)
Definition capture_and_fold (container_id : string) (inspect_info : InspectInfo)
  (sanitized_name timestamp output_image intermediate_image : string)
  (temp_root : option string) (keep_temp keep_intermediate : bool)
  : M DevcToDockerResult :=
  mounts <- match get_default (Mounts inspect_info) [] with
            | Some l => ret l
            | None => raise TypeError
            end ;;
  bind_mounts <- lift (_extract_bind_mounts mounts) ;;
  match bind_mounts with
  | [] => raise (DevcToDockerError (NoBindMounts container_id))
  | _ :: _ =>
      _run_docker ["commit"; container_id; intermediate_image] ;;
      temp_dir <- _resolve_temp_dir temp_root ;;
      copies <- _copy_bind_mounts_to_tmp bind_mounts temp_dir ;;
      let temp_container_name := temp_container_name_of sanitized_name timestamp in
      _start_keepalive_container intermediate_image temp_container_name ;;
      restore_and_commit inspect_info temp_container_name output_image
        temp_dir copies keep_temp ;;
      (if negb keep_intermediate then
         try_except_CalledProcessError
           (_run_docker ["rmi"; intermediate_image])
           (fun _ => emit (Warned (CouldNotRemoveIntermediate intermediate_image)))
       else ret tt) ;;
      ret (mkResult container_id output_image intermediate_image temp_dir copies)
  end.

(** Lines 209-220 of [devc_to_docker], followed by the rest of the run. *)
Definition devc_to_docker (container_id : string)
  (output_image intermediate_image temp_root : option string)
  (keep_temp keep_intermediate : bool) : M DevcToDockerResult :=
  _ensure_docker_available ;;
  inspect_info <- _inspect_container container_id ;;
  container_name <- lift (container_name_of inspect_info container_id) ;;
  let sanitized_name := _sanitize_name container_name in
  let timestamp := utcnow W in
  let output_image := default_output_image output_image sanitized_name timestamp in
  let intermediate_image :=
    default_intermediate_image intermediate_image output_image in
  capture_and_fold container_id inspect_info sanitized_name timestamp
    output_image intermediate_image temp_root keep_temp keep_intermediate.

End Program.

(* ================================================================== *)
(** ** The design's words, for comparison with the program *)

Section WordsOfTheNamingPolicy.

(** The naming policy as the design words it, on lists of characters. *)
Definition allowed_chars : list ascii :=
  list_ascii_of_string
    "ABCDEFGHIJKLMNOPQRSTUVWXYZabcdefghijklmnopqrstuvwxyz0123456789_.-".

Definition is_allowed (c : ascii) : bool := existsb (Ascii.eqb c) allowed_chars.

Definition replace_disallowed (l : list ascii) : list ascii :=
  map (fun c => if is_allowed c then c else "-"%char) l.

Fixpoint drop_while (p : ascii -> bool) (l : list ascii) : list ascii :=
  match l with
  | [] => []
  | c :: l' => if p c then drop_while p l' else l
  end.

Definition trim_both (p : ascii -> bool) (l : list ascii) : list ascii :=
  rev (drop_while p (rev (drop_while p l))).

Definition is_dash_or_dot (c : ascii) : bool :=
  existsb (Ascii.eqb c) ["-"%char; "."%char].

Definition slug_of (name : string) : string :=
  match trim_both is_dash_or_dot (replace_disallowed (list_ascii_of_string name)) with
  | [] => "container"
  | c :: l => string_of_list_ascii (c :: l)
  end.

End WordsOfTheNamingPolicy.

Section WordsOfTheMetadataTranslator.

(** The directives as the design words them: an entrypoint directive and
    a command directive always, each explicitly empty when nothing was
    set; a working-directory and a user directive only when set. *)
Definition list_directive (keyword : string) (f : field (list string)) : string :=
  match f with
  | Val (x :: l) => (keyword ++ " " ++ Json.dumps (x :: l))%string
  | Val [] | Absent | Null => (keyword ++ " []")%string
  end.

Definition optional_directive (keyword : string) (f : field string)
  : list string :=
  match f with
  | Val (String c s) => [(keyword ++ " " ++ String c s)%string]
  | Val EmptyString | Absent | Null => []
  end.

Definition directives_of (config : ContainerConfig) : list string :=
  [list_directive "ENTRYPOINT" (Entrypoint config);
   list_directive "CMD" (Cmd config)]
  ++ optional_directive "WORKDIR" (WorkingDir config)
  ++ optional_directive "USER" (User config).

End WordsOfTheMetadataTranslator.

Section WordsOfTheMountExtractor.

(** The extractor as the design words it: the entries whose type is bind
    and whose source is a non-empty string, in the reported order. *)
Definition is_bind_with_source (mount : MountDesc) : bool :=
  match Type_ mount, Source mount with
  | Val t, Val s => ((t =? "bind") && truthy s)%bool
  | _, _ => false
  end.

Definition bind_mount_of (mount : MountDesc) : BindMount :=
  mkBindMount
    (of_string (match Source mount with Val s => s | _ => "" end))
    (of_string (match Destination mount with Val d => d | _ => "" end)).

Definition binds_with_source (mounts : list MountDesc) : list BindMount :=
  map bind_mount_of (filter is_bind_with_source mounts).

(** What the loop keeps instead: every entry whose type is bind. *)
Definition is_bind (mount : MountDesc) : bool := negb (type_is_not_bind mount).

(** No [null] where the loop builds a path. *)
Definition paths_not_null (mount : MountDesc) : Prop :=
  is_bind mount = true -> Source mount <> Null /\ Destination mount <> Null.

End WordsOfTheMountExtractor.

Section Scenarios.

(** The end-to-end scenario of the design: container [abc123] with one
    bind mount [/host/proj] on [/workspace]. *)
Definition abc123_info : InspectInfo :=
  mkInspectInfo
    (Val "/My App!")
    (Val [mkMountDesc (Val "bind") (Val "/host/proj") (Val "/workspace")])
    (Val (mkConfig (Val ["/bin/bash"]) Null (Val "/workspace") (Val ""))).

(** A host on which the paths of [on_host] exist, as directories, and on
    which an operation succeeds unless [fails] says otherwise. *)
Definition world_of (info : list InspectInfo) (on_host : list Path)
  (fails : action -> bool) : World :=
  {| which_docker := true;
     utcnow := "20240101120000";
     gettempdir := "/tmp";
     resolve := fun p => p;
     mkdtemp_path := fun _ prefix dir => (dir ++ "/" ++ prefix ++ "k3v9x2ab")%string;
     inspect_json := fun _ _ => info;
     succeeds := fun _ a => negb (fails a);
     path_exists := fun _ p => existsb (PosixPath.eqb p) on_host;
     path_is_dir := fun _ p => existsb (PosixPath.eqb p) on_host |}.

Definition is_verb (verb : string) (a : action) : bool :=
  match a with
  | Docker (v :: _) => (v =? verb)%string
  | _ => false
  end.

Definition never (a : action) : bool := false.

Definition host_proj : Path := of_string "/host/proj".

Definition scenario_temp_dir : Path := of_string "/tmp/devc_to_docker_k3v9x2ab".

End Scenarios.

Section ReadingATrace.

(** Events of the steps before the disposable container runs: the
    inspection, the intermediate commit, the staging on the host, and a
    [docker run] that failed. *)
Definition is_staging (ev : event) : bool :=
  match ev with
  | Did (Mkdir _) _ | Did (Mkdtemp _ _) _ | Did (Rmtree _) _
  | Did (Unlink _) _ | Did (Copytree _ _) _ | Did (Copy2 _ _) _ => true
  | _ => false
  end.

Definition is_before_start (ev : event) : bool :=
  match ev with
  | Did (Docker (verb :: _)) ok =>
      ((verb =? "inspect") || (verb =? "commit")
       || ((verb =? "run") && negb ok))%bool
  | _ => is_staging ev
  end.

(** Events of the guarded steps: restore and final commit. *)
Definition is_guarded_step (ev : event) : bool :=
  match ev with
  | Did (Docker (verb :: _)) _ =>
      ((verb =? "exec") || (verb =? "cp") || (verb =? "commit"))%bool
  | Warned (CouldNotRemoveExisting _ _) => true
  | _ => false
  end.

(** The events of the [finally] block. *)
Definition teardown_events (temp_container_name : string) (temp_dir : Path)
  (keep_temp stopped removed cleaned : bool) : list event :=
  [Did (Docker ["stop"; temp_container_name]) stopped;
   Did (Docker ["rm"; temp_container_name]) removed]
  ++ (if keep_temp then [] else [Did (RmtreeIgnoreErrors temp_dir) cleaned]).

(** The events of the removal of the intermediate image. *)
Definition rmi_events (intermediate_image : string) (removed : bool) : list event :=
  Did (Docker ["rmi"; intermediate_image]) removed
  :: (if removed then []
      else [Warned (CouldNotRemoveIntermediate intermediate_image)]).

(** The directories [mkdtemp] created along [evs], which follow [before]. *)
Fixpoint temp_dirs (W : World) (before evs : list event) : list Path :=
  match evs with
  | [] => []
  | ev :: rest =>
      match ev with
      | Did (Mkdtemp prefix dir) true =>
          [of_string (mkdtemp_path W before prefix dir)]
      | _ => []
      end ++ temp_dirs W (before ++ [ev]) rest
  end.

(** A trace in which the disposable container was started. *)
Definition container_started (tr : list event) : Prop :=
  exists args, In (Did (Docker ("run" :: args)) true) tr.

(** A trace in which the removal of an image was asked for. *)
Definition issues_rmi (tr : list event) : Prop :=
  exists args ok, In (Did (Docker ("rmi" :: args)) ok) tr.

(** A trace in which a temp directory was created. *)
Definition temp_dir_created (tr : list event) : Prop :=
  exists prefix dir, In (Did (Mkdtemp prefix dir) true) tr.

(** A trace in which the removal of a directory, with errors ignored, was
    asked for. *)
Definition issues_cleanup (tr : list event) : Prop :=
  exists p ok, In (Did (RmtreeIgnoreErrors p) ok) tr.

End ReadingATrace.

(** A computation that only appends events of the class [P]. *)
Definition emits {A} (P : event -> Prop) (c : M A) : Prop :=
  forall tr r tr',
    c tr = (r, tr') -> exists evs, tr' = tr ++ evs /\ Forall P evs.

Definition staging_event (ev : event) : Prop := is_staging ev = true.

Definition before_start_event (ev : event) : Prop := is_before_start ev = true.

Definition guarded_event (ev : event) : Prop := is_guarded_step ev = true.

(** The three ways a run can go, read off its outcome and its events
    [evs], for a disposable container [name] started from [image]: it
    stops before the disposable container runs; it fails in the guarded
    steps; it completes. *)
Inductive run_shape (W : World) (keep_temp keep_intermediate : bool)
  (image name : string) (tr0 : list event)
  : result DevcToDockerResult -> list event -> Prop :=
| stopped_early (e : exn) (pre : list event) :
    Forall before_start_event pre ->
    run_shape W keep_temp keep_intermediate image name tr0 (Err e) pre
| failed_guarded (e : exn) (pre mid : list event) (dir : Path)
    (stopped removed cleaned : bool) :
    Forall before_start_event pre ->
    In dir (temp_dirs W tr0 pre) ->
    Forall guarded_event mid ->
    run_shape W keep_temp keep_intermediate image name tr0 (Err e)
      (pre ++ [Did (Docker (run_argv image name)) true] ++ mid
       ++ teardown_events name dir keep_temp stopped removed cleaned)
| completed (res : DevcToDockerResult) (pre mid : list event)
    (stopped removed cleaned untagged : bool) :
    intermediate_image res = image ->
    Forall before_start_event pre ->
    In (temp_dir res) (temp_dirs W tr0 pre) ->
    Forall guarded_event mid ->
    run_shape W keep_temp keep_intermediate image name tr0 (Ok res)
      (pre ++ [Did (Docker (run_argv image name)) true] ++ mid
       ++ teardown_events name (temp_dir res) keep_temp stopped removed cleaned
       ++ (if keep_intermediate then [] else rmi_events image untagged)).

(** A failed run whose last events are those of the [finally] block, for
    the disposable container it started and the temp directory it made. *)
Definition ends_with_teardown (W : World) (keep_temp : bool) (tr : list event)
  : Prop :=
  exists pre image name dir mid stopped removed cleaned,
    tr = pre ++ [Did (Docker (run_argv image name)) true] ++ mid
         ++ teardown_events name dir keep_temp stopped removed cleaned
    /\ In dir (temp_dirs W [] pre)
    /\ Forall guarded_event mid.

(** A container with a named volume and no bind mount. *)
Definition volume_only_info : InspectInfo :=
  mkInspectInfo
    (Val "/db")
    (Val [mkMountDesc (Val "volume") (Val "/var/lib/docker/volumes/v/_data")
            (Val "/data")])
    (Val empty_config).

(** A container whose inspection reports no name. *)
Definition nameless_info : InspectInfo :=
  mkInspectInfo
    (Val "/")
    (Val [mkMountDesc (Val "bind") (Val "/host/proj") (Val "/workspace")])
    (Val empty_config).

(** The final tag of a run that succeeded. *)
Definition final_image_of (r : result DevcToDockerResult) : option string :=
  match r with Ok res => Some (final_image res) | Err _ => None end.

Section WordsOfTheStager.

(** A destination with its root stripped. *)
Definition strip_root (d : Path) : Path := mkPath "" (tail d).

(** The host path a destination is staged at: the temp directory followed
    by the segments of the destination. *)
Definition staged_at (temp_dir d : Path) : Path :=
  mkPath (root temp_dir) (tail temp_dir ++ tail d).

Definition staged (temp_dir : Path) (mount : BindMount) : CopySpec :=
  mkCopySpec (destination mount) (staged_at temp_dir (destination mount)).

(** Bind mounts whose paths are parsed paths, as every [Path] object is. *)
Definition wf_mount (mount : BindMount) : Prop := wf (destination mount).

(** The content of [mount] was copied to [target] along [evs]. *)
Definition copied_to (mount : BindMount) (target : Path) (evs : list event) : Prop :=
  In (Did (Copytree (source mount) target) true) evs
  \/ In (Did (Copy2 (source mount) target) true) evs.

(** Some content was copied along [evs]. *)
Definition is_copy (ev : event) : bool :=
  match ev with
  | Did (Copytree _ _) _ | Did (Copy2 _ _) _ => true
  | _ => false
  end.

(** The root as a destination. *)
Definition is_root (d : Path) : Prop := is_absolute d = true /\ tail d = [].

(** The segments of a path with every [..] resolved against the segment
    before it, as [os.path.normpath] does below a root, where a [..] with
    nothing before it is dropped; [seen] holds the segments kept so far,
    the last one first. *)
Fixpoint resolve_dots (seen segments : list string) : list string :=
  match segments with
  | [] => rev seen
  | x :: rest =>
      if (x =? "..")%string then resolve_dots (List.tl seen) rest
      else resolve_dots (x :: seen) rest
  end.

Definition normal_segments (p : Path) : list string := resolve_dots [] (tail p).

(** [p] lies inside the directory [base]: with every [..] resolved, [p]
    is [base] followed by at least one more segment.  The directory
    itself is not inside itself. *)
Definition lies_inside (p base : Path) : bool :=
  ((root p =? root base)%string
   && is_prefix (normal_segments base) (normal_segments p)
   && Nat.ltb (List.length (normal_segments base))
        (List.length (normal_segments p)))%bool.

(** A destination that names a place below its root: at least one
    segment, and no segment [..]. *)
Definition names_a_place (d : Path) : bool :=
  (match tail d with [] => false | _ :: _ => true end
   && forallb (fun x => negb (x =? "..")%string) (tail d))%bool.

End WordsOfTheStager.

Section WordsOfTheRestoreStep.

Variable temp_container : string.

(** The destination, as the commands name it. *)
Definition destination_str_of (spec : CopySpec) : string :=
  to_string (cs_destination spec).

(** The parent directory of a destination inside the container: the
    destination without its last segment, and the root [/] for a
    destination that has no segment. *)
Definition parent_in_container (d : Path) : Path :=
  match tail d with
  | [] => mkPath "/" []
  | _ :: _ => mkPath (root d) (removelast (tail d))
  end.

Definition parent_str_of (spec : CopySpec) : string :=
  to_string (parent_in_container (cs_destination spec)).

(** [docker exec <container> rm -rf <destination>]: the removal of what
    is at the destination; a failure leaves a warning. *)
Definition removal_events (spec : CopySpec) (removed : bool) : list event :=
  Did (Docker ["exec"; temp_container; "rm"; "-rf"; destination_str_of spec])
    removed
  :: (if removed then []
      else [Warned (CouldNotRemoveExisting (destination_str_of spec) temp_container)]).

(** [docker exec <container> mkdir -p <parent>]. *)
Definition mkdir_event (spec : CopySpec) (ok : bool) : event :=
  Did (Docker ["exec"; temp_container; "mkdir"; "-p"; parent_str_of spec]) ok.

(** [docker cp <host path> <container>:<parent>]. *)
Definition cp_command (spec : CopySpec) : list string :=
  ["cp"; to_string (host_path spec);
   (temp_container ++ ":" ++ parent_str_of spec)%string].

Definition cp_event (spec : CopySpec) (ok : bool) : event :=
  Did (Docker (cp_command spec)) ok.

(** The restore step as the design words it: for each CopySpec in order,
    a removal whose failure does not stop anything, then the creation of
    the parent whose failure is [RestoreFailed], then the copy. *)
Inductive restore_trace : list CopySpec -> result unit -> list event -> Prop :=
| restore_done : restore_trace [] (Ok tt) []
| restore_next spec rest removed r evs :
    restore_trace rest r evs ->
    restore_trace (spec :: rest) r
      (removal_events spec removed
       ++ [mkdir_event spec true; cp_event spec true] ++ evs)
| restore_no_parent spec rest removed :
    restore_trace (spec :: rest)
      (Err (DevcToDockerError (RestoreFailed (parent_str_of spec) temp_container)))
      (removal_events spec removed ++ [mkdir_event spec false])
| restore_no_copy spec rest removed :
    restore_trace (spec :: rest)
      (Err (CalledProcessError (cp_command spec)))
      (removal_events spec removed
       ++ [mkdir_event spec true; cp_event spec false]).

(** The [docker] commands of a trace, in order. *)
Definition docker_commands (evs : list event) : list (list string) :=
  flat_map (fun ev => match ev with Did (Docker argv) _ => [argv] | _ => [] end) evs.

(** The three commands of one CopySpec. *)
Definition restore_plan (spec : CopySpec) : list (list string) :=
  [["exec"; temp_container; "rm"; "-rf"; destination_str_of spec];
   ["exec"; temp_container; "mkdir"; "-p"; parent_str_of spec];
   cp_command spec].

End WordsOfTheRestoreStep.

(** Two bind mounts, the second on the root. *)
Definition root_second : list BindMount :=
  [mkBindMount host_proj (of_string "/workspace");
   mkBindMount host_proj (of_string "/")].

(** What the design says of a mount on the root, as it says it: the run
    is rejected with [InvalidDestination] and no content of any mount was
    copied. *)
Definition root_rejected_before_any_copy : Prop :=
  forall W bind_mounts temp_dir tr r tr',
    Forall wf_mount bind_mounts ->
    Exists (fun m => is_root (destination m)) bind_mounts ->
    _copy_bind_mounts_to_tmp W bind_mounts temp_dir tr = (r, tr') ->
    r = Err (DevcToDockerError InvalidDestination)
    /\ exists evs, tr' = tr ++ evs /\ existsb is_copy evs = false.

(** How a CopySpec stands to the mount it was made from: it keeps the
    destination; its host path is the temp directory followed by the
    segments of the destination, root stripped; and when the destination
    names a place, the host path lies inside the temp directory. *)
Definition mirrors (temp_dir : Path) (mount : BindMount) (spec : CopySpec) : Prop :=
  cs_destination spec = destination mount
  /\ root (host_path spec) = root temp_dir
  /\ tail (host_path spec) = tail temp_dir ++ tail (destination mount)
  /\ is_relative_to (host_path spec) temp_dir = true
  /\ relative_to (host_path spec) temp_dir = strip_root (destination mount)
  /\ (names_a_place (destination mount) = true ->
      lies_inside (host_path spec) temp_dir = true).

(** What the design says of every CopySpec, as it says it: the host path
    lies inside the temp directory of the run. *)
Definition host_path_always_inside : Prop :=
  forall W bind_mounts temp_dir tr copies tr',
    Forall wf_mount bind_mounts ->
    _copy_bind_mounts_to_tmp W bind_mounts temp_dir tr = (Ok copies, tr') ->
    Forall (fun spec => lies_inside (host_path spec) temp_dir = true) copies.

(** A bind mount whose destination climbs out of its root. *)
Definition climbing_mount : BindMount :=
  mkBindMount host_proj (of_string "/../../etc/cron.d").

(** A bind mount made from an entry without [Destination]. *)
Definition placeless_mount : BindMount := mkBindMount host_proj (of_string "").

Section ReadingNames.

(** A string [_sanitize_name] has nothing to change in: not empty, made
    of the characters of the class, no dash or dot at either end. *)
Definition is_clean_slug (s : string) : bool :=
  (truthy s && all name_char s
   && match first s with Some c => negb (dash_or_dot c) | None => true end
   && match last s with Some c => negb (dash_or_dot c) | None => true end)%bool.

(** The name of the disposable container before it is cut to 60. *)
Definition full_temp_container_name (sanitized_name timestamp : string) : string :=
  ("devc-to-docker-" ++ sanitized_name ++ "-" ++ timestamp)%string.

End ReadingNames.

Section ReadingMountDescriptors.

(** A bind entry whose [Source] or [Destination] is [null]. *)
Definition has_null_path (mount : MountDesc) : bool :=
  match Source mount, Destination mount with
  | Null, _ | _, Null => true
  | _, _ => false
  end.

End ReadingMountDescriptors.

Section ReadingTheGuardedSteps.

(** The body of the [try] block of [devc_to_docker], lines 244-253. *)
Definition guarded_steps (W : World) (inspect_info : InspectInfo)
  (temp_container_name output_image : string) (copies : list CopySpec) : M unit :=
  _restore_bind_mounts W temp_container_name copies ;;
  changes <- lift (_build_commit_changes
                     (get_default (Config inspect_info) empty_config)) ;;
  _run_docker W (final_commit_argv changes temp_container_name output_image).

(** Events of the restore step alone. *)
Definition is_restore_step (ev : event) : bool :=
  match ev with
  | Did (Docker (verb :: _)) _ => ((verb =? "exec") || (verb =? "cp"))%bool
  | Warned (CouldNotRemoveExisting _ _) => true
  | _ => false
  end.

Definition restore_event (ev : event) : Prop := is_restore_step ev = true.

(** A trace in which an image commit was asked for. *)
Definition issues_commit (evs : list event) : Prop :=
  exists args ok, In (Did (Docker ("commit" :: args)) ok) evs.

End ReadingTheGuardedSteps.

Section MoreScenarios.

(** A host without the [docker] command. *)
Definition world_without_docker : World :=
  {| which_docker := false;
     utcnow := "20240101120000";
     gettempdir := "/tmp";
     resolve := fun p => p;
     mkdtemp_path := fun _ prefix dir => (dir ++ "/" ++ prefix ++ "k3v9x2ab")%string;
     inspect_json := fun _ _ => [abc123_info];
     succeeds := fun _ _ => true;
     path_exists := fun _ _ => true;
     path_is_dir := fun _ _ => true |}.

(** The scenario's container with a [null] configuration. *)
Definition null_config_info : InspectInfo :=
  mkInspectInfo
    (Val "/My App!")
    (Val [mkMountDesc (Val "bind") (Val "/host/proj") (Val "/workspace")])
    Null.

Definition workspace_copy : CopySpec :=
  mkCopySpec (of_string "/workspace")
    (of_string "/tmp/devc_to_docker_k3v9x2ab/workspace").

End MoreScenarios.

Section ReadingTheStaging.

(** [p.name]: the last segment of a path, empty when there is none. *)
Definition Path_name (p : Path) : string := List.last (tail p) "".

(** Where [docker cp src container:parent] puts the copy: under the
    parent, with the name of the source. *)
Definition cp_lands_at (parent_path src : Path) : Path :=
  joinpath parent_path (mkPath "" [Path_name src]).

(** A world in which nothing is at the staging target: one directory to
    copy, everything succeeds. *)
Definition fresh_host : World := world_of [abc123_info] [host_proj] never.

(** The path an event asks the host to remove, if it asks for that. *)
Definition removal_target (ev : event) : option Path :=
  match ev with
  | Did (Rmtree p) _ | Did (Unlink p) _ | Did (RmtreeIgnoreErrors p) _ => Some p
  | _ => None
  end.

(** The paths the host was asked to remove along a trace, in order. *)
Definition removed_paths (evs : list event) : list Path :=
  flat_map (fun ev => match removal_target ev with Some p => [p] | None => [] end)
    evs.

(** An event that removes nothing on the host but one of [targets]. *)
Definition removes_among (targets : list Path) (ev : event) : Prop :=
  match removal_target ev with Some p => In p targets | None => True end.

(** A world in which something is already at the staging path of the
    scenario's mount. *)
Definition stale_host : World :=
  world_of [abc123_info]
    [host_proj; of_string "/tmp/devc_to_docker_k3v9x2ab/workspace"] never.

(** The staged copy of the scenario's second level. *)
Definition app_copy : CopySpec :=
  mkCopySpec (of_string "/workspace/app")
    (of_string "/tmp/devc_to_docker_k3v9x2ab/workspace/app").

End ReadingTheStaging.

(* ================================================================== *)
(** ** The command *)

(** The parsed arguments [_handle_command] reads. *)
Record Namespace : Type := mkNamespace {
  arg_container_id : string;
  arg_output_image : option string;
  arg_intermediate_image : option string;
  arg_temp_root : option string;
  arg_keep_temp : bool;
  arg_keep_intermediate : bool
}.

(** The lines [_handle_command] prints itself. *)
Inductive console_line : Type :=
| ErrorLine (exc : exn)                       (* Error: {exc} *)
| SummaryHeader                               (* Summary: *)
| ContainerCaptured (container_id : string)
| FinalImageTag (tag : string)
| IntermediateTag (tag : string)
| CopiedHeader                                (* Copied bind mounts: *)
| CopiedLine (host_path destination : Path)
| TemporaryDir (p : Path).

(** [except (DevcToDockerError, subprocess.CalledProcessError)]. *)
Definition is_handled (e : exn) : bool :=
  match e with
  | DevcToDockerError _ | CalledProcessError _ => true
  | OSError _ | AttributeError | TypeError => false
  end.

(** The summary of lines 298-306. *)
Definition summary_lines (result : DevcToDockerResult) : list console_line :=
  [SummaryHeader;
   ContainerCaptured (container_id result);
   FinalImageTag (final_image result);
   IntermediateTag (intermediate_image result)]
  ++ match copied_mounts result with
     | [] => []
     | _ :: _ =>
         CopiedHeader
         :: map (fun spec => CopiedLine (host_path spec) (cs_destination spec))
              (copied_mounts result)
     end
  ++ [TemporaryDir (temp_dir result)].

(** [_handle_command]: the exit code, or the exception that escapes, with
    the events of the run and the lines printed here. *)
Definition _handle_command (W : World) (args : Namespace) (tr : list event)
  : result nat * list event * list console_line :=
  match devc_to_docker W (arg_container_id args) (arg_output_image args)
          (arg_intermediate_image args) (arg_temp_root args)
          (arg_keep_temp args) (arg_keep_intermediate args) tr with
  | (Ok result, tr') => (Ok 0, tr', summary_lines result)
  | (Err exc, tr') =>
      if is_handled exc then (Ok 1, tr', [ErrorLine exc])
      else (Err exc, tr', [])
  end.

Section ReadingOutcomes.

(** A computation whose values satisfy [Q] and whose exceptions [P]. *)
Definition outcome {A} (Q : A -> Prop) (P : exn -> Prop) (c : M A) : Prop :=
  forall tr r tr',
    c tr = (r, tr') ->
    match r with Ok a => Q a | Err e => P e end.

Definition handled (e : exn) : Prop := is_handled e = true.

(** No condition on a value. *)
Definition anything {A : Type} : A -> Prop := fun _ => True.

Definition is_docker (a : action) : bool :=
  match a with Docker _ => true | _ => false end.

(** A host on which the file-system operations do not fail. *)
Definition host_never_fails (W : World) : Prop :=
  forall tr a, is_docker a = false -> succeeds W tr a = true.

(** Inspected metadata without a [null] where the program reads. *)
Definition no_null (info : InspectInfo) : Prop :=
  Name info <> Null
  /\ Config info <> Null
  /\ Mounts info <> Null
  /\ forall mounts,
       Mounts info = Val mounts ->
       existsb has_null_path (filter is_bind mounts) = false.

Definition inspection_has_no_null (W : World) : Prop :=
  forall tr cid info others,
    inspect_json W tr cid = info :: others -> no_null info.

End ReadingOutcomes.

(** The scenario's container with a [null] name. *)
Definition null_name_info : InspectInfo :=
  mkInspectInfo
    Null
    (Val [mkMountDesc (Val "bind") (Val "/host/proj") (Val "/workspace")])
    (Val empty_config).

Definition abc123_args : Namespace :=
  mkNamespace "abc123" None None None false false.

(* ================================================================== *)
(** * Properties *)

(** ** Naming policy *)

Lemma name_char_is_allowed (c : ascii) : name_char c = is_allowed c.
Proof.
  destruct c as [b0 b1 b2 b3 b4 b5 b6 b7].
  destruct b0, b1, b2, b3, b4, b5, b6, b7; vm_compute; reflexivity.
Qed.

Lemma dash_or_dot_is (c : ascii) : dash_or_dot c = is_dash_or_dot c.
Proof.
  unfold dash_or_dot, is_dash_or_dot; simpl.
  now rewrite orb_false_r.
Qed.

Lemma re_sub_class_replace (name : string) :
  list_ascii_of_string (re_sub_class not_name_char "-" name)
  = replace_disallowed (list_ascii_of_string name).
Proof.
  induction name as [|c s IH]; simpl; [reflexivity|].
  unfold not_name_char at 1. rewrite name_char_is_allowed.
  destruct (is_allowed c); simpl; now rewrite IH.
Qed.

Lemma lstrip_drop_while (p : ascii -> bool) (s : string) :
  list_ascii_of_string (lstrip p s) = drop_while p (list_ascii_of_string s).
Proof.
  induction s as [|c s IH]; simpl; [reflexivity|].
  destruct (p c); [exact IH | reflexivity].
Qed.

Lemma drop_while_snoc (p : ascii -> bool) (m : list ascii) (c : ascii) :
  drop_while p (m ++ [c])
  = match drop_while p m with
    | [] => if p c then [] else [c]
    | _ :: _ => drop_while p m ++ [c]
    end.
Proof.
  induction m as [|x m IH]; simpl; [reflexivity|].
  destruct (p x); [exact IH | reflexivity].
Qed.

Lemma rstrip_drop_while (p : ascii -> bool) (s : string) :
  list_ascii_of_string (rstrip p s)
  = rev (drop_while p (rev (list_ascii_of_string s))).
Proof.
  induction s as [|c s IH]; simpl; [reflexivity|].
  rewrite drop_while_snoc.
  destruct (drop_while p (rev (list_ascii_of_string s))) as [|y l] eqn:D.
  - destruct (rstrip p s) as [|d r]; [|discriminate IH].
    destruct (p c); reflexivity.
  - rewrite rev_app_distr, <- IH.
    destruct (rstrip p s) as [|d r] eqn:E.
    + exfalso. simpl in IH. destruct (rev l); discriminate IH.
    + reflexivity.
Qed.

Lemma drop_while_ext (p q : ascii -> bool) (l : list ascii) :
  (forall c, p c = q c) -> drop_while p l = drop_while q l.
Proof.
  intros H. induction l as [|c l IH]; simpl; [reflexivity|].
  rewrite H, IH. reflexivity.
Qed.

Lemma strip_trim_both (s : string) :
  list_ascii_of_string (strip dash_or_dot s)
  = trim_both is_dash_or_dot (list_ascii_of_string s).
Proof.
  unfold strip, trim_both.
  rewrite rstrip_drop_while, lstrip_drop_while.
  rewrite !(drop_while_ext dash_or_dot is_dash_or_dot) by apply dash_or_dot_is.
  reflexivity.
Qed.

Lemma sanitize_is_slug (name : string) : _sanitize_name name = slug_of name.
Proof.
  unfold _sanitize_name, slug_of.
  rewrite <- re_sub_class_replace, <- strip_trim_both.
  destruct (strip dash_or_dot (re_sub_class not_name_char "-" name)) as [|c r] eqn:E.
  - reflexivity.
  - cbn [truthy String.eqb negb list_ascii_of_string].
    change (c :: list_ascii_of_string r) with (list_ascii_of_string (String c r)).
    now rewrite string_of_list_ascii_of_string.
Qed.

(** ** Metadata translation *)

(** C7. The directives come in the fixed order entrypoint, command,
    workdir, user; the entrypoint and the command directive are always
    there, explicitly empty when nothing was set, the workdir and the user
    directive only when set; a configuration with no entrypoint, no
    command, the working directory /app and no user gives exactly
    ENTRYPOINT [], CMD [], WORKDIR /app. *)
Theorem commit_changes_order :
  (forall config, _build_commit_changes (Some config) = Ok (directives_of config))
  /\ (forall entrypoint cmd user,
        list_truthy (get entrypoint) = false ->
        list_truthy (get cmd) = false ->
        str_truthy (get user) = false ->
        _build_commit_changes (Some (mkConfig entrypoint cmd (Val "/app") user))
        = Ok ["ENTRYPOINT []"; "CMD []"; "WORKDIR /app"]).
Proof.
  split.
  - intros [ep cmd wd us]. unfold _build_commit_changes, directives_of. simpl.
    destruct ep as [| |[|e ep]], cmd as [| |[|c cmd]],
      wd as [| |[|w wd]], us as [| |[|u us]]; reflexivity.
  - intros ep cmd us Hep Hcmd Hus. unfold _build_commit_changes. simpl.
    rewrite Hep, Hcmd.
    destruct us as [| |u]; simpl in *; [reflexivity..|].
    now rewrite Hus.
Qed.

Lemma commit_changes_order_witness :
  _build_commit_changes (Some (mkConfig Absent Null (Val "/app") (Val "")))
  = Ok ["ENTRYPOINT []"; "CMD []"; "WORKDIR /app"].
Proof.
  apply (proj2 commit_changes_order); reflexivity.
Defined.

(** ** Mount extraction *)

Lemma extract_loop_binds (mounts : list MountDesc) :
  Forall paths_not_null mounts ->
  forall acc,
    extract_loop mounts acc = Ok (acc ++ map bind_mount_of (filter is_bind mounts)).
Proof.
  induction 1 as [|mount rest Hm _ IH]; intros acc; simpl.
  - now rewrite app_nil_r.
  - unfold is_bind at 1. unfold paths_not_null, is_bind in Hm.
    destruct (type_is_not_bind mount); simpl.
    + apply IH.
    + destruct (Hm eq_refl) as [Hs Hd].
      unfold bind_mount_of at 1.
      destruct (Source mount) as [| |s]; [|congruence|];
        destruct (Destination mount) as [| |d]; try congruence;
        simpl; rewrite IH, <- app_assoc; reflexivity.
Qed.

(** The loop keeps every entry whose type is bind, whatever its source. *)
Lemma extract_keeps_every_bind (mounts : list MountDesc) :
  Forall paths_not_null mounts ->
  _extract_bind_mounts mounts = Ok (map bind_mount_of (filter is_bind mounts)).
Proof.
  intros H. unfold _extract_bind_mounts. now rewrite extract_loop_binds.
Qed.

(** C4. On a bind entry whose source is the empty string, and on one with
    no source at all, the extractor does not skip the entry: the test
    [not source] is made on a [Path], which is always true, so both come
    out as bind mounts with the empty path as source, where the design
    keeps neither. *)
Theorem extract_keeps_empty_source :
  let mounts :=
    [mkMountDesc (Val "bind") (Val "") (Val "/workspace");
     mkMountDesc (Val "bind") Absent (Val "/data")] in
  _extract_bind_mounts mounts
  = Ok [mkBindMount (mkPath "" []) (mkPath "/" ["workspace"]);
        mkBindMount (mkPath "" []) (mkPath "/" ["data"])]
  /\ binds_with_source mounts = [].
Proof.
  split; reflexivity.
Qed.

(** ** Derived names *)

(** Without a usable name the container name is the [container_id]
    argument. *)
Lemma container_name_falls_back (inspect_info : InspectInfo) (container_id : string) :
  Name inspect_info = Absent
  \/ (exists name, Name inspect_info = Val name /\ lstrip is_slash name = "") ->
  container_name_of inspect_info container_id = Ok container_id.
Proof.
  unfold container_name_of.
  intros [H | [name [H E]]]; rewrite H; simpl.
  - reflexivity.
  - now rewrite E.
Qed.

(** ** Running the monad *)

Lemma bind_ok {A B} (c : M A) (k : A -> M B) tr a tr' :
  c tr = (Ok a, tr') -> bind c k tr = k a tr'.
Proof. intros H. unfold bind. now rewrite H. Qed.

Lemma bind_err {A B} (c : M A) (k : A -> M B) tr e tr' :
  c tr = (Err e, tr') -> bind c k tr = (Err e, tr').
Proof. intros H. unfold bind. now rewrite H. Qed.

Lemma bind_assoc {A B C} (c : M A) (k1 : A -> M B) (k2 : B -> M C) tr :
  bind (bind c k1) k2 tr = bind c (fun a => bind (k1 a) k2) tr.
Proof.
  unfold bind. destruct (c tr) as [[a|e] tr1]; reflexivity.
Qed.

Lemma temp_dirs_app (W : World) (evs1 evs2 before : list event) :
  temp_dirs W before (evs1 ++ evs2)
  = temp_dirs W before evs1 ++ temp_dirs W (before ++ evs1) evs2.
Proof.
  revert before. induction evs1 as [|ev evs1 IH]; intros before; simpl.
  - now rewrite app_nil_r.
  - rewrite IH, <- !app_assoc. reflexivity.
Qed.

Section Stages.

Variable W : World.

(** An operation leaves one event, which tells whether it succeeded. *)
Lemma perform_cases (a : action) (tr : list event) :
  perform W a tr = (Ok tt, tr ++ [Did a true])
  \/ perform W a tr = (Err (exn_of a), tr ++ [Did a false]).
Proof.
  unfold perform. destruct (succeeds W tr a); [left | right]; reflexivity.
Qed.

(** A guarded [docker] command never raises. *)
Lemma best_effort_docker (argv : list string) (handler : list string -> M unit)
  (tr : list event) :
  try_except_CalledProcessError (_run_docker W argv) handler tr
  = if succeeds W tr (Docker argv)
    then (Ok tt, tr ++ [Did (Docker argv) true])
    else handler argv (tr ++ [Did (Docker argv) false]).
Proof.
  unfold try_except_CalledProcessError, _run_docker, perform.
  destruct (succeeds W tr (Docker argv)); reflexivity.
Qed.

(** The [finally] block never raises and leaves exactly its events. *)
Lemma teardown_run (temp_container_name : string) (temp_dir : Path)
  (keep_temp : bool) (tr : list event) :
  exists stopped removed cleaned,
    teardown W temp_container_name temp_dir keep_temp tr
    = (Ok tt, tr ++ teardown_events temp_container_name temp_dir keep_temp
                      stopped removed cleaned).
Proof.
  unfold teardown, teardown_events.
  exists (succeeds W tr (Docker ["stop"; temp_container_name])).
  set (stopped := succeeds W tr (Docker ["stop"; temp_container_name])).
  set (tr1 := tr ++ [Did (Docker ["stop"; temp_container_name]) stopped]).
  exists (succeeds W tr1 (Docker ["rm"; temp_container_name])).
  set (removed := succeeds W tr1 (Docker ["rm"; temp_container_name])).
  set (tr2 := tr1 ++ [Did (Docker ["rm"; temp_container_name]) removed]).
  exists (succeeds W tr2 (RmtreeIgnoreErrors temp_dir)).
  assert (H1 : try_except_CalledProcessError
                 (_run_docker W ["stop"; temp_container_name])
                 (fun _ => ret tt) tr = (Ok tt, tr1)).
  { rewrite best_effort_docker. fold stopped. unfold tr1.
    destruct stopped; reflexivity. }
  assert (H2 : try_except_CalledProcessError
                 (_run_docker W ["rm"; temp_container_name])
                 (fun _ => ret tt) tr1 = (Ok tt, tr2)).
  { rewrite best_effort_docker. fold removed. unfold tr2.
    destruct removed; reflexivity. }
  rewrite (bind_ok _ _ _ _ _ H1), (bind_ok _ _ _ _ _ H2).
  unfold tr2, tr1. rewrite <- !app_assoc. simpl.
  destruct keep_temp; simpl.
  - reflexivity.
  - unfold perform_ignore_errors. rewrite <- !app_assoc. reflexivity.
Qed.

End Stages.

(** ** Classes of events *)

Section Emits.

Context {A B : Type}.
Variable P : event -> Prop.

Lemma emits_silent (c : M A) :
  (forall tr, snd (c tr) = tr) -> emits P c.
Proof.
  intros H tr r tr' E. exists []. rewrite app_nil_r.
  specialize (H tr). rewrite E in H. simpl in H. now split.
Qed.

Lemma emits_ret (a : A) : emits P (ret a).
Proof. now apply emits_silent. Qed.

Lemma emits_raise (e : exn) : emits P (@raise A e).
Proof. now apply emits_silent. Qed.

Lemma emits_lift (r : result A) : emits P (lift r).
Proof. now apply emits_silent. Qed.

Lemma emits_bind (c : M A) (k : A -> M B) :
  emits P c -> (forall a, emits P (k a)) -> emits P (bind c k).
Proof.
  intros Hc Hk tr r tr' E. unfold bind in E.
  destruct (c tr) as [[a|e] tr1] eqn:C.
  - destruct (Hc _ _ _ C) as [evs1 [-> F1]].
    destruct (Hk a _ _ _ E) as [evs2 [-> F2]].
    exists (evs1 ++ evs2). rewrite app_assoc. split; [reflexivity|].
    now apply Forall_app.
  - inversion E; subst. exact (Hc _ _ _ C).
Qed.

Lemma emits_try_except (body : M A) (handler : list string -> M A) :
  emits P body -> (forall argv, emits P (handler argv)) ->
  emits P (try_except_CalledProcessError body handler).
Proof.
  intros Hb Hh tr r tr' E. unfold try_except_CalledProcessError in E.
  destruct (body tr) as [[a|e] tr1] eqn:C.
  - inversion E; subst. exact (Hb _ _ _ C).
  - destruct (Hb _ _ _ C) as [evs1 [-> F1]].
    destruct e; try (inversion E; subst; now exists evs1).
    destruct (Hh argv _ _ _ E) as [evs2 [-> F2]].
    exists (evs1 ++ evs2). rewrite app_assoc. split; [reflexivity|].
    now apply Forall_app.
Qed.

Lemma emits_weaken (Q : event -> Prop) (c : M A) :
  (forall ev, Q ev -> P ev) -> emits Q c -> emits P c.
Proof.
  intros H Hc tr r tr' E. destruct (Hc _ _ _ E) as [evs [-> F]].
  exists evs. split; [reflexivity|]. revert F. now apply Forall_impl.
Qed.

End Emits.

Section StageEvents.

Variable W : World.

Lemma emits_perform (P : event -> Prop) (a : action) :
  (forall ok, P (Did a ok)) -> emits P (perform W a).
Proof.
  intros H tr r tr' E.
  destruct (perform_cases W a tr) as [C | C]; rewrite C in E; inversion E; subst;
    eexists; (split; [reflexivity|]); repeat constructor; apply H.
Qed.

Lemma emits_emit (P : event -> Prop) (ev : event) : P ev -> emits P (emit ev).
Proof.
  intros H tr r tr' E. inversion E; subst. exists [ev]. now repeat constructor.
Qed.

Lemma emits_exists (P : event -> Prop) (p : Path) : emits P (exists_ W p).
Proof. now apply emits_silent. Qed.

Lemma emits_is_dir (P : event -> Prop) (p : Path) : emits P (is_dir W p).
Proof. now apply emits_silent. Qed.

Lemma emits_relative_of (P : event -> Prop) (d : Path) : emits P (relative_of d).
Proof.
  unfold relative_of. destruct (is_absolute d); [|apply emits_ret].
  destruct (skipn 1 (parts d)); [apply emits_raise | apply emits_ret].
Qed.

Lemma stage_one_events (mount : BindMount) (temp_dir : Path) :
  emits staging_event (stage_one W mount temp_dir).
Proof.
  unfold stage_one.
  apply emits_bind; [apply emits_exists | intros src_exists].
  apply emits_bind;
    [destruct (negb src_exists); [apply emits_raise | apply emits_ret] | intros _].
  apply emits_bind; [apply emits_relative_of | intros relative].
  apply emits_bind; [now apply emits_perform | intros _].
  apply emits_bind; [apply emits_exists | intros target_exists].
  apply emits_bind; [|intros _].
  { destruct target_exists; [|apply emits_ret].
    apply emits_bind; [apply emits_is_dir | intros []]; now apply emits_perform. }
  apply emits_bind; [apply emits_is_dir | intros source_is_dir].
  apply emits_bind; [|intros _; apply emits_ret].
  destruct source_is_dir; now apply emits_perform.
Qed.

(** Staging leaves staging events only. *)
Lemma copy_loop_events (bind_mounts : list BindMount) (temp_dir : Path) :
  forall copies, emits staging_event (copy_loop W bind_mounts temp_dir copies).
Proof.
  induction bind_mounts as [|mount rest IH]; intros copies; cbn [copy_loop].
  - apply emits_ret.
  - apply emits_bind; [apply stage_one_events | intros spec; apply IH].
Qed.

(** The temp directory is the one [mkdtemp] made. *)
Lemma resolve_temp_dir_events (temp_root : option string) (tr : list event) r tr' :
  _resolve_temp_dir W temp_root tr = (r, tr') ->
  exists evs,
    tr' = tr ++ evs
    /\ Forall staging_event evs
    /\ (forall temp_dir, r = Ok temp_dir -> In temp_dir (temp_dirs W tr evs))
    /\ removed_paths evs = [].
Proof.
  unfold _resolve_temp_dir.
  set (root := resolve W _). intros H. unfold bind in H.
  destruct (perform_cases W (Mkdir root) tr) as [E | E]; rewrite E in H.
  - destruct (succeeds W (tr ++ [Did (Mkdir root) true])
                (Mkdtemp "devc_to_docker_" (to_string root))) eqn:S;
      inversion H; subst; clear H; rewrite <- app_assoc; eexists; split;
        try reflexivity; split.
    + repeat constructor.
    + split; [|reflexivity].
      intros temp_dir T. inversion T; subst. simpl. left. reflexivity.
    + repeat constructor.
    + split; [|reflexivity]. intros temp_dir T. discriminate T.
  - inversion H; subst. eexists; split; [reflexivity|]. split.
    + repeat constructor.
    + split; [|reflexivity]. intros temp_dir T. discriminate T.
Qed.

Lemma restore_one_events (temp_container : string) (spec : CopySpec) :
  emits guarded_event (restore_one W temp_container spec).
Proof.
  unfold restore_one, _run_docker.
  apply emits_bind; [|intros _].
  { apply emits_try_except; [now apply emits_perform|].
    intros _. now apply emits_emit. }
  apply emits_bind; [|intros _; now apply emits_perform].
  apply emits_try_except; [now apply emits_perform|].
  intros _. apply emits_raise.
Qed.

Lemma restore_events (temp_container : string) (copies : list CopySpec) :
  emits guarded_event (_restore_bind_mounts W temp_container copies).
Proof.
  induction copies as [|spec rest IH]; cbn [_restore_bind_mounts].
  - apply emits_ret.
  - apply emits_bind; [apply restore_one_events | intros _; exact IH].
Qed.

(** The guarded steps are followed by the events of the [finally] block,
    whatever their outcome, and the outcome is theirs. *)
Lemma restore_and_commit_run (inspect_info : InspectInfo)
  (temp_container_name output_image : string) (temp_dir : Path)
  (copies : list CopySpec) (keep_temp : bool) (tr : list event) :
  exists r mid stopped removed cleaned,
    restore_and_commit W inspect_info temp_container_name output_image
      temp_dir copies keep_temp tr
    = (r, tr ++ mid ++ teardown_events temp_container_name temp_dir keep_temp
                         stopped removed cleaned)
    /\ Forall guarded_event mid.
Proof.
  unfold restore_and_commit, try_finally.
  match goal with |- context [let (_, _) := ?body tr in _] =>
    assert (E : emits guarded_event body); [|destruct (body tr) as [r tr1] eqn:R]
  end.
  { apply emits_bind; [apply restore_events | intros _].
    apply emits_bind; [apply emits_lift | intros changes].
    unfold _run_docker. now apply emits_perform. }
  destruct (E _ _ _ R) as [mid [-> F]].
  destruct (teardown_run W temp_container_name temp_dir keep_temp (tr ++ mid))
    as [stopped [removed [cleaned T]]].
  rewrite T. exists r, mid, stopped, removed, cleaned.
  rewrite <- app_assoc. now split.
Qed.

End StageEvents.

(** ** The shape of a run *)

Section Shape.

Variable W : World.

Lemma staging_before_start (evs : list event) :
  Forall staging_event evs -> Forall before_start_event evs.
Proof.
  apply Forall_impl. unfold staging_event, before_start_event.
  intros [[] ok|w]; simpl; intros H; try discriminate H; reflexivity.
Qed.

Lemma rmi_run (intermediate_image : string) (keep_intermediate : bool)
  (tr : list event) :
  exists untagged,
    (if negb keep_intermediate then
       try_except_CalledProcessError
         (_run_docker W ["rmi"; intermediate_image])
         (fun _ => emit (Warned (CouldNotRemoveIntermediate intermediate_image)))
     else ret tt) tr
    = (Ok tt, tr ++ (if keep_intermediate then []
                     else rmi_events intermediate_image untagged)).
Proof.
  exists (succeeds W tr (Docker ["rmi"; intermediate_image])).
  destruct keep_intermediate; simpl.
  - unfold ret. now rewrite app_nil_r.
  - rewrite best_effort_docker. unfold rmi_events.
    destruct (succeeds W tr (Docker ["rmi"; intermediate_image])).
    + reflexivity.
    + unfold emit. now rewrite <- app_assoc.
Qed.

Lemma capture_and_fold_shape (cid : string) (inspect_info : InspectInfo)
  (sanitized_name timestamp final_tag stage_tag : string)
  (temp_root : option string) (keep_temp keep_intermediate : bool)
  (tr : list event) r tr' :
  capture_and_fold W cid inspect_info sanitized_name timestamp
    final_tag stage_tag temp_root keep_temp keep_intermediate tr
  = (r, tr') ->
  exists evs,
    tr' = tr ++ evs
    /\ run_shape W keep_temp keep_intermediate stage_tag
         (temp_container_name_of sanitized_name timestamp) tr r evs
    /\ (forall res, r = Ok res ->
          container_id res = cid /\ final_image res = final_tag).
Proof.
  unfold capture_and_fold, _copy_bind_mounts_to_tmp,
    _start_keepalive_container, _run_docker.
  set (name := temp_container_name_of sanitized_name timestamp).
  intros H.
  assert (early : forall e, (Err e, tr) = (r, tr') ->
            exists evs,
              tr' = tr ++ evs
              /\ run_shape W keep_temp keep_intermediate stage_tag
                   name tr r evs
              /\ (forall res, r = Ok res ->
                    container_id res = cid
                    /\ final_image res = final_tag)).
  { intros e E. inversion E; subst. exists []. rewrite app_nil_r.
    split; [reflexivity|]. split; [now constructor | discriminate]. }
  destruct (get_default (Mounts inspect_info) []) as [mounts|];
    [|exact (early _ H)].
  rewrite (bind_ok (ret mounts) _ tr mounts tr eq_refl) in H.
  destruct (_extract_bind_mounts mounts) as [[|m bind_mounts]|e];
    [exact (early _ H) | | exact (early _ H)].
  rewrite (bind_ok (lift (Ok (m :: bind_mounts))) _ tr _ tr eq_refl) in H.
  clear early.
  set (commit := Docker ["commit"; cid; stage_tag]) in *.
  destruct (perform_cases W commit tr) as [C | C];
    [rewrite (bind_ok _ _ _ _ _ C) in H | rewrite (bind_err _ _ _ _ _ C) in H].
  2:{ inversion H; subst. eexists; split; [reflexivity|].
      split; [|discriminate]. constructor. now repeat constructor. }
  set (tr1 := tr ++ [Did commit true]) in *.
  destruct (_resolve_temp_dir W temp_root tr1) as [[dir|e] tr2] eqn:R;
    destruct (resolve_temp_dir_events _ _ _ _ _ R) as [evs2 [-> [F2 [T2 _]]]];
    [rewrite (bind_ok _ _ _ _ _ R) in H | rewrite (bind_err _ _ _ _ _ R) in H].
  2:{ inversion H; subst. unfold tr1. rewrite <- app_assoc.
      eexists; split; [reflexivity|]. split; [|discriminate]. constructor.
      constructor; [reflexivity | now apply staging_before_start]. }
  specialize (T2 dir eq_refl).
  destruct (copy_loop W (m :: bind_mounts) dir [] (tr1 ++ evs2))
    as [[copies|e] tr3] eqn:S;
    destruct (copy_loop_events _ _ _ _ _ _ _ S) as [evs3 [-> F3]];
    [rewrite (bind_ok _ _ _ _ _ S) in H | rewrite (bind_err _ _ _ _ _ S) in H].
  2:{ inversion H; subst. unfold tr1. rewrite <- !app_assoc.
      eexists; split; [reflexivity|]. split; [|discriminate]. constructor.
      constructor; [reflexivity|].
      apply Forall_app; split; now apply staging_before_start. }
  set (pre := [Did commit true] ++ evs2 ++ evs3).
  assert (Fpre : Forall before_start_event pre).
  { constructor; [reflexivity|].
    apply Forall_app; split; now apply staging_before_start. }
  assert (Tpre : In dir (temp_dirs W tr pre)).
  { unfold pre. simpl. rewrite temp_dirs_app. apply in_or_app. now left. }
  replace ((tr1 ++ evs2) ++ evs3) with (tr ++ pre) in H
    by (unfold pre, tr1; now rewrite <- !app_assoc).
  destruct (perform_cases W (Docker (run_argv stage_tag name)) (tr ++ pre))
    as [C' | C'];
    [rewrite (bind_ok _ _ _ _ _ C') in H | rewrite (bind_err _ _ _ _ _ C') in H].
  2:{ inversion H; subst. rewrite <- app_assoc.
      eexists; split; [reflexivity|]. split; [|discriminate]. constructor.
      apply Forall_app; split; [exact Fpre | now repeat constructor]. }
  set (tr4 := (tr ++ pre) ++ [Did (Docker (run_argv stage_tag name)) true]) in *.
  destruct (restore_and_commit_run W inspect_info name final_tag dir
              copies keep_temp tr4)
    as [r5 [mid [stopped [removed [cleaned [G Fmid]]]]]].
  destruct r5 as [u|e];
    [rewrite (bind_ok _ _ _ _ _ G) in H | rewrite (bind_err _ _ _ _ _ G) in H].
  - destruct (rmi_run stage_tag keep_intermediate
                (tr4 ++ mid ++ teardown_events name dir keep_temp
                                 stopped removed cleaned))
      as [untagged U].
    rewrite (bind_ok _ _ _ _ _ U) in H.
    inversion H; subst. unfold tr4.
    rewrite <- !app_assoc. eexists; split; [reflexivity|]. split.
    + exact (completed W keep_temp keep_intermediate stage_tag name tr
               (mkResult cid final_tag stage_tag dir copies)
               pre mid stopped removed cleaned untagged eq_refl Fpre Tpre Fmid).
    + intros res E. inversion E; subst. now split.
  - inversion H; subst. unfold tr4.
    rewrite <- !app_assoc. eexists; split; [reflexivity|]. split; [|discriminate].
    now apply failed_guarded.
Qed.

Lemma run_shape_cons (keep_temp keep_intermediate : bool) (image name : string)
  (tr : list event) (ev : event) r evs :
  before_start_event ev ->
  run_shape W keep_temp keep_intermediate image name (tr ++ [ev]) r evs ->
  run_shape W keep_temp keep_intermediate image name tr r (ev :: evs).
Proof.
  intros Hev H. destruct H.
  - constructor. now constructor.
  - change (ev :: pre ++ ?l) with ((ev :: pre) ++ l).
    apply failed_guarded; [now constructor | | assumption].
    cbn [temp_dirs]. apply in_or_app. now right.
  - change (ev :: pre ++ ?l) with ((ev :: pre) ++ l).
    apply completed; [assumption | now constructor | | assumption].
    cbn [temp_dirs]. apply in_or_app. now right.
Qed.

(** Once the container is inspected and named, the run is the rest of
    the pipeline with the names derived from that name. *)
Lemma devc_to_docker_after_inspect (container_id : string)
  (output_image intermediate_image temp_root : option string)
  (keep_temp keep_intermediate : bool) (tr : list event)
  (inspect_info : InspectInfo) (others : list InspectInfo) (container_name : string) :
  which_docker W = true ->
  succeeds W tr (Docker ["inspect"; container_id]) = true ->
  inspect_json W (tr ++ [Did (Docker ["inspect"; container_id]) true]) container_id
  = inspect_info :: others ->
  container_name_of inspect_info container_id = Ok container_name ->
  devc_to_docker W container_id output_image intermediate_image temp_root
    keep_temp keep_intermediate tr
  = let slug := _sanitize_name container_name in
    let final_tag := default_output_image output_image slug (utcnow W) in
    capture_and_fold W container_id inspect_info slug (utcnow W) final_tag
      (default_intermediate_image intermediate_image final_tag)
      temp_root keep_temp keep_intermediate
      (tr ++ [Did (Docker ["inspect"; container_id]) true]).
Proof.
  intros Hw Hs Hj Hn. unfold devc_to_docker, _ensure_docker_available.
  rewrite Hw. cbn [negb].
  rewrite (bind_ok (ret tt) _ tr tt tr eq_refl).
  assert (I : _inspect_container W container_id tr
              = (Ok inspect_info, tr ++ [Did (Docker ["inspect"; container_id]) true])).
  { unfold _inspect_container, _run_docker.
    assert (P : perform W (Docker ["inspect"; container_id]) tr
                = (Ok tt, tr ++ [Did (Docker ["inspect"; container_id]) true]))
      by (unfold perform; now rewrite Hs).
    rewrite (bind_ok _ _ _ _ _ P). now rewrite Hj. }
  rewrite (bind_ok _ _ _ _ _ I).
  assert (L : lift (container_name_of inspect_info container_id)
                (tr ++ [Did (Docker ["inspect"; container_id]) true])
              = (Ok container_name, tr ++ [Did (Docker ["inspect"; container_id]) true]))
    by (unfold lift; now rewrite Hn).
  rewrite (bind_ok _ _ _ _ _ L). reflexivity.
Qed.

(** A run either stops at the inspection or goes on with the names
    derived from the container's name. *)
Lemma devc_to_docker_cases (cid : string)
  (output_tag stage_tag temp_root : option string)
  (keep_temp keep_intermediate : bool) (tr : list event) :
  (exists e evs,
      devc_to_docker W cid output_tag stage_tag temp_root
        keep_temp keep_intermediate tr = (Err e, tr ++ evs)
      /\ Forall before_start_event evs)
  \/ (exists inspect_info container_name,
        hd_error (inspect_json W (tr ++ [Did (Docker ["inspect"; cid]) true]) cid)
        = Some inspect_info
        /\ container_name_of inspect_info cid = Ok container_name
        /\ devc_to_docker W cid output_tag stage_tag temp_root
             keep_temp keep_intermediate tr
           = let slug := _sanitize_name container_name in
             let final_tag := default_output_image output_tag slug (utcnow W) in
             capture_and_fold W cid inspect_info slug (utcnow W) final_tag
               (default_intermediate_image stage_tag final_tag)
               temp_root keep_temp keep_intermediate
               (tr ++ [Did (Docker ["inspect"; cid]) true])).
Proof.
  set (inspect := Docker ["inspect"; cid]).
  destruct (which_docker W) eqn:Hw.
  2:{ left. exists (DevcToDockerError EngineUnavailable), [].
      split; [|constructor].
      unfold devc_to_docker, _ensure_docker_available. rewrite Hw. cbn [negb].
      rewrite app_nil_r.
      exact (bind_err (raise (DevcToDockerError EngineUnavailable)) _ tr _ tr eq_refl). }
  assert (start :
             devc_to_docker W cid output_tag stage_tag temp_root
               keep_temp keep_intermediate tr
             = bind (_inspect_container W cid)
                 (fun inspect_info =>
                    bind (lift (container_name_of inspect_info cid))
                      (fun container_name =>
                         capture_and_fold W cid inspect_info
                           (_sanitize_name container_name) (utcnow W)
                           (default_output_image output_tag
                              (_sanitize_name container_name) (utcnow W))
                           (default_intermediate_image stage_tag
                              (default_output_image output_tag
                                 (_sanitize_name container_name) (utcnow W)))
                           temp_root keep_temp keep_intermediate)) tr).
  { unfold devc_to_docker, _ensure_docker_available. rewrite Hw.
    cbn [negb]. exact (bind_ok (ret tt) _ tr tt tr eq_refl). }
  destruct (succeeds W tr inspect) eqn:Hs.
  2:{ left. exists (exn_of inspect), [Did inspect false].
      split; [|now repeat constructor]. rewrite start.
      apply bind_err. unfold _inspect_container, _run_docker.
      apply bind_err. unfold perform. fold inspect. now rewrite Hs. }
  assert (P : perform W inspect tr = (Ok tt, tr ++ [Did inspect true]))
    by (unfold perform; now rewrite Hs).
  destruct (inspect_json W (tr ++ [Did inspect true]) cid)
    as [|inspect_info others] eqn:Hj.
  { left. exists (DevcToDockerError (NotFound cid)), [Did inspect true].
    split; [|now repeat constructor]. rewrite start.
    apply bind_err. unfold _inspect_container, _run_docker. fold inspect.
    rewrite (bind_ok _ _ _ _ _ P). now rewrite Hj. }
  destruct (container_name_of inspect_info cid) as [container_name|e] eqn:Hn.
  - right. exists inspect_info, container_name.
    split; [reflexivity|]. split; [exact Hn|].
    exact (devc_to_docker_after_inspect _ _ _ _ _ _ _ _ _ _ Hw Hs Hj Hn).
  - left. exists e, [Did inspect true].
    split; [|now repeat constructor]. rewrite start.
    assert (I : _inspect_container W cid tr
                = (Ok inspect_info, tr ++ [Did inspect true])).
    { unfold _inspect_container, _run_docker. fold inspect.
      rewrite (bind_ok _ _ _ _ _ P). now rewrite Hj. }
    rewrite (bind_ok _ _ _ _ _ I). apply bind_err. unfold lift. now rewrite Hn.
Qed.

Lemma devc_to_docker_shape (cid : string)
  (output_tag stage_tag temp_root : option string)
  (keep_temp keep_intermediate : bool) (tr : list event) r tr' :
  devc_to_docker W cid output_tag stage_tag temp_root
    keep_temp keep_intermediate tr = (r, tr') ->
  exists image name evs,
    tr' = tr ++ evs
    /\ run_shape W keep_temp keep_intermediate image name tr r evs.
Proof.
  intros H.
  destruct (devc_to_docker_cases cid output_tag stage_tag temp_root
              keep_temp keep_intermediate tr)
    as [[e [evs [E F]]] | [inspect_info [container_name [_ [_ E]]]]];
    rewrite E in H.
  - inversion H; subst. exists "", "", evs. split; [reflexivity | now constructor].
  - cbv zeta in H. apply capture_and_fold_shape in H.
    destruct H as [evs [-> [Sh _]]].
    do 2 eexists. exists (Did (Docker ["inspect"; cid]) true :: evs).
    rewrite <- app_assoc. split; [reflexivity|].
    apply run_shape_cons; [reflexivity | exact Sh].
Qed.

(** The tags of a run that succeeds are those derived from the
    container's name. *)
Lemma devc_to_docker_tags (cid : string)
  (output_tag stage_tag temp_root : option string)
  (keep_temp keep_intermediate : bool) (tr : list event) res tr' :
  devc_to_docker W cid output_tag stage_tag temp_root
    keep_temp keep_intermediate tr = (Ok res, tr') ->
  exists inspect_info container_name,
    hd_error (inspect_json W (tr ++ [Did (Docker ["inspect"; cid]) true]) cid)
    = Some inspect_info
    /\ container_name_of inspect_info cid = Ok container_name
    /\ final_image res
       = default_output_image output_tag (_sanitize_name container_name) (utcnow W)
    /\ intermediate_image res
       = default_intermediate_image stage_tag (final_image res).
Proof.
  intros H.
  destruct (devc_to_docker_cases cid output_tag stage_tag temp_root
              keep_temp keep_intermediate tr)
    as [[e [evs [E F]]] | [inspect_info [container_name [Hj [Hn E]]]]];
    rewrite E in H; [discriminate H|].
  cbv zeta in H. apply capture_and_fold_shape in H.
  destruct H as [evs [-> [Sh R]]].
  exists inspect_info, container_name. split; [exact Hj|]. split; [exact Hn|].
  destruct (R res eq_refl) as [_ Rf]. split; [exact Rf|].
  rewrite Rf. inversion Sh; subst. assumption.
Qed.

End Shape.

(** ** Teardown *)

Section Teardown.

Lemma before_start_not_started (evs : list event) (args : list string) :
  Forall before_start_event evs -> ~ In (Did (Docker ("run" :: args)) true) evs.
Proof.
  intros F I. rewrite Forall_forall in F. specialize (F _ I). discriminate F.
Qed.

Lemma before_start_not_rmi (evs : list event) (args : list string) (ok : bool) :
  Forall before_start_event evs -> ~ In (Did (Docker ("rmi" :: args)) ok) evs.
Proof.
  intros F I. rewrite Forall_forall in F. specialize (F _ I). discriminate F.
Qed.

Lemma guarded_not_rmi (evs : list event) (args : list string) (ok : bool) :
  Forall guarded_event evs -> ~ In (Did (Docker ("rmi" :: args)) ok) evs.
Proof.
  intros F I. rewrite Forall_forall in F. specialize (F _ I). discriminate F.
Qed.

Lemma teardown_not_rmi (name : string) (dir : Path)
  (keep_temp stopped removed cleaned : bool) (args : list string) (ok : bool) :
  ~ In (Did (Docker ("rmi" :: args)) ok)
      (teardown_events name dir keep_temp stopped removed cleaned).
Proof.
  unfold teardown_events. destruct keep_temp; simpl; intros H;
    repeat (destruct H as [H | H]; [discriminate H|]); exact H.
Qed.

Lemma before_start_not_cleanup (evs : list event) (p : Path) (ok : bool) :
  Forall before_start_event evs -> ~ In (Did (RmtreeIgnoreErrors p) ok) evs.
Proof.
  intros F I. rewrite Forall_forall in F. specialize (F _ I). discriminate F.
Qed.

(** Up to the start of the disposable container, no image is removed. *)
Lemma no_rmi_up_to_teardown (pre mid : list event) (image name : string)
  (dir : Path) (keep_temp stopped removed cleaned : bool) :
  Forall before_start_event pre -> Forall guarded_event mid ->
  ~ issues_rmi (pre ++ [Did (Docker (run_argv image name)) true] ++ mid
                ++ teardown_events name dir keep_temp stopped removed cleaned).
Proof.
  intros Fp Fm [args [ok I]].
  apply in_app_or in I. destruct I as [I | I];
    [exact (before_start_not_rmi _ _ _ Fp I)|].
  apply in_app_or in I. destruct I as [[I | []] | I]; [discriminate I|].
  apply in_app_or in I. destruct I as [I | I];
    [exact (guarded_not_rmi _ _ _ Fm I) | exact (teardown_not_rmi _ _ _ _ _ _ _ _ I)].
Qed.

(** C1. When a run fails after the disposable container was started, its
    last events are those of the teardown: the container it started is
    stopped and removed, each on a best-effort basis, and the temp
    directory it made is removed unless [keep_temp] was asked; no image is
    removed, whatever [keep_intermediate] says.  On any run, the removal
    of the intermediate image is asked for exactly when the run succeeds
    and [keep_intermediate] is false. *)
Theorem teardown_after_container_created :
  (forall W cid output_tag stage_tag temp_root keep_temp keep_intermediate e tr,
      devc_to_docker W cid output_tag stage_tag temp_root
        keep_temp keep_intermediate [] = (Err e, tr) ->
      container_started tr ->
      ends_with_teardown W keep_temp tr /\ ~ issues_rmi tr)
  /\ (forall W cid output_tag stage_tag temp_root keep_temp keep_intermediate r tr,
        devc_to_docker W cid output_tag stage_tag temp_root
          keep_temp keep_intermediate [] = (r, tr) ->
        issues_rmi tr <-> (exists res, r = Ok res) /\ keep_intermediate = false).
Proof.
  split.
  - intros W cid o i t kt ki e tr H [args St].
    apply devc_to_docker_shape in H. destruct H as [image [name [evs [-> Sh]]]].
    simpl in St |- *. inversion Sh; subst.
    + exfalso. exact (before_start_not_started _ _ H0 St).
    + split; [|now apply no_rmi_up_to_teardown].
      exists pre, image, name, dir, mid, stopped, removed, cleaned. now repeat split.
  - intros W cid o i t kt ki r tr H.
    apply devc_to_docker_shape in H. destruct H as [image [name [evs [-> Sh]]]].
    simpl. inversion Sh; subst.
    + split.
      * intros [args [ok I]]. exfalso. exact (before_start_not_rmi _ _ _ H I).
      * intros [[res R] _]. discriminate R.
    + split.
      * intros I. exfalso. revert I. now apply no_rmi_up_to_teardown.
      * intros [[res R] _]. discriminate R.
    + destruct ki.
      * rewrite app_nil_r. split.
        -- intros I. exfalso. revert I. now apply no_rmi_up_to_teardown.
        -- intros [_ K]. discriminate K.
      * split; [intros _; split; [now exists res | reflexivity]|].
        intros _. exists [intermediate_image res], untagged.
        apply in_or_app. right. apply in_or_app. right.
        apply in_or_app. right. apply in_or_app. right. now left.
Qed.

(** A run that fails before the disposable container runs never asks for
    the removal of the temp directory. *)
Lemma early_failure_skips_cleanup W cid output_tag stage_tag temp_root
  keep_temp keep_intermediate e tr :
  devc_to_docker W cid output_tag stage_tag temp_root
    keep_temp keep_intermediate [] = (Err e, tr) ->
  ~ container_started tr -> ~ issues_cleanup tr.
Proof.
  intros H N [p [ok I]].
  apply devc_to_docker_shape in H. destruct H as [image [name [evs [-> Sh]]]].
  simpl in *. inversion Sh; subst.
  - exact (before_start_not_cleanup _ _ _ H0 I).
  - apply N. eexists. apply in_or_app. right. left. reflexivity.
Qed.

End Teardown.

Lemma teardown_after_container_created_witness :
  let W := world_of [abc123_info] [host_proj] (is_verb "cp") in
  let tr := snd (devc_to_docker W "abc123" None None None false false []) in
  (ends_with_teardown W false tr /\ ~ issues_rmi tr)
  /\ (issues_rmi tr <-> (exists res, @Err DevcToDockerResult
                            (CalledProcessError
                               ["cp"; "/tmp/devc_to_docker_k3v9x2ab/workspace";
                                "devc-to-docker-My-App-20240101120000:/"]) = Ok res)
                        /\ false = false).
Proof.
  intros W tr. split.
  - apply (proj1 teardown_after_container_created W "abc123" None None None
             false false
             (CalledProcessError
                ["cp"; "/tmp/devc_to_docker_k3v9x2ab/workspace";
                 "devc-to-docker-My-App-20240101120000:/"])).
    + vm_compute. reflexivity.
    + eexists. vm_compute. do 6 right. left. reflexivity.
  - apply (proj2 teardown_after_container_created W "abc123" None None None
             false false).
    vm_compute. reflexivity.
Defined.

(** ** Failures before the disposable container runs *)

(** C2. With the bind mount's source gone from the host, and likewise
    when [docker run] fails, the run stops after [mkdtemp] made the temp
    directory and nothing removes it, although [keep_temp] is false: the
    steps between [mkdtemp] and the [try] block are outside the block
    whose [finally] does the teardown. *)
Theorem temp_dir_left_behind :
  devc_to_docker (world_of [abc123_info] [] never)
    "abc123" None None None false false []
  = (Err (DevcToDockerError (SourceMissing host_proj)),
     [Did (Docker ["inspect"; "abc123"]) true;
      Did (Docker ["commit"; "abc123";
                   "devc_to_docker/My-App:20240101120000-stage"]) true;
      Did (Mkdir (of_string "/tmp")) true;
      Did (Mkdtemp "devc_to_docker_" "/tmp") true])
  /\ devc_to_docker (world_of [abc123_info] [host_proj] (is_verb "run"))
       "abc123" None None None false false []
     = (Err (CalledProcessError
               (run_argv "devc_to_docker/My-App:20240101120000-stage"
                  "devc-to-docker-My-App-20240101120000")),
        [Did (Docker ["inspect"; "abc123"]) true;
         Did (Docker ["commit"; "abc123";
                      "devc_to_docker/My-App:20240101120000-stage"]) true;
         Did (Mkdir (of_string "/tmp")) true;
         Did (Mkdtemp "devc_to_docker_" "/tmp") true;
         Did (Mkdir scenario_temp_dir) true;
         Did (Copytree host_proj (joinpath scenario_temp_dir (of_string "workspace")))
           true;
         Did (Docker (run_argv "devc_to_docker/My-App:20240101120000-stage"
                        "devc-to-docker-My-App-20240101120000")) false]).
Proof.
  split; vm_compute; reflexivity.
Qed.

(** ** A container with nothing to fold *)

(** C5. When the extracted sequence of bind mounts is empty the run
    fails with [NoBindMounts] and its only event is the inspection: no
    commit, no temp directory, no copy, no disposable container. *)
Theorem no_bind_mounts_no_side_effect (W : World) (cid : string)
  (output_tag stage_tag temp_root : option string)
  (keep_temp keep_intermediate : bool)
  (inspect_info : InspectInfo) (others : list InspectInfo)
  (container_name : string) (mounts : list MountDesc) :
  which_docker W = true ->
  succeeds W [] (Docker ["inspect"; cid]) = true ->
  inspect_json W [Did (Docker ["inspect"; cid]) true] cid = inspect_info :: others ->
  container_name_of inspect_info cid = Ok container_name ->
  get_default (Mounts inspect_info) [] = Some mounts ->
  _extract_bind_mounts mounts = Ok [] ->
  devc_to_docker W cid output_tag stage_tag temp_root keep_temp keep_intermediate []
  = (Err (DevcToDockerError (NoBindMounts cid)),
     [Did (Docker ["inspect"; cid]) true]).
Proof.
  intros Hw Hs Hj Hn Hm Hx.
  rewrite (devc_to_docker_after_inspect W cid _ _ _ _ _ [] _ _ _ Hw Hs Hj Hn).
  cbv zeta. unfold capture_and_fold. rewrite Hm.
  rewrite (bind_ok (ret mounts) _ _ mounts _ eq_refl).
  unfold lift at 1. rewrite Hx.
  reflexivity.
Qed.

Lemma no_bind_mounts_no_side_effect_witness :
  devc_to_docker (world_of [volume_only_info] [] never)
    "db" None None None false false []
  = (Err (DevcToDockerError (NoBindMounts "db")),
     [Did (Docker ["inspect"; "db"]) true]).
Proof.
  apply (no_bind_mounts_no_side_effect (world_of [volume_only_info] [] never)
           "db" None None None false false volume_only_info [] "db"
           [mkMountDesc (Val "volume") (Val "/var/lib/docker/volumes/v/_data")
              (Val "/data")]);
    reflexivity.
Defined.

(** ** Default names *)

(** C8. Sanitizing a name replaces every character outside
    [A-Za-z0-9_.-] by a dash, trims dashes and dots at both ends and falls
    back to the slug container when nothing is left.  Without explicit
    tags the final tag is devc_to_docker/<slug>:<timestamp> and the
    intermediate tag is the final tag followed by -stage, and these are
    the tags of a run that succeeds, with the slug of the container's
    name.  The name My App! at 20240101120000 gives the slug My-App and
    the two tags built from it. *)
Theorem default_naming :
  (forall name, _sanitize_name name = slug_of name)
  /\ (forall slug timestamp,
        default_output_image None slug timestamp
        = ("devc_to_docker/" ++ slug ++ ":" ++ timestamp)%string)
  /\ (forall final_tag,
        default_intermediate_image None final_tag = (final_tag ++ "-stage")%string)
  /\ (forall W cid temp_root keep_temp keep_intermediate res tr,
        devc_to_docker W cid None None temp_root keep_temp keep_intermediate []
        = (Ok res, tr) ->
        exists inspect_info container_name,
          hd_error (inspect_json W [Did (Docker ["inspect"; cid]) true] cid)
          = Some inspect_info
          /\ container_name_of inspect_info cid = Ok container_name
          /\ final_image res
             = ("devc_to_docker/" ++ slug_of container_name ++ ":" ++ utcnow W)%string
          /\ intermediate_image res = (final_image res ++ "-stage")%string)
  /\ _sanitize_name "My App!" = "My-App"
  /\ default_output_image None (_sanitize_name "My App!") "20240101120000"
     = "devc_to_docker/My-App:20240101120000"
  /\ default_intermediate_image None
       (default_output_image None (_sanitize_name "My App!") "20240101120000")
     = "devc_to_docker/My-App:20240101120000-stage".
Proof.
  split; [exact sanitize_is_slug|].
  split; [reflexivity|]. split; [reflexivity|].
  split; [|repeat split; reflexivity].
  intros W cid temp_root keep_temp keep_intermediate res tr H.
  destruct (devc_to_docker_tags W _ _ _ _ _ _ _ _ _ H)
    as [inspect_info [container_name [Hj [Hn [F I]]]]].
  exists inspect_info, container_name.
  split; [exact Hj|]. split; [exact Hn|].
  rewrite <- sanitize_is_slug. split; [exact F | exact I].
Qed.

Lemma default_naming_witness :
  exists inspect_info container_name,
    hd_error [abc123_info] = Some inspect_info
    /\ container_name_of inspect_info "abc123" = Ok container_name
    /\ "devc_to_docker/My-App:20240101120000"
       = ("devc_to_docker/" ++ slug_of container_name ++ ":" ++ "20240101120000")%string
    /\ "devc_to_docker/My-App:20240101120000-stage"
       = ("devc_to_docker/My-App:20240101120000" ++ "-stage")%string.
Proof.
  apply (proj1 (proj2 (proj2 (proj2 default_naming)))
           (world_of [abc123_info] [host_proj] never) "abc123" None false false
           (mkResult "abc123" "devc_to_docker/My-App:20240101120000"
              "devc_to_docker/My-App:20240101120000-stage" scenario_temp_dir
              [mkCopySpec (of_string "/workspace")
                 (of_string "/tmp/devc_to_docker_k3v9x2ab/workspace")])
           (snd (devc_to_docker (world_of [abc123_info] [host_proj] never)
                   "abc123" None None None false false []))).
  vm_compute. reflexivity.
Defined.

(** ** The slug of a container without a name *)

(** C10. When the inspected metadata has no name, or a name that is empty
    once its leading slashes are stripped, the container name is the
    [container_id] argument: the run continues with the sanitized
    [container_id] as slug, so the default tags are built from it, the
    disposable container is named after it, and the final tag of a
    successful run is the default tag built from it. *)
Theorem name_falls_back_to_id (W : World) (cid : string)
  (output_tag stage_tag temp_root : option string)
  (keep_temp keep_intermediate : bool)
  (inspect_info : InspectInfo) (others : list InspectInfo) :
  which_docker W = true ->
  succeeds W [] (Docker ["inspect"; cid]) = true ->
  inspect_json W [Did (Docker ["inspect"; cid]) true] cid = inspect_info :: others ->
  Name inspect_info = Absent
  \/ (exists name, Name inspect_info = Val name /\ lstrip is_slash name = "") ->
  let slug := _sanitize_name cid in
  let final_tag := default_output_image output_tag slug (utcnow W) in
  let image := default_intermediate_image stage_tag final_tag in
  container_name_of inspect_info cid = Ok cid
  /\ devc_to_docker W cid output_tag stage_tag temp_root keep_temp keep_intermediate []
     = capture_and_fold W cid inspect_info slug (utcnow W) final_tag image
         temp_root keep_temp keep_intermediate [Did (Docker ["inspect"; cid]) true]
  /\ exists r evs,
       devc_to_docker W cid output_tag stage_tag temp_root
         keep_temp keep_intermediate []
       = (r, Did (Docker ["inspect"; cid]) true :: evs)
       /\ run_shape W keep_temp keep_intermediate image
            (temp_container_name_of slug (utcnow W))
            [Did (Docker ["inspect"; cid]) true] r evs
       /\ (forall res, r = Ok res -> final_image res = final_tag).
Proof.
  intros Hw Hs Hj Hname slug final_tag image.
  pose proof (container_name_falls_back inspect_info cid Hname) as Hn.
  pose proof (devc_to_docker_after_inspect W cid output_tag stage_tag temp_root
                keep_temp keep_intermediate [] _ _ _ Hw Hs Hj Hn) as E.
  cbv zeta in E. fold slug final_tag image in E. simpl app in E.
  split; [exact Hn|]. split; [exact E|].
  rewrite E.
  destruct (capture_and_fold W cid inspect_info slug (utcnow W) final_tag image
              temp_root keep_temp keep_intermediate
              [Did (Docker ["inspect"; cid]) true]) as [r tr] eqn:C.
  destruct (capture_and_fold_shape W _ _ _ _ _ _ _ _ _ _ _ _ C)
    as [evs [-> [Sh R]]].
  exists r, evs. split; [reflexivity|]. split; [exact Sh|].
  intros res K. exact (proj2 (R res K)).
Qed.

Lemma name_falls_back_to_id_witness :
  let W := world_of [nameless_info] [host_proj] never in
  container_name_of nameless_info "abc123" = Ok "abc123"
  /\ final_image_of (fst (devc_to_docker W "abc123" None None None false false []))
     = Some "devc_to_docker/abc123:20240101120000".
Proof.
  intros W.
  destruct (name_falls_back_to_id W "abc123" None None None false false
              nameless_info [] eq_refl eq_refl eq_refl
              (or_intror (ex_intro _ "/" (conj eq_refl eq_refl))))
    as [Hn _].
  split; [exact Hn | vm_compute; reflexivity].
Defined.

(** ** Restoring the mounts *)

Section RestoreWords.

Lemma removelast_shorter (l : list string) : l <> [] -> removelast l <> l.
Proof.
  intros H E. apply (f_equal (@List.length string)) in E.
  rewrite (app_removelast_last "" H) in E at 2.
  rewrite length_app in E. simpl in E. lia.
Qed.

Lemma parent_differs (d : Path) :
  tail d <> [] -> PosixPath.eqb (parent d) d = false.
Proof.
  intros H. unfold PosixPath.eqb, parent. cbn [root tail].
  destruct (list_eq_dec string_dec (removelast (tail d)) (tail d)) as [E | _].
  - exfalso. exact (removelast_shorter _ H E).
  - apply andb_false_r.
Qed.

(** A printed path is never the empty string. *)
Lemma to_string_truthy (p : Path) : truthy (to_string p) = true.
Proof.
  unfold to_string.
  destruct (truthy (root p ++ join "/" (tail p))) eqn:E; [exact E | reflexivity].
Qed.

(** So the fallback of [as_posix() or "."] is never taken. *)
Lemma posix_or_dot_to_string (p : Path) : posix_or_dot p = to_string p.
Proof. unfold posix_or_dot. cbv zeta. now rewrite to_string_truthy. Qed.

(** The parent the restore step computes is the destination without its
    last segment, and the root when there is no segment to take off. *)
Lemma destination_parent_in_container (d : Path) :
  destination_parent_of d = parent_in_container d.
Proof.
  unfold destination_parent_of, parent_in_container.
  destruct (tail d) as [|x l] eqn:T.
  - assert (E : PosixPath.eqb (parent d) d = true).
    { unfold PosixPath.eqb, parent. cbn [root tail]. rewrite T, String.eqb_refl.
      cbn [removelast andb].
      destruct (list_eq_dec string_dec (@nil string) []) as [_ | N];
        [reflexivity | now contradiction N]. }
    rewrite E. reflexivity.
  - assert (N : tail d <> []) by (rewrite T; discriminate).
    rewrite (parent_differs d N). cbn [negb]. unfold parent. now rewrite T.
Qed.

End RestoreWords.

Section Restore.

Variable W : World.
Variable temp_container : string.

Lemma removal_run (spec : CopySpec) (tr : list event) :
  exists removed,
    try_except_CalledProcessError
      (_run_docker W (rm_argv temp_container (destination_str_of spec)))
      (fun _ => emit (Warned (CouldNotRemoveExisting (destination_str_of spec)
                                temp_container))) tr
    = (Ok tt, tr ++ removal_events temp_container spec removed).
Proof.
  exists (succeeds W tr (Docker (rm_argv temp_container (destination_str_of spec)))).
  rewrite best_effort_docker. unfold removal_events, rm_argv.
  destruct (succeeds W tr _); [reflexivity|].
  unfold emit. now rewrite <- app_assoc.
Qed.

Lemma restore_one_cases (spec : CopySpec) (tr : list event) :
  exists removed,
    restore_one W temp_container spec tr
    = (Ok tt, tr ++ removal_events temp_container spec removed
                 ++ [mkdir_event temp_container spec true;
                     cp_event temp_container spec true])
    \/ restore_one W temp_container spec tr
       = (Err (DevcToDockerError
                 (RestoreFailed (parent_str_of spec) temp_container)),
          tr ++ removal_events temp_container spec removed
             ++ [mkdir_event temp_container spec false])
    \/ restore_one W temp_container spec tr
       = (Err (CalledProcessError (cp_command temp_container spec)),
          tr ++ removal_events temp_container spec removed
             ++ [mkdir_event temp_container spec true;
                 cp_event temp_container spec false]).
Proof.
  destruct (removal_run spec tr) as [removed R]. exists removed.
  unfold restore_one. cbv zeta.
  rewrite !posix_or_dot_to_string, destination_parent_in_container.
  fold (destination_str_of spec) (parent_str_of spec).
  rewrite (bind_ok _ _ _ _ _ R).
  set (tr1 := tr ++ removal_events temp_container spec removed).
  set (mk := mkdir_argv temp_container (parent_str_of spec)).
  assert (K : try_except_CalledProcessError (_run_docker W mk)
                (fun _ => raise (DevcToDockerError
                                   (RestoreFailed (parent_str_of spec) temp_container)))
                tr1
              = if succeeds W tr1 (Docker mk)
                then (Ok tt, tr1 ++ [Did (Docker mk) true])
                else (Err (DevcToDockerError
                             (RestoreFailed (parent_str_of spec) temp_container)),
                      tr1 ++ [Did (Docker mk) false]))
    by (rewrite best_effort_docker; reflexivity).
  destruct (succeeds W tr1 (Docker mk)).
  - rewrite (bind_ok _ _ _ _ _ K). unfold _run_docker.
    change (cp_argv temp_container (host_path spec) (parent_str_of spec))
      with (cp_command temp_container spec).
    destruct (perform_cases W (Docker (cp_command temp_container spec))
                (tr1 ++ [Did (Docker mk) true])) as [C | C]; rewrite C;
      [left | right; right]; unfold tr1, mkdir_event, cp_event;
        now rewrite <- !app_assoc.
  - rewrite (bind_err _ _ _ _ _ K). right; left.
    unfold tr1, mkdir_event. now rewrite <- !app_assoc.
Qed.

Lemma restore_run (copies : list CopySpec) :
  forall tr, exists r evs,
    _restore_bind_mounts W temp_container copies tr = (r, tr ++ evs)
    /\ restore_trace temp_container copies r evs.
Proof.
  induction copies as [|spec rest IH]; intros tr; cbn [_restore_bind_mounts].
  - exists (Ok tt), []. rewrite app_nil_r. split; [reflexivity | constructor].
  - destruct (restore_one_cases spec tr) as [removed [E | [E | E]]].
    + rewrite (bind_ok _ _ _ _ _ E).
      destruct (IH (tr ++ removal_events temp_container spec removed
                       ++ [mkdir_event temp_container spec true;
                           cp_event temp_container spec true]))
        as [r [evs [R T]]].
      rewrite R. exists r. eexists. rewrite <- !app_assoc. split; [reflexivity|].
      now constructor.
    + rewrite (bind_err _ _ _ _ _ E). do 2 eexists. split; [reflexivity|].
      constructor.
    + rewrite (bind_err _ _ _ _ _ E). do 2 eexists. split; [reflexivity|].
      constructor.
Qed.

Lemma docker_commands_app (evs1 evs2 : list event) :
  docker_commands (evs1 ++ evs2) = docker_commands evs1 ++ docker_commands evs2.
Proof. apply flat_map_app. Qed.

Lemma docker_commands_removal (spec : CopySpec) (removed : bool) :
  docker_commands (removal_events temp_container spec removed)
  = [["exec"; temp_container; "rm"; "-rf"; destination_str_of spec]].
Proof. destruct removed; reflexivity. Qed.

Lemma restore_trace_complete (copies : list CopySpec) (evs : list event) u :
  restore_trace temp_container copies (Ok u) evs ->
  docker_commands evs = flat_map (restore_plan temp_container) copies.
Proof.
  remember (Ok u) as r eqn:R. induction 1; try discriminate R.
  - reflexivity.
  - rewrite docker_commands_app, docker_commands_removal.
    cbn [flat_map restore_plan app]. simpl docker_commands at 1.
    unfold mkdir_event, cp_event. cbn [docker_commands flat_map app].
    now rewrite (IHrestore_trace R).
Qed.

(** What the restore step does, whatever the world answers. *)
Lemma restore_run_complete (copies : list CopySpec) (tr : list event) :
  exists r evs,
    _restore_bind_mounts W temp_container copies tr = (r, tr ++ evs)
    /\ restore_trace temp_container copies r evs
    /\ (forall u, r = Ok u ->
          docker_commands evs = flat_map (restore_plan temp_container) copies).
Proof.
  destruct (restore_run copies tr) as [r [evs [E T]]].
  exists r, evs. split; [exact E|]. split; [exact T|].
  intros u K. subst r. exact (restore_trace_complete _ _ _ T).
Qed.

End Restore.

(** C6. The restore step takes the CopySpecs in order and, for each,
    first runs [rm -rf] on the destination inside the disposable
    container, a failure leaving a warning and nothing more; then runs
    [mkdir -p] on the parent of the destination inside the container, a
    failure being [RestoreFailed]; then runs [docker cp] of the staged
    host path to the parent path in the container.  When it returns, the
    commands issued are exactly these three for each CopySpec, in mount
    order.  For the content of /workspace/app staged at
    /tmp/devc_to_docker_k3v9x2ab/workspace/app the three commands are
    spelled out. *)
Theorem restore_order_and_severity :
  (forall (W : World) (temp_container : string) (copies : list CopySpec)
          (tr : list event),
      exists r evs,
        _restore_bind_mounts W temp_container copies tr = (r, tr ++ evs)
        /\ restore_trace temp_container copies r evs
        /\ (forall u, r = Ok u ->
              docker_commands evs = flat_map (restore_plan temp_container) copies))
  /\ _restore_bind_mounts fresh_host "devc-to-docker-My-App-20240101120000"
       [app_copy] []
     = (Ok tt,
        [Did (Docker ["exec"; "devc-to-docker-My-App-20240101120000";
                      "rm"; "-rf"; "/workspace/app"]) true;
         Did (Docker ["exec"; "devc-to-docker-My-App-20240101120000";
                      "mkdir"; "-p"; "/workspace"]) true;
         Did (Docker ["cp"; "/tmp/devc_to_docker_k3v9x2ab/workspace/app";
                      "devc-to-docker-My-App-20240101120000:/workspace"]) true])
  /\ restore_plan "devc-to-docker-My-App-20240101120000" app_copy
     = [["exec"; "devc-to-docker-My-App-20240101120000"; "rm"; "-rf";
         "/workspace/app"];
        ["exec"; "devc-to-docker-My-App-20240101120000"; "mkdir"; "-p";
         "/workspace"];
        ["cp"; "/tmp/devc_to_docker_k3v9x2ab/workspace/app";
         "devc-to-docker-My-App-20240101120000:/workspace"]].
Proof.
  split; [|split].
  - intros W temp_container copies tr.
    exact (restore_run_complete W temp_container copies tr).
  - vm_compute. reflexivity.
  - vm_compute. reflexivity.
Qed.

(** ** Parsed paths *)

Section ParsedPaths.

Lemma split_no_sep (sep : ascii) (s : string) :
  all (fun c => negb (c =? sep)%char) s = true -> split sep s = [s].
Proof.
  induction s as [|c s IH]; simpl; [reflexivity|].
  intros H. apply andb_prop in H. destruct H as [Hc Hs].
  apply negb_true_iff in Hc. rewrite Hc, (IH Hs). reflexivity.
Qed.

Lemma split_segments (sep : ascii) (s x : string) :
  In x (split sep s) -> all (fun c => negb (c =? sep)%char) x = true.
Proof.
  revert x. induction s as [|c s IH]; simpl; intros x H.
  - destruct H as [<- | []]. reflexivity.
  - destruct (c =? sep)%char eqn:E.
    + destruct H as [<- | H]; [reflexivity | now apply IH].
    + destruct (split sep s) as [|h t] eqn:S.
      * destruct H as [<- | []]. simpl. now rewrite E.
      * destruct H as [<- | H].
        -- simpl. rewrite E. simpl. apply IH. now left.
        -- apply IH. now right.
Qed.

(** Every parsed path is well formed. *)
Lemma of_string_wf (s : string) : wf (of_string s).
Proof.
  unfold wf, of_string. destruct (splitroot s) as [r rel]. simpl.
  apply Forall_forall. intros x H. apply filter_In in H. destruct H as [H K].
  unfold segment_ok. rewrite K. simpl.
  exact (split_segments "/" rel x H).
Qed.

Lemma of_string_segment (x : string) :
  segment_ok x = true -> of_string x = mkPath "" [x].
Proof.
  unfold segment_ok. intros H. apply andb_prop in H. destruct H as [K N].
  unfold of_string.
  assert (R : splitroot x = ("", x)).
  { destruct x as [|c x]; [reflexivity|]. simpl in N.
    apply andb_prop in N. destruct N as [Nc _].
    unfold splitroot. apply negb_true_iff in Nc. now rewrite Nc. }
  rewrite R. unfold is_slash in N. rewrite (split_no_sep "/" x N).
  simpl. now rewrite K.
Qed.

Lemma of_strings_from (segments : list string) :
  Forall (fun x => segment_ok x = true) segments ->
  forall done,
    fold_left (fun acc s => joinpath acc (of_string s)) segments (mkPath "" done)
    = mkPath "" (done ++ segments).
Proof.
  induction 1 as [|x l Hx _ IH]; intros done; simpl.
  - now rewrite app_nil_r.
  - rewrite (of_string_segment x Hx). unfold joinpath at 2. simpl.
    rewrite IH, <- app_assoc. reflexivity.
Qed.

(** Building a path from the segments of a parsed path gives them back. *)
Lemma of_strings_segments (segments : list string) :
  Forall (fun x => segment_ok x = true) segments ->
  of_strings segments = mkPath "" segments.
Proof.
  intros H. unfold of_strings. now rewrite (of_strings_from segments H []).
Qed.

Lemma is_prefix_app (l m : list string) : is_prefix l (l ++ m) = true.
Proof.
  induction l as [|x l IH]; simpl; [reflexivity|].
  now rewrite String.eqb_refl, IH.
Qed.

Lemma staged_at_inside (temp_dir d : Path) :
  is_relative_to (staged_at temp_dir d) temp_dir = true
  /\ relative_to (staged_at temp_dir d) temp_dir = strip_root d.
Proof.
  unfold is_relative_to, relative_to, staged_at, strip_root. simpl. split.
  - now rewrite String.eqb_refl, is_prefix_app.
  - f_equal. rewrite skipn_app, skipn_all, Nat.sub_diag. reflexivity.
Qed.

Lemma relative_is_rootless (d : Path) :
  is_absolute d = false -> d = strip_root d.
Proof.
  unfold is_absolute, truthy, strip_root. destruct d as [r t]. simpl.
  intros H. apply negb_false_iff in H. apply String.eqb_eq in H. now subst.
Qed.

Lemma absolute_parts (d : Path) :
  is_absolute d = true -> skipn 1 (parts d) = tail d.
Proof.
  unfold is_absolute, parts. intros H. now rewrite H.
Qed.

Lemma append_assoc (a b c : string) :
  ((a ++ b) ++ c)%string = (a ++ b ++ c)%string.
Proof. induction a as [|x a IH]; simpl; [reflexivity | now rewrite IH]. Qed.

Lemma join_app (sep : string) (l m : list string) :
  l <> [] -> m <> [] ->
  join sep (l ++ m) = (join sep l ++ sep ++ join sep m)%string.
Proof.
  intros Hl Hm. induction l as [|x l IH]; [congruence|].
  destruct l as [|y l].
  - destruct m as [|z m]; [congruence|]. reflexivity.
  - change (join sep ((x :: y :: l) ++ m))
      with (x ++ sep ++ join sep ((y :: l) ++ m))%string.
    rewrite IH by discriminate.
    change (join sep (x :: y :: l)) with (x ++ sep ++ join sep (y :: l))%string.
    now rewrite !append_assoc.
Qed.

Lemma append_nonempty (a b : string) : a <> "" -> (a ++ b)%string <> "".
Proof. destruct a; [congruence | discriminate]. Qed.

Lemma join_nonempty (sep : string) (l : list string) :
  l <> [] -> Forall (fun x => segment_ok x = true) l -> join sep l <> "".
Proof.
  intros Hl F. destruct F as [|x l Hx _]; [congruence|].
  assert (N : x <> "") by (intros ->; discriminate Hx).
  destruct l; [exact N | now apply append_nonempty].
Qed.

Lemma truthy_nonempty (s : string) : s <> "" -> truthy s = true.
Proof.
  intros H. unfold truthy. apply negb_true_iff. now apply String.eqb_neq.
Qed.

(** The staged path, printed, is the temp directory, a slash and the
    segments of the destination. *)
Lemma staged_at_to_string (temp_dir d : Path) :
  wf temp_dir -> tail temp_dir <> [] -> wf d -> tail d <> [] ->
  to_string (staged_at temp_dir d)
  = (to_string temp_dir ++ "/" ++ join "/" (tail d))%string.
Proof.
  intros Wt Nt Wd Nd. unfold to_string, staged_at. cbn [root tail].
  rewrite (join_app "/" _ _ Nt Nd).
  pose proof (join_nonempty "/" _ Nt Wt) as Jt.
  assert (A : forall r x : string, x <> "" -> (r ++ x)%string <> "").
  { intros r x Hx. destruct r; [exact Hx | discriminate]. }
  rewrite !truthy_nonempty.
  - now rewrite append_assoc.
  - now apply A.
  - apply A. now apply append_nonempty.
Qed.

End ParsedPaths.

(** ** Staging the mounts *)

Section Staging.

Variable W : World.

Lemma Forall_app_snoc (acc : list BindMount) (m : BindMount) :
  Forall wf_mount acc -> wf (destination m) -> Forall wf_mount (acc ++ [m]).
Proof.
  intros Hacc Hm. apply Forall_app. split; [exact Hacc | now repeat constructor].
Qed.

(** The path a mount is mirrored at, when it has one. *)
Lemma relative_of_cases (d : Path) (tr : list event) :
  wf d ->
  (is_root d /\ relative_of d tr = (Err (DevcToDockerError InvalidDestination), tr))
  \/ (~ is_root d /\ relative_of d tr = (Ok (strip_root d), tr)).
Proof.
  intros Hwf. unfold relative_of, is_root.
  destruct (is_absolute d) eqn:A.
  - rewrite (absolute_parts d A). destruct (tail d) as [|x l] eqn:T.
    + left. now repeat split.
    + right. split; [intros [_ K]; discriminate K|].
      unfold ret. rewrite of_strings_segments; [|now rewrite <- T].
      unfold strip_root. now rewrite T.
  - right. split; [intros [K _]; discriminate K|].
    unfold ret. now rewrite <- (relative_is_rootless d A).
Qed.

(** A mount on the root is rejected without an event; which failure it
    is depends on whether its source is there. *)
Lemma stage_one_root (mount : BindMount) (temp_dir : Path) (tr : list event) :
  is_root (destination mount) ->
  stage_one W mount temp_dir tr
  = (Err (if path_exists W tr (source mount)
          then DevcToDockerError InvalidDestination
          else DevcToDockerError (SourceMissing (source mount))), tr).
Proof.
  intros [A T]. unfold stage_one.
  rewrite (bind_ok (exists_ W (source mount)) _ tr _ tr eq_refl).
  destruct (path_exists W tr (source mount)); cbn [negb].
  - rewrite (bind_ok (ret tt) _ tr tt tr eq_refl).
    assert (R : relative_of (destination mount) tr
                = (Err (DevcToDockerError InvalidDestination), tr)).
    { unfold relative_of. rewrite A, (absolute_parts _ A), T. reflexivity. }
    now rewrite (bind_err _ _ _ _ _ R).
  - now rewrite (bind_err (raise _) _ tr _ tr eq_refl).
Qed.

(** A mount that is staged is copied to the temp directory followed by
    the segments of its destination, and the copy is the last event. *)
Lemma stage_one_ok (mount : BindMount) (temp_dir : Path) (tr : list event)
  spec tr' :
  wf_mount mount ->
  stage_one W mount temp_dir tr = (Ok spec, tr') ->
  spec = staged temp_dir mount
  /\ ~ is_root (destination mount)
  /\ exists evs, tr' = tr ++ evs /\ copied_to mount (host_path spec) evs.
Proof.
  intros Hwf H. unfold stage_one in H.
  rewrite (bind_ok (exists_ W (source mount)) _ tr _ tr eq_refl) in H.
  destruct (path_exists W tr (source mount)); cbn [negb] in H;
    [|rewrite (bind_err (raise _) _ tr _ tr eq_refl) in H; discriminate H].
  rewrite (bind_ok (ret tt) _ tr tt tr eq_refl) in H.
  destruct (relative_of_cases (destination mount) tr Hwf) as [[_ R] | [N R]];
    [rewrite (bind_err _ _ _ _ _ R) in H; discriminate H|].
  rewrite (bind_ok _ _ _ _ _ R) in H.
  change (joinpath temp_dir (strip_root (destination mount)))
    with (staged_at temp_dir (destination mount)) in H.
  set (target := staged_at temp_dir (destination mount)) in *.
  destruct (perform_cases W (Mkdir (parent target)) tr) as [E1 | E1];
    [rewrite (bind_ok _ _ _ _ _ E1) in H
    | rewrite (bind_err _ _ _ _ _ E1) in H; discriminate H].
  set (tr1 := tr ++ [Did (Mkdir (parent target)) true]) in *.
  rewrite (bind_ok (exists_ W target) _ tr1 _ tr1 eq_refl) in H.
  match type of H with
  | bind ?c _ tr1 = _ =>
      assert (C : exists r2 evs2, c tr1 = (r2, tr1 ++ evs2))
  end.
  { destruct (path_exists W tr1 target);
      [|exists (Ok tt), []; unfold ret; now rewrite app_nil_r].
    rewrite (bind_ok (is_dir W target) _ tr1 _ tr1 eq_refl).
    destruct (path_is_dir W tr1 target);
      [destruct (perform_cases W (Rmtree target) tr1) as [E | E]
      | destruct (perform_cases W (Unlink target) tr1) as [E | E]];
      rewrite E; now do 2 eexists. }
  destruct C as [[u2|e2] [evs2 E2]];
    [rewrite (bind_ok _ _ _ _ _ E2) in H
    | rewrite (bind_err _ _ _ _ _ E2) in H; discriminate H].
  set (tr2 := tr1 ++ evs2) in *.
  rewrite (bind_ok (is_dir W (source mount)) _ tr2 _ tr2 eq_refl) in H.
  assert (D : forall a,
             (a = Copytree (source mount) target \/ a = Copy2 (source mount) target) ->
             bind (perform W a) (fun _ => ret (mkCopySpec (destination mount) target)) tr2
             = (Ok spec, tr') ->
             spec = staged temp_dir mount
             /\ exists evs, tr' = tr ++ evs /\ copied_to mount (host_path spec) evs).
  { intros a Ha K.
    destruct (perform_cases W a tr2) as [E | E];
      [rewrite (bind_ok _ _ _ _ _ E) in K
      | rewrite (bind_err _ _ _ _ _ E) in K; discriminate K].
    inversion K; subst spec tr'. split; [reflexivity|].
    unfold tr2, tr1. rewrite <- !app_assoc. eexists; split; [reflexivity|].
    cbn [host_path]. unfold copied_to.
    destruct Ha as [-> | ->]; [left | right];
      apply in_or_app; right; apply in_or_app; right; now left. }
  destruct (path_is_dir W tr2 (source mount));
    [destruct (D _ (or_introl eq_refl) H) as [S X]
    | destruct (D _ (or_intror eq_refl) H) as [S X]];
    (split; [exact S | split; [exact N | exact X]]).
Qed.

Lemma copy_loop_app (before rest : list BindMount) (temp_dir : Path) :
  forall copies tr,
    copy_loop W (before ++ rest) temp_dir copies tr
    = bind (copy_loop W before temp_dir copies)
        (fun staged_so_far => copy_loop W rest temp_dir staged_so_far) tr.
Proof.
  induction before as [|m before IH]; intros copies tr; cbn [copy_loop app].
  - reflexivity.
  - rewrite bind_assoc.
    destruct (stage_one W m temp_dir tr) as [[spec|e] tr1] eqn:S.
    + rewrite !(bind_ok _ _ _ _ _ S). apply IH.
    + now rewrite !(bind_err _ _ _ _ _ S).
Qed.

(** What a staging that returns has produced and done. *)
Lemma copy_loop_ok (bind_mounts : list BindMount) (temp_dir : Path) :
  Forall wf_mount bind_mounts ->
  forall copies tr staged_all tr',
    copy_loop W bind_mounts temp_dir copies tr = (Ok staged_all, tr') ->
    staged_all = copies ++ map (staged temp_dir) bind_mounts
    /\ Forall (fun m => ~ is_root (destination m)) bind_mounts
    /\ exists evs,
         tr' = tr ++ evs
         /\ Forall (fun m => copied_to m (staged_at temp_dir (destination m)) evs)
              bind_mounts.
Proof.
  induction 1 as [|m rest Hm _ IH]; intros copies tr staged_all tr' H;
    cbn [copy_loop] in H.
  - inversion H; subst. rewrite app_nil_r. split; [reflexivity|].
    split; [constructor|]. exists []. rewrite app_nil_r. now split.
  - destruct (stage_one W m temp_dir tr) as [[spec|e] tr1] eqn:S;
      [rewrite (bind_ok _ _ _ _ _ S) in H
      | rewrite (bind_err _ _ _ _ _ S) in H; discriminate H].
    destruct (stage_one_ok m temp_dir tr spec tr1 Hm S) as [-> [N [evs1 [-> C1]]]].
    destruct (IH _ _ _ _ H) as [-> [Ns [evs2 [-> C2]]]].
    rewrite <- !app_assoc. split; [reflexivity|]. split; [now constructor|].
    exists (evs1 ++ evs2). split; [reflexivity|]. constructor.
    + destruct C1 as [C1 | C1]; [left | right]; apply in_or_app; now left.
    + revert C2. apply Forall_impl. intros m' [C | C]; [left | right];
        apply in_or_app; now right.
Qed.

Lemma extract_loop_wf (mounts : list MountDesc) :
  forall acc bind_mounts,
    Forall wf_mount acc ->
    extract_loop mounts acc = Ok bind_mounts ->
    Forall wf_mount bind_mounts.
Proof.
  induction mounts as [|mount rest IH]; intros acc bind_mounts Hacc H;
    cbn [extract_loop] in H.
  - inversion H; subst. exact Hacc.
  - destruct (type_is_not_bind mount); [exact (IH _ _ Hacc H)|].
    destruct (get_default (Source mount) "") as [src|]; [|discriminate H].
    destruct (get_default (Destination mount) "") as [dst|]; [|discriminate H].
    cbn in H.
    apply (IH _ _ (Forall_app_snoc acc (mkBindMount (of_string src) (of_string dst))
                     Hacc (of_string_wf dst)) H).
Qed.

(** The bind mounts the extractor returns hold parsed paths. *)
Lemma extracted_mounts_wf (mounts : list MountDesc) (bind_mounts : list BindMount) :
  _extract_bind_mounts mounts = Ok bind_mounts -> Forall wf_mount bind_mounts.
Proof. apply extract_loop_wf. constructor. Qed.

End Staging.

(** C3, as the design states it, fails: with a mount on [/workspace]
    followed by a mount on the root, the first mount has been copied into
    the temp directory by the time the second is rejected. *)
Lemma root_rejected_after_earlier_copy :
  _copy_bind_mounts_to_tmp (world_of [] [host_proj] never) root_second
    scenario_temp_dir []
  = (Err (DevcToDockerError InvalidDestination),
     [Did (Mkdir scenario_temp_dir) true;
      Did (Copytree host_proj (of_string "/tmp/devc_to_docker_k3v9x2ab/workspace"))
        true])
  /\ ~ root_rejected_before_any_copy.
Proof.
  assert (R : _copy_bind_mounts_to_tmp (world_of [] [host_proj] never) root_second
                scenario_temp_dir []
              = (Err (DevcToDockerError InvalidDestination),
                 [Did (Mkdir scenario_temp_dir) true;
                  Did (Copytree host_proj
                         (of_string "/tmp/devc_to_docker_k3v9x2ab/workspace")) true]))
    by (vm_compute; reflexivity).
  split; [exact R|].
  intros C.
  assert (Hwf : Forall wf_mount root_second) by (repeat constructor).
  assert (Hroot : Exists (fun m => is_root (destination m)) root_second)
    by (right; left; split; reflexivity).
  destruct (C _ _ _ _ _ _ Hwf Hroot R) as [_ [evs [E K]]].
  cbn [app] in E. subst evs. vm_compute in K. discriminate K.
Qed.

(** C3, amended. Every mount of a staging that returns was copied to the
    temp directory followed by the segments of its destination, which
    prints as the temp directory, a slash and those segments: a
    destination /x/y is staged at <temp_dir>/x/y.  A mount on the root is
    rejected once the mounts before it have been staged, with
    [InvalidDestination] when its source exists and with [SourceMissing]
    when it does not, and the rejection leaves no event: nothing of that
    mount or of a later one is copied. *)
Theorem root_rejected_before_its_copy :
  (forall W bind_mounts temp_dir tr copies tr',
      Forall wf_mount bind_mounts ->
      _copy_bind_mounts_to_tmp W bind_mounts temp_dir tr = (Ok copies, tr') ->
      exists evs,
        tr' = tr ++ evs
        /\ Forall (fun m => copied_to m (staged_at temp_dir (destination m)) evs)
             bind_mounts)
  /\ (forall temp_dir d,
        wf temp_dir -> tail temp_dir <> [] -> wf d -> tail d <> [] ->
        to_string (staged_at temp_dir d)
        = (to_string temp_dir ++ "/" ++ join "/" (tail d))%string)
  /\ (forall W before mount after temp_dir tr staged_before tr1,
        is_root (destination mount) ->
        _copy_bind_mounts_to_tmp W before temp_dir tr = (Ok staged_before, tr1) ->
        _copy_bind_mounts_to_tmp W (before ++ mount :: after) temp_dir tr
        = (Err (if path_exists W tr1 (source mount)
                then DevcToDockerError InvalidDestination
                else DevcToDockerError (SourceMissing (source mount))), tr1)).
Proof.
  split; [|split].
  - intros W bind_mounts temp_dir tr copies tr' Hwf H.
    destruct (copy_loop_ok W bind_mounts temp_dir Hwf _ _ _ _ H) as [_ [_ X]].
    exact X.
  - exact staged_at_to_string.
  - intros W before mount after temp_dir tr staged_before tr1 R H.
    unfold _copy_bind_mounts_to_tmp in *.
    rewrite copy_loop_app, (bind_ok _ _ _ _ _ H). cbn [copy_loop].
    now rewrite (bind_err _ _ _ _ _ (stage_one_root W mount temp_dir tr1 R)).
Qed.

Lemma root_rejected_before_its_copy_witness :
  (exists evs,
      snd (_copy_bind_mounts_to_tmp (world_of [] [host_proj] never)
             [mkBindMount host_proj (of_string "/x/y")] scenario_temp_dir [])
      = [] ++ evs
      /\ Forall (fun m => copied_to m (staged_at scenario_temp_dir (destination m)) evs)
           [mkBindMount host_proj (of_string "/x/y")])
  /\ to_string (staged_at scenario_temp_dir (of_string "/x/y"))
     = "/tmp/devc_to_docker_k3v9x2ab/x/y"
  /\ _copy_bind_mounts_to_tmp (world_of [] [host_proj] never) root_second
       scenario_temp_dir []
     = (Err (DevcToDockerError InvalidDestination),
        [Did (Mkdir scenario_temp_dir) true;
         Did (Copytree host_proj (of_string "/tmp/devc_to_docker_k3v9x2ab/workspace"))
           true]).
Proof.
  split; [|split].
  - apply (proj1 root_rejected_before_its_copy (world_of [] [host_proj] never)
             [mkBindMount host_proj (of_string "/x/y")] scenario_temp_dir []
             [staged scenario_temp_dir (mkBindMount host_proj (of_string "/x/y"))]).
    + repeat constructor.
    + vm_compute. reflexivity.
  - rewrite (proj1 (proj2 root_rejected_before_its_copy)
               scenario_temp_dir (of_string "/x/y")).
    + vm_compute. reflexivity.
    + apply of_string_wf.
    + vm_compute. discriminate.
    + apply of_string_wf.
    + vm_compute. discriminate.
  - apply (proj2 (proj2 root_rejected_before_its_copy)
             (world_of [] [host_proj] never)
             [mkBindMount host_proj (of_string "/workspace")]
             (mkBindMount host_proj (of_string "/")) [] scenario_temp_dir []
             [staged scenario_temp_dir (mkBindMount host_proj (of_string "/workspace"))]).
    + split; reflexivity.
    + vm_compute. reflexivity.
Defined.

(** ** Inside the temp directory *)

Section Inside.

Lemma resolve_dots_plain (segments : list string) :
  forallb (fun x => negb (x =? "..")%string) segments = true ->
  forall seen, resolve_dots seen segments = rev seen ++ segments.
Proof.
  induction segments as [|x rest IH]; simpl; intros H seen.
  - now rewrite app_nil_r.
  - apply andb_prop in H. destruct H as [Hx Hr]. apply negb_true_iff in Hx.
    rewrite Hx, (IH Hr). simpl. now rewrite <- app_assoc.
Qed.

Lemma resolve_dots_app (l m : list string) :
  forall seen, exists seen',
    resolve_dots seen l = rev seen'
    /\ resolve_dots seen (l ++ m) = resolve_dots seen' m.
Proof.
  induction l as [|x l IH]; simpl; intros seen.
  - now exists seen.
  - destruct (x =? "..")%string; apply IH.
Qed.

(** A destination that names a place is staged inside the temp
    directory, whatever the temp directory is. *)
Lemma staged_at_lies_inside (temp_dir d : Path) :
  names_a_place d = true -> lies_inside (staged_at temp_dir d) temp_dir = true.
Proof.
  unfold names_a_place, lies_inside, normal_segments, staged_at. cbn [root tail].
  intros H. apply andb_prop in H. destruct H as [Hn Hp].
  destruct (resolve_dots_app (tail temp_dir) (tail d) []) as [seen' [E1 E2]].
  rewrite E2, (resolve_dots_plain _ Hp), E1, String.eqb_refl, is_prefix_app,
    length_app.
  cbn [andb]. apply Nat.ltb_lt. destruct (tail d); [discriminate Hn | simpl; lia].
Qed.

Lemma staged_mirrors (temp_dir : Path) (bind_mounts : list BindMount) :
  Forall2 (mirrors temp_dir) bind_mounts (map (staged temp_dir) bind_mounts).
Proof.
  induction bind_mounts as [|m rest IH]; cbn [map]; constructor; [|exact IH].
  unfold mirrors, staged. cbn [cs_destination host_path].
  destruct (staged_at_inside temp_dir (destination m)) as [I R].
  split; [reflexivity|]. split; [reflexivity|]. split; [reflexivity|].
  split; [exact I|]. split; [exact R | apply staged_at_lies_inside].
Qed.

End Inside.

(** C9, as the design states it, fails.  A mount whose destination is
    /../../etc/cron.d is staged at the temp directory followed by those
    segments, which is /etc/cron.d once the [..] are resolved: outside the
    temp directory.  A mount made from an entry without destination is
    staged on the temp directory itself, which is first removed as a
    stale target. *)
Lemma host_path_outside_temp_dir :
  _copy_bind_mounts_to_tmp (world_of [] [host_proj] never) [climbing_mount]
    scenario_temp_dir []
  = (Ok [mkCopySpec (of_string "/../../etc/cron.d")
           (of_string "/tmp/devc_to_docker_k3v9x2ab/../../etc/cron.d")],
     [Did (Mkdir (of_string "/tmp/devc_to_docker_k3v9x2ab/../../etc")) true;
      Did (Copytree host_proj
             (of_string "/tmp/devc_to_docker_k3v9x2ab/../../etc/cron.d")) true])
  /\ normal_segments (of_string "/tmp/devc_to_docker_k3v9x2ab/../../etc/cron.d")
     = ["etc"; "cron.d"]
  /\ lies_inside (of_string "/tmp/devc_to_docker_k3v9x2ab/../../etc/cron.d")
       scenario_temp_dir = false
  /\ _copy_bind_mounts_to_tmp
       (world_of [] [host_proj; scenario_temp_dir] never) [placeless_mount]
       scenario_temp_dir []
     = (Ok [mkCopySpec (of_string "") scenario_temp_dir],
        [Did (Mkdir (of_string "/tmp")) true;
         Did (Rmtree scenario_temp_dir) true;
         Did (Copytree host_proj scenario_temp_dir) true])
  /\ lies_inside scenario_temp_dir scenario_temp_dir = false
  /\ ~ host_path_always_inside.
Proof.
  assert (R : _copy_bind_mounts_to_tmp (world_of [] [host_proj] never)
                [climbing_mount] scenario_temp_dir []
              = (Ok [mkCopySpec (of_string "/../../etc/cron.d")
                       (of_string "/tmp/devc_to_docker_k3v9x2ab/../../etc/cron.d")],
                 [Did (Mkdir (of_string "/tmp/devc_to_docker_k3v9x2ab/../../etc"))
                    true;
                  Did (Copytree host_proj
                         (of_string "/tmp/devc_to_docker_k3v9x2ab/../../etc/cron.d"))
                    true]))
    by (vm_compute; reflexivity).
  split; [exact R|].
  split; [vm_compute; reflexivity|].
  split; [vm_compute; reflexivity|].
  split; [vm_compute; reflexivity|].
  split; [vm_compute; reflexivity|].
  intros C.
  assert (Hwf : Forall wf_mount [climbing_mount]).
  { constructor; [exact (of_string_wf "/../../etc/cron.d") | constructor]. }
  pose proof (C _ _ _ _ _ _ Hwf R) as F.
  inversion F as [|spec rest K _]. vm_compute in K. discriminate K.
Qed.

(** C9, amended. A staging that returns has produced one CopySpec per
    bind mount, in mount order; each keeps the destination of its mount,
    and its host path is the temp directory followed by the segments of
    the destination, root stripped.  When the destination has at least
    one segment and no segment [..], the host path lies inside the temp
    directory. *)
Theorem copy_specs_mirror_destination (W : World) (bind_mounts : list BindMount)
  (temp_dir : Path) (tr : list event) (copies : list CopySpec) (tr' : list event) :
  Forall wf_mount bind_mounts ->
  _copy_bind_mounts_to_tmp W bind_mounts temp_dir tr = (Ok copies, tr') ->
  copies = map (staged temp_dir) bind_mounts
  /\ List.length copies = List.length bind_mounts
  /\ Forall2 (mirrors temp_dir) bind_mounts copies.
Proof.
  intros Hwf H.
  destruct (copy_loop_ok W bind_mounts temp_dir Hwf _ _ _ _ H) as [-> _].
  cbn [app]. split; [reflexivity|]. split; [apply length_map|].
  apply staged_mirrors.
Qed.

Lemma copy_specs_mirror_destination_witness :
  let mounts := [mkBindMount host_proj (of_string "/workspace/app")] in
  [app_copy] = map (staged scenario_temp_dir) mounts
  /\ List.length [app_copy] = List.length mounts
  /\ Forall2 (mirrors scenario_temp_dir) mounts [app_copy].
Proof.
  intros mounts.
  apply (copy_specs_mirror_destination (world_of [] [host_proj] never) mounts
           scenario_temp_dir [] [app_copy]
           [Did (Mkdir (of_string "/tmp/devc_to_docker_k3v9x2ab/workspace")) true;
            Did (Copytree host_proj
                   (of_string "/tmp/devc_to_docker_k3v9x2ab/workspace/app")) true]).
  - constructor; [exact (of_string_wf "/workspace/app") | constructor].
  - vm_compute. reflexivity.
Defined.

(** * Further properties *)

(** ** The slug *)

Section Slug.

Lemma all_append (q : ascii -> bool) (a b : string) :
  all q (a ++ b) = (all q a && all q b)%bool.
Proof.
  induction a as [|c a IH]; simpl; [reflexivity|].
  now rewrite IH, andb_assoc.
Qed.

Lemma all_re_sub (s : string) :
  all name_char (re_sub_class not_name_char "-" s) = true.
Proof.
  induction s as [|c s IH]; simpl; [reflexivity|].
  unfold not_name_char at 1. destruct (name_char c) eqn:E; simpl.
  - now rewrite E, IH.
  - exact IH.
Qed.

Lemma all_lstrip (q p : ascii -> bool) (s : string) :
  all q s = true -> all q (lstrip p s) = true.
Proof.
  induction s as [|c s IH]; simpl; [reflexivity|].
  intros H. apply andb_prop in H. destruct H as [Hc Hs].
  destruct (p c); [now apply IH | simpl; now rewrite Hc, Hs].
Qed.

Lemma all_rstrip (q p : ascii -> bool) (s : string) :
  all q s = true -> all q (rstrip p s) = true.
Proof.
  induction s as [|c s IH]; simpl; [reflexivity|].
  intros H. apply andb_prop in H. destruct H as [Hc Hs].
  specialize (IH Hs). destruct (rstrip p s) as [|d r].
  - destruct (p c); simpl; [reflexivity | now rewrite Hc].
  - simpl in *. now rewrite Hc, IH.
Qed.

Lemma first_lstrip (p : ascii -> bool) (s : string) (c : ascii) :
  first (lstrip p s) = Some c -> p c = false.
Proof.
  induction s as [|d s IH]; simpl; [discriminate|].
  destruct (p d) eqn:E; [exact IH|]. simpl. intros H. inversion H; subst. exact E.
Qed.

Lemma first_rstrip (p : ascii -> bool) (s : string) (c : ascii) :
  first (rstrip p s) = Some c -> first s = Some c.
Proof.
  destruct s as [|d s]; simpl; [discriminate|].
  destruct (rstrip p s); [destruct (p d); [discriminate|]|]; simpl; auto.
Qed.

Lemma last_rstrip (p : ascii -> bool) (s : string) (c : ascii) :
  last (rstrip p s) = Some c -> p c = false.
Proof.
  induction s as [|d s IH]; simpl; [discriminate|].
  destruct (rstrip p s) as [|e r] eqn:R.
  - destruct (p d) eqn:E; simpl; [discriminate|].
    intros H. inversion H; subst. exact E.
  - intros H. apply IH. exact H.
Qed.

Lemma re_sub_clean (s : string) :
  all name_char s = true -> re_sub_class not_name_char "-" s = s.
Proof.
  induction s as [|c s IH]; simpl; [reflexivity|].
  intros H. apply andb_prop in H. destruct H as [Hc Hs].
  unfold not_name_char at 1. rewrite Hc. simpl. now rewrite IH.
Qed.

Lemma lstrip_clean (p : ascii -> bool) (s : string) :
  match first s with Some c => negb (p c) | None => true end = true ->
  lstrip p s = s.
Proof.
  destruct s as [|c s]; simpl; [reflexivity|].
  intros H. apply negb_true_iff in H. now rewrite H.
Qed.

Lemma rstrip_clean (p : ascii -> bool) (s : string) :
  match last s with Some c => negb (p c) | None => true end = true ->
  rstrip p s = s.
Proof.
  induction s as [|c s IH]; [reflexivity|].
  intros H. cbn [rstrip]. destruct s as [|d s].
  - simpl in *. apply negb_true_iff in H. now rewrite H.
  - rewrite IH by exact H. reflexivity.
Qed.

Lemma sanitize_clean (s : string) :
  is_clean_slug s = true -> _sanitize_name s = s.
Proof.
  unfold is_clean_slug. intros H.
  apply andb_prop in H. destruct H as [H Hl].
  apply andb_prop in H. destruct H as [H Hf].
  apply andb_prop in H. destruct H as [Ht Ha].
  unfold _sanitize_name, strip.
  rewrite (re_sub_clean s Ha), (lstrip_clean _ s Hf), (rstrip_clean _ s Hl).
  now rewrite Ht.
Qed.

Lemma sanitize_is_clean (name : string) :
  is_clean_slug (_sanitize_name name) = true.
Proof.
  unfold _sanitize_name.
  set (t := strip dash_or_dot (re_sub_class not_name_char "-" name)).
  destruct (truthy t) eqn:T; [|reflexivity].
  unfold is_clean_slug. rewrite T. cbn [andb].
  assert (A : all name_char t = true)
    by (apply all_rstrip, all_lstrip, all_re_sub).
  rewrite A. cbn [andb].
  assert (F : match first t with Some c => negb (dash_or_dot c) | None => true end
              = true).
  { destruct (first t) as [c|] eqn:E; [|reflexivity].
    apply negb_true_iff. apply first_rstrip in E. exact (first_lstrip _ _ _ E). }
  assert (L : match last t with Some c => negb (dash_or_dot c) | None => true end
              = true).
  { destruct (last t) as [c|] eqn:E; [|reflexivity].
    apply negb_true_iff. exact (last_rstrip _ _ _ E). }
  now rewrite F, L.
Qed.

End Slug.

(** X1. Whatever the name, the slug is not empty, holds only characters
    of [A-Za-z0-9_.-] and neither begins nor ends with a dash or a dot. *)
Theorem sanitize_output_clean (name : string) :
  _sanitize_name name <> ""
  /\ all name_char (_sanitize_name name) = true
  /\ (forall c, first (_sanitize_name name) = Some c -> dash_or_dot c = false)
  /\ (forall c, last (_sanitize_name name) = Some c -> dash_or_dot c = false).
Proof.
  pose proof (sanitize_is_clean name) as H. unfold is_clean_slug in H.
  apply andb_prop in H. destruct H as [H Hl].
  apply andb_prop in H. destruct H as [H Hf].
  apply andb_prop in H. destruct H as [Ht Ha].
  split; [|split; [exact Ha|split]].
  - intros E. rewrite E in Ht. discriminate Ht.
  - intros c E. rewrite E in Hf. now apply negb_true_iff.
  - intros c E. rewrite E in Hl. now apply negb_true_iff.
Qed.

(** X2. Sanitizing twice is sanitizing once. *)
Theorem sanitize_idempotent (name : string) :
  _sanitize_name (_sanitize_name name) = _sanitize_name name.
Proof. apply sanitize_clean, sanitize_is_clean. Qed.

(** X3. A name that is already a clean slug is kept as it is. *)
Theorem sanitize_keeps_clean_names (name : string) :
  name <> "" ->
  all name_char name = true ->
  (forall c, first name = Some c -> dash_or_dot c = false) ->
  (forall c, last name = Some c -> dash_or_dot c = false) ->
  _sanitize_name name = name.
Proof.
  intros Hn Ha Hf Hl. apply sanitize_clean. unfold is_clean_slug.
  rewrite (truthy_nonempty name Hn), Ha. cbn [andb].
  destruct (first name) as [c|]; [rewrite (Hf c eq_refl)|];
    (destruct (last name) as [d|]; [rewrite (Hl d eq_refl)|]); reflexivity.
Qed.

Lemma sanitize_keeps_clean_names_witness :
  _sanitize_name "web-1.dev_box" = "web-1.dev_box".
Proof.
  apply sanitize_keeps_clean_names.
  - discriminate.
  - vm_compute. reflexivity.
  - intros c H. vm_compute in H. inversion H. reflexivity.
  - intros c H. vm_compute in H. inversion H. reflexivity.
Defined.

(** ** The name of the disposable container *)

Section TempContainerName.

Lemma length_take (n : nat) (s : string) :
  String.length (take n s) = Nat.min n (String.length s).
Proof.
  unfold take. revert n. induction s as [|c s IH]; intros [|n]; simpl; try reflexivity.
  now rewrite IH.
Qed.

Lemma prefix_take (n : nat) (s : string) : prefix (take n s) s = true.
Proof.
  unfold take. revert n. induction s as [|c s IH]; intros [|n]; simpl; try reflexivity.
  destruct (ascii_dec c c); [apply IH | congruence].
Qed.

Lemma prefix_refl (s : string) : prefix s s = true.
Proof.
  induction s as [|c s IH]; simpl; [reflexivity|].
  destruct (ascii_dec c c); [exact IH | congruence].
Qed.

Lemma take_all (n : nat) (s : string) : String.length s <= n -> take n s = s.
Proof.
  unfold take. revert n.
  induction s as [|c s IH]; intros [|n] H; cbn [substring String.length] in *;
    try reflexivity; try lia.
  now rewrite IH by lia.
Qed.

(** The name of the disposable container is the first 60 characters of
    the full name. *)
Lemma temp_container_name_take (sanitized_name timestamp : string) :
  temp_container_name_of sanitized_name timestamp
  = take 60 ("devc-to-docker-" ++ sanitized_name ++ "-" ++ timestamp)%string.
Proof.
  unfold temp_container_name_of. cbv zeta.
  destruct (Nat.ltb 60 (String.length
                          ("devc-to-docker-" ++ sanitized_name ++ "-" ++ timestamp)))
    eqn:E; [reflexivity|].
  apply Nat.ltb_ge in E. symmetry. now apply take_all.
Qed.

End TempContainerName.

(** X4. The name of the disposable container is the name built from the
    slug and the timestamp when that has at most 60 characters, and its
    first 60 characters otherwise: never longer than 60, always a
    prefix of the full name. *)
Theorem temp_container_name_bounded (sanitized_name timestamp : string) :
  let full := full_temp_container_name sanitized_name timestamp in
  let name := temp_container_name_of sanitized_name timestamp in
  String.length name <= 60
  /\ prefix name full = true
  /\ String.length name = Nat.min 60 (String.length full).
Proof.
  cbv zeta. unfold temp_container_name_of.
  fold (full_temp_container_name sanitized_name timestamp).
  set (full := full_temp_container_name sanitized_name timestamp).
  destruct (Nat.ltb_spec 60 (String.length full)) as [H | H].
  - rewrite length_take, prefix_take. repeat split; lia.
  - rewrite prefix_refl. repeat split; lia.
Qed.

(** ** What the extractor returns *)

Section Extractor.

Lemma extract_loop_result (mounts : list MountDesc) :
  forall acc,
    extract_loop mounts acc
    = if existsb has_null_path (filter is_bind mounts) then Err TypeError
      else Ok (acc ++ map bind_mount_of (filter is_bind mounts)).
Proof.
  induction mounts as [|mount rest IH]; intros acc; cbn [extract_loop filter].
  - simpl. now rewrite app_nil_r.
  - change (is_bind mount) with (negb (type_is_not_bind mount)).
    destruct (type_is_not_bind mount); cbn [negb].
    + apply IH.
    + cbn [existsb map]. unfold has_null_path at 1, bind_mount_of at 1.
      destruct (Source mount) as [| |s], (Destination mount) as [| |d];
        cbn [get_default Path_of_value orb Path_truthy negb];
        try reflexivity;
        rewrite IH, <- app_assoc; reflexivity.
Qed.

End Extractor.

Lemma extract_result_aux (mounts : list MountDesc) :
  _extract_bind_mounts mounts
  = if existsb has_null_path (filter is_bind mounts) then Err TypeError
    else Ok (map bind_mount_of (filter is_bind mounts)).
Proof. unfold _extract_bind_mounts. now rewrite extract_loop_result. Qed.

(** X5. The extractor looks at the entries of type bind only.  If one of
    them has a null source or destination it raises [TypeError];
    otherwise it returns one bind mount per entry of type bind, in the
    order reported, an absent source or destination being the empty
    path. *)
Theorem extract_result (mounts : list MountDesc) :
  _extract_bind_mounts mounts
  = if existsb has_null_path (filter is_bind mounts) then Err TypeError
    else Ok (map bind_mount_of (filter is_bind mounts)).
Proof. apply extract_result_aux. Qed.

(** ** Failures at the door *)

(** X6. Without the [docker] command on the path the run fails with
    [EngineUnavailable] before anything else: the trace is left as it
    was, not even the inspection is asked for. *)
Theorem docker_missing_stops_first (W : World) (cid : string)
  (output_tag stage_tag temp_root : option string)
  (keep_temp keep_intermediate : bool) (tr : list event) :
  which_docker W = false ->
  devc_to_docker W cid output_tag stage_tag temp_root keep_temp keep_intermediate tr
  = (Err (DevcToDockerError EngineUnavailable), tr).
Proof.
  intros H. unfold devc_to_docker, _ensure_docker_available. rewrite H. cbn [negb].
  exact (bind_err (raise (DevcToDockerError EngineUnavailable)) _ tr _ tr eq_refl).
Qed.

Lemma docker_missing_stops_first_witness :
  devc_to_docker world_without_docker "abc123" None None None false false []
  = (Err (DevcToDockerError EngineUnavailable), []).
Proof.
  apply (docker_missing_stops_first world_without_docker). reflexivity.
Defined.

(** X7. When [docker inspect] exits with an error the run fails with that
    [CalledProcessError], and when it prints an empty array the run fails
    with [NotFound]; either way the inspection is the only event. *)
Theorem inspect_failure_stops_run (W : World) (cid : string)
  (output_tag stage_tag temp_root : option string)
  (keep_temp keep_intermediate : bool) (tr : list event) :
  which_docker W = true ->
  (succeeds W tr (Docker ["inspect"; cid]) = false ->
   devc_to_docker W cid output_tag stage_tag temp_root keep_temp keep_intermediate tr
   = (Err (CalledProcessError ["inspect"; cid]),
      tr ++ [Did (Docker ["inspect"; cid]) false]))
  /\ (succeeds W tr (Docker ["inspect"; cid]) = true ->
      inspect_json W (tr ++ [Did (Docker ["inspect"; cid]) true]) cid = [] ->
      devc_to_docker W cid output_tag stage_tag temp_root keep_temp keep_intermediate tr
      = (Err (DevcToDockerError (NotFound cid)),
         tr ++ [Did (Docker ["inspect"; cid]) true])).
Proof.
  intros Hw.
  assert (start : forall k : unit -> M DevcToDockerResult,
             bind (_ensure_docker_available W) k tr = k tt tr).
  { intros k. unfold _ensure_docker_available. rewrite Hw. cbn [negb].
    exact (bind_ok (ret tt) _ tr tt tr eq_refl). }
  split.
  - intros Hs. unfold devc_to_docker. rewrite start.
    apply bind_err. unfold _inspect_container, _run_docker.
    apply bind_err. unfold perform. now rewrite Hs.
  - intros Hs Hj. unfold devc_to_docker. rewrite start.
    apply bind_err. unfold _inspect_container, _run_docker.
    assert (P : perform W (Docker ["inspect"; cid]) tr
                = (Ok tt, tr ++ [Did (Docker ["inspect"; cid]) true]))
      by (unfold perform; now rewrite Hs).
    rewrite (bind_ok _ _ _ _ _ P). now rewrite Hj.
Qed.

Lemma inspect_failure_stops_run_witness :
  devc_to_docker (world_of [abc123_info] [host_proj] (is_verb "inspect"))
    "abc123" None None None false false []
  = (Err (CalledProcessError ["inspect"; "abc123"]),
     [Did (Docker ["inspect"; "abc123"]) false])
  /\ devc_to_docker (world_of [] [host_proj] never)
       "gone" None None None false false []
     = (Err (DevcToDockerError (NotFound "gone")),
        [Did (Docker ["inspect"; "gone"]) true]).
Proof.
  split.
  - apply (proj1 (inspect_failure_stops_run
                    (world_of [abc123_info] [host_proj] (is_verb "inspect"))
                    "abc123" None None None false false [] eq_refl)).
    reflexivity.
  - apply (proj2 (inspect_failure_stops_run (world_of [] [host_proj] never)
                    "gone" None None None false false [] eq_refl));
      reflexivity.
Defined.

(** ** The flags *)

Section Flags.

Lemma guarded_not_cleanup (evs : list event) (p : Path) (ok : bool) :
  Forall guarded_event evs -> ~ In (Did (RmtreeIgnoreErrors p) ok) evs.
Proof.
  intros F I. rewrite Forall_forall in F. specialize (F _ I). discriminate F.
Qed.

Lemma rmi_events_not_cleanup (image : string) (untagged : bool) (p : Path) (ok : bool) :
  ~ In (Did (RmtreeIgnoreErrors p) ok) (rmi_events image untagged).
Proof.
  unfold rmi_events. destruct untagged; simpl; intros H;
    repeat (destruct H as [H | H]; [discriminate H|]); exact H.
Qed.

Lemma kept_teardown_not_cleanup (name : string) (dir : Path)
  (stopped removed cleaned : bool) (p : Path) (ok : bool) :
  ~ In (Did (RmtreeIgnoreErrors p) ok)
      (teardown_events name dir true stopped removed cleaned).
Proof.
  simpl. intros H. repeat (destruct H as [H | H]; [discriminate H|]). exact H.
Qed.

End Flags.

(** X9. A failure to remove the intermediate image does not fail the
    run: whenever a [docker rmi] failed, the run returned its result, and
    the trace ends with that command and the warning about it. *)
Theorem rmi_failure_is_a_warning (W : World) (cid : string)
  (output_tag stage_tag temp_root : option string)
  (keep_temp keep_intermediate : bool) r tr (args : list string) :
  devc_to_docker W cid output_tag stage_tag temp_root keep_temp keep_intermediate []
  = (r, tr) ->
  In (Did (Docker ("rmi" :: args)) false) tr ->
  exists res before,
    r = Ok res
    /\ tr = before ++ [Did (Docker ["rmi"; intermediate_image res]) false;
                       Warned (CouldNotRemoveIntermediate (intermediate_image res))].
Proof.
  intros H I.
  apply devc_to_docker_shape in H. destruct H as [image [name [evs [-> Sh]]]].
  simpl in I |- *. inversion Sh; subst.
  - exfalso. exact (before_start_not_rmi _ _ _ H I).
  - exfalso. apply (no_rmi_up_to_teardown pre mid image name dir keep_temp
                      stopped removed cleaned H H1).
    now exists args, false.
  - destruct keep_intermediate.
    + exfalso. rewrite app_nil_r in I.
      apply (no_rmi_up_to_teardown pre mid (intermediate_image res) name
               (temp_dir res) keep_temp stopped removed cleaned H0 H2).
      now exists args, false.
    + assert (U : untagged = false).
      { rewrite !app_assoc in I. apply in_app_or in I. destruct I as [I | I].
        - exfalso. rewrite <- !app_assoc in I.
          apply (no_rmi_up_to_teardown pre mid (intermediate_image res) name
                   (temp_dir res) keep_temp stopped removed cleaned H0 H2).
          now exists args, false.
        - unfold rmi_events in I. destruct untagged; [|reflexivity].
          destruct I as [I | []]. discriminate I. }
      subst untagged. exists res. eexists. split; [reflexivity|].
      unfold rmi_events. rewrite !app_assoc. reflexivity.
Qed.

Lemma rmi_failure_is_a_warning_witness :
  exists res before,
    fst (devc_to_docker (world_of [abc123_info] [host_proj] (is_verb "rmi"))
           "abc123" None None None false false []) = Ok res
    /\ snd (devc_to_docker (world_of [abc123_info] [host_proj] (is_verb "rmi"))
              "abc123" None None None false false [])
       = before ++ [Did (Docker ["rmi"; intermediate_image res]) false;
                    Warned (CouldNotRemoveIntermediate (intermediate_image res))].
Proof.
  apply (rmi_failure_is_a_warning
           (world_of [abc123_info] [host_proj] (is_verb "rmi"))
           "abc123" None None None false false _ _
           ["devc_to_docker/My-App:20240101120000-stage"]).
  - apply surjective_pairing.
  - vm_compute. do 14 right. left. reflexivity.
Defined.

(** X10. Tags given by the caller are used as they are: the final tag of
    a run that succeeds is the tag given, and its intermediate tag is the
    one given or, without one, the final tag followed by -stage. *)
Theorem explicit_tags_verbatim (W : World) (cid tag : string)
  (stage_tag temp_root : option string) (keep_temp keep_intermediate : bool)
  res tr :
  devc_to_docker W cid (Some tag) stage_tag temp_root keep_temp keep_intermediate []
  = (Ok res, tr) ->
  final_image res = tag
  /\ intermediate_image res
     = match stage_tag with
       | Some stage => stage
       | None => (tag ++ "-stage")%string
       end.
Proof.
  intros H.
  destruct (devc_to_docker_tags W _ _ _ _ _ _ _ _ _ H)
    as [inspect_info [container_name [_ [_ [F I]]]]].
  simpl in F. rewrite I, F. split; [reflexivity|].
  destruct stage_tag; reflexivity.
Qed.

Lemma explicit_tags_verbatim_witness :
  "team/app:v1" = "team/app:v1"
  /\ "team/app:v1-stage" = ("team/app:v1" ++ "-stage")%string.
Proof.
  apply (explicit_tags_verbatim (world_of [abc123_info] [host_proj] never)
           "abc123" "team/app:v1" None None false false
           (mkResult "abc123" "team/app:v1" "team/app:v1-stage" scenario_temp_dir
              [workspace_copy])
           (snd (devc_to_docker (world_of [abc123_info] [host_proj] never)
                   "abc123" (Some "team/app:v1") None None false false []))).
  vm_compute. reflexivity.
Defined.

(** ** The guarded steps and the teardown *)

Section Guarded.

Variable W : World.

Lemma restore_and_commit_unfold (inspect_info : InspectInfo)
  (temp_container_name output_image : string) (temp_dir : Path)
  (copies : list CopySpec) (keep_temp : bool) :
  restore_and_commit W inspect_info temp_container_name output_image
    temp_dir copies keep_temp
  = try_finally
      (guarded_steps W inspect_info temp_container_name output_image copies)
      (teardown W temp_container_name temp_dir keep_temp).
Proof. reflexivity. Qed.

Lemma restore_one_restore_events (temp_container : string) (spec : CopySpec) :
  emits restore_event (restore_one W temp_container spec).
Proof.
  unfold restore_one, _run_docker.
  apply emits_bind; [|intros _].
  { apply emits_try_except; [now apply emits_perform|].
    intros _. now apply emits_emit. }
  apply emits_bind; [|intros _; now apply emits_perform].
  apply emits_try_except; [now apply emits_perform|].
  intros _. apply emits_raise.
Qed.

Lemma restore_restore_events (temp_container : string) (copies : list CopySpec) :
  emits restore_event (_restore_bind_mounts W temp_container copies).
Proof.
  induction copies as [|spec rest IH]; cbn [_restore_bind_mounts].
  - apply emits_ret.
  - apply emits_bind; [apply restore_one_restore_events | intros _; exact IH].
Qed.

Lemma restore_not_commit (evs : list event) :
  Forall restore_event evs -> ~ issues_commit evs.
Proof.
  intros F [args [ok I]]. rewrite Forall_forall in F. specialize (F _ I).
  discriminate F.
Qed.

End Guarded.

Lemma teardown_keeps_outcome_aux (W : World) (inspect_info : InspectInfo)
  (temp_container_name output_image : string) (temp_dir : Path)
  (copies : list CopySpec) (keep_temp : bool) (tr : list event) :
  exists stopped removed cleaned,
    restore_and_commit W inspect_info temp_container_name output_image
      temp_dir copies keep_temp tr
    = (fst (guarded_steps W inspect_info temp_container_name output_image copies tr),
       snd (guarded_steps W inspect_info temp_container_name output_image copies tr)
       ++ teardown_events temp_container_name temp_dir keep_temp
            stopped removed cleaned).
Proof.
  rewrite restore_and_commit_unfold. unfold try_finally.
  destruct (guarded_steps W inspect_info temp_container_name output_image copies tr)
    as [r tr1].
  destruct (teardown_run W temp_container_name temp_dir keep_temp tr1)
    as [stopped [removed [cleaned T]]].
  rewrite T. now exists stopped, removed, cleaned.
Qed.

(** X11. The teardown never changes the outcome of the guarded steps:
    restore, translation and final commit return or fail as they would
    alone, whether or not stopping the container, removing it and
    removing the temp directory succeed, and the events of the teardown
    follow theirs. *)
Theorem teardown_keeps_outcome (W : World) (inspect_info : InspectInfo)
  (temp_container_name output_image : string) (temp_dir : Path)
  (copies : list CopySpec) (keep_temp : bool) (tr : list event) :
  exists stopped removed cleaned,
    restore_and_commit W inspect_info temp_container_name output_image
      temp_dir copies keep_temp tr
    = (fst (guarded_steps W inspect_info temp_container_name output_image copies tr),
       snd (guarded_steps W inspect_info temp_container_name output_image copies tr)
       ++ teardown_events temp_container_name temp_dir keep_temp
            stopped removed cleaned).
Proof. apply teardown_keeps_outcome_aux. Qed.

(** X12. With a [null] configuration the guarded steps never reach the
    final commit: they fail, with [AttributeError] once the mounts are
    restored, no image commit is asked for, and the teardown follows. *)
Theorem null_config_never_commits (W : World) (inspect_info : InspectInfo)
  (temp_container_name output_image : string) (temp_dir : Path)
  (copies : list CopySpec) (keep_temp : bool) (tr : list event) :
  Config inspect_info = Null ->
  exists e evs stopped removed cleaned,
    restore_and_commit W inspect_info temp_container_name output_image
      temp_dir copies keep_temp tr
    = (Err e, tr ++ evs ++ teardown_events temp_container_name temp_dir keep_temp
                             stopped removed cleaned)
    /\ ~ issues_commit (evs ++ teardown_events temp_container_name temp_dir
                                 keep_temp stopped removed cleaned)
    /\ (fst (_restore_bind_mounts W temp_container_name copies tr) = Ok tt ->
        e = AttributeError).
Proof.
  intros Hc.
  destruct (teardown_keeps_outcome_aux W inspect_info temp_container_name
              output_image temp_dir copies keep_temp tr)
    as [stopped [removed [cleaned E]]].
  rewrite E. clear E.
  unfold guarded_steps. rewrite Hc. cbn [get_default _build_commit_changes].
  destruct (_restore_bind_mounts W temp_container_name copies tr)
    as [[u|e] tr1] eqn:R;
    destruct (restore_restore_events W _ _ _ _ _ R) as [evs [-> F]].
  - rewrite (bind_ok _ _ _ _ _ R).
    rewrite (bind_err (lift (Err AttributeError)) _ _ _ _ eq_refl).
    exists AttributeError, evs, stopped, removed, cleaned. cbn [fst snd].
    rewrite <- app_assoc. split; [reflexivity|]. split; [|reflexivity].
    intros [args [ok I]]. apply in_app_or in I. destruct I as [I | I].
    + apply (restore_not_commit evs F). now exists args, ok.
    + unfold teardown_events in I. destruct keep_temp; simpl in I;
        repeat (destruct I as [I | I]; [discriminate I|]); exact I.
  - rewrite (bind_err _ _ _ _ _ R).
    exists e, evs, stopped, removed, cleaned. cbn [fst snd].
    rewrite <- app_assoc. split; [reflexivity|]. split; [|discriminate].
    intros [args [ok I]]. apply in_app_or in I. destruct I as [I | I].
    + apply (restore_not_commit evs F). now exists args, ok.
    + unfold teardown_events in I. destruct keep_temp; simpl in I;
        repeat (destruct I as [I | I]; [discriminate I|]); exact I.
Qed.

Lemma null_config_never_commits_witness :
  exists e evs stopped removed cleaned,
    restore_and_commit (world_of [null_config_info] [host_proj] never)
      null_config_info "devc-to-docker-My-App-20240101120000"
      "devc_to_docker/My-App:20240101120000" scenario_temp_dir
      [workspace_copy] false []
    = (Err e, [] ++ evs
              ++ teardown_events "devc-to-docker-My-App-20240101120000"
                   scenario_temp_dir false stopped removed cleaned)
    /\ ~ issues_commit
           (evs ++ teardown_events "devc-to-docker-My-App-20240101120000"
                     scenario_temp_dir false stopped removed cleaned)
    /\ (fst (_restore_bind_mounts (world_of [null_config_info] [host_proj] never)
               "devc-to-docker-My-App-20240101120000" [workspace_copy] [])
        = Ok tt ->
        e = AttributeError).
Proof.
  apply (null_config_never_commits (world_of [null_config_info] [host_proj] never)
           null_config_info).
  reflexivity.
Defined.

(** ** The steps of the staging *)

Section StagingSteps.

Variable W : World.

Lemma stage_one_missing (mount : BindMount) (temp_dir : Path) (tr : list event) :
  path_exists W tr (source mount) = false ->
  stage_one W mount temp_dir tr
  = (Err (DevcToDockerError (SourceMissing (source mount))), tr).
Proof.
  intros H. unfold stage_one.
  rewrite (bind_ok (exists_ W (source mount)) _ tr _ tr eq_refl).
  rewrite H. cbn [negb].
  now rewrite (bind_err (raise _) _ tr _ tr eq_refl).
Qed.

(** X13. Staging one mount that is there does, in this order: create the
    parent of the staging path; if something is already at the staging
    path, remove it, as a tree when it is a directory and as a file
    otherwise; copy the source, as a tree when it is a directory and as a
    file otherwise.  Nothing else is done. *)
Theorem stage_one_steps (mount : BindMount) (temp_dir : Path)
  (tr : list event) spec tr' :
  wf_mount mount ->
  stage_one W mount temp_dir tr = (Ok spec, tr') ->
  let target := staged_at temp_dir (destination mount) in
  let tr1 := tr ++ [Did (Mkdir (parent target)) true] in
  let stale :=
    if path_exists W tr1 target
    then [Did (if path_is_dir W tr1 target then Rmtree target else Unlink target)
            true]
    else [] in
  let tr2 := tr1 ++ stale in
  path_exists W tr (source mount) = true
  /\ tr' = tr2 ++ [Did (if path_is_dir W tr2 (source mount)
                        then Copytree (source mount) target
                        else Copy2 (source mount) target) true].
Proof.
  intros Hwf H. cbv zeta. unfold stage_one in H.
  rewrite (bind_ok (exists_ W (source mount)) _ tr _ tr eq_refl) in H.
  destruct (path_exists W tr (source mount)); cbn [negb] in H;
    [|rewrite (bind_err (raise _) _ tr _ tr eq_refl) in H; discriminate H].
  split; [reflexivity|].
  rewrite (bind_ok (ret tt) _ tr tt tr eq_refl) in H.
  destruct (relative_of_cases (destination mount) tr Hwf) as [[_ R] | [N R]];
    [rewrite (bind_err _ _ _ _ _ R) in H; discriminate H|].
  rewrite (bind_ok _ _ _ _ _ R) in H.
  change (joinpath temp_dir (strip_root (destination mount)))
    with (staged_at temp_dir (destination mount)) in H.
  set (target := staged_at temp_dir (destination mount)) in *.
  destruct (perform_cases W (Mkdir (parent target)) tr) as [E1 | E1];
    [rewrite (bind_ok _ _ _ _ _ E1) in H
    | rewrite (bind_err _ _ _ _ _ E1) in H; discriminate H].
  set (tr1 := tr ++ [Did (Mkdir (parent target)) true]) in *.
  rewrite (bind_ok (exists_ W target) _ tr1 _ tr1 eq_refl) in H.
  set (stale := if path_exists W tr1 target
                then [Did (if path_is_dir W tr1 target
                           then Rmtree target else Unlink target) true]
                else []).
  match type of H with
  | bind ?c _ tr1 = _ =>
      assert (C : c tr1 = (Ok tt, tr1 ++ stale) \/ exists e t, c tr1 = (Err e, t))
  end.
  { unfold stale. destruct (path_exists W tr1 target);
      [|left; unfold ret; now rewrite app_nil_r].
    rewrite (bind_ok (is_dir W target) _ tr1 _ tr1 eq_refl).
    destruct (path_is_dir W tr1 target);
      [destruct (perform_cases W (Rmtree target) tr1) as [E | E]
      | destruct (perform_cases W (Unlink target) tr1) as [E | E]];
      rewrite E; [left | right | left | right]; try reflexivity; now do 2 eexists. }
  destruct C as [E2 | [e [t E2]]];
    [rewrite (bind_ok _ _ _ _ _ E2) in H
    | rewrite (bind_err _ _ _ _ _ E2) in H; discriminate H].
  set (tr2 := tr1 ++ stale) in *.
  rewrite (bind_ok (is_dir W (source mount)) _ tr2 _ tr2 eq_refl) in H.
  destruct (path_is_dir W tr2 (source mount)).
  - destruct (perform_cases W (Copytree (source mount) target) tr2) as [E | E];
      [rewrite (bind_ok _ _ _ _ _ E) in H
      | rewrite (bind_err _ _ _ _ _ E) in H; discriminate H].
    now inversion H.
  - destruct (perform_cases W (Copy2 (source mount) target) tr2) as [E | E];
      [rewrite (bind_ok _ _ _ _ _ E) in H
      | rewrite (bind_err _ _ _ _ _ E) in H; discriminate H].
    now inversion H.
Qed.

End StagingSteps.

Lemma stage_one_steps_witness :
  let mount := mkBindMount host_proj (of_string "/workspace") in
  let target := staged_at scenario_temp_dir (of_string "/workspace") in
  path_exists fresh_host [] host_proj = true
  /\ [Did (Mkdir scenario_temp_dir) true; Did (Copytree host_proj target) true]
     = (([] ++ [Did (Mkdir (parent target)) true])
        ++ (if path_exists fresh_host ([] ++ [Did (Mkdir (parent target)) true]) target
            then [Did (if path_is_dir fresh_host
                            ([] ++ [Did (Mkdir (parent target)) true]) target
                       then Rmtree target else Unlink target) true]
            else []))
       ++ [Did (if path_is_dir fresh_host
                     (([] ++ [Did (Mkdir (parent target)) true])
                      ++ (if path_exists fresh_host
                               ([] ++ [Did (Mkdir (parent target)) true]) target
                          then [Did (if path_is_dir fresh_host
                                         ([] ++ [Did (Mkdir (parent target)) true])
                                         target
                                     then Rmtree target else Unlink target) true]
                          else []))
                     host_proj
                then Copytree host_proj target
                else Copy2 host_proj target) true].
Proof.
  intros mount target.
  apply (stage_one_steps fresh_host mount scenario_temp_dir []
           (staged scenario_temp_dir mount)).
  - apply of_string_wf.
  - vm_compute. reflexivity.
Defined.

(** X14. A mount whose source is not on the host is rejected with
    [SourceMissing] when its turn comes: the mounts before it have been
    staged, and nothing is done for it or for the mounts after it. *)
Theorem missing_source_stops_staging (W : World) (before : list BindMount)
  (mount : BindMount) (after : list BindMount) (temp_dir : Path)
  (tr : list event) (staged_before : list CopySpec) (tr1 : list event) :
  _copy_bind_mounts_to_tmp W before temp_dir tr = (Ok staged_before, tr1) ->
  path_exists W tr1 (source mount) = false ->
  _copy_bind_mounts_to_tmp W (before ++ mount :: after) temp_dir tr
  = (Err (DevcToDockerError (SourceMissing (source mount))), tr1).
Proof.
  unfold _copy_bind_mounts_to_tmp. intros H E.
  rewrite copy_loop_app, (bind_ok _ _ _ _ _ H). cbn [copy_loop].
  now rewrite (bind_err _ _ _ _ _ (stage_one_missing W mount temp_dir tr1 E)).
Qed.

Lemma missing_source_stops_staging_witness :
  _copy_bind_mounts_to_tmp fresh_host
    ([mkBindMount host_proj (of_string "/workspace")]
     ++ mkBindMount (of_string "/host/gone") (of_string "/data")
        :: [mkBindMount host_proj (of_string "/more")])
    scenario_temp_dir []
  = (Err (DevcToDockerError (SourceMissing (of_string "/host/gone"))),
     [Did (Mkdir scenario_temp_dir) true;
      Did (Copytree host_proj (of_string "/tmp/devc_to_docker_k3v9x2ab/workspace"))
        true]).
Proof.
  apply (missing_source_stops_staging fresh_host
           [mkBindMount host_proj (of_string "/workspace")]
           (mkBindMount (of_string "/host/gone") (of_string "/data"))
           [mkBindMount host_proj (of_string "/more")]
           scenario_temp_dir [] [workspace_copy]).
  - vm_compute. reflexivity.
  - vm_compute. reflexivity.
Defined.

(** ** Where the restored content lands *)

Section Landing.

Lemma last_app_nonempty (l m : list string) :
  m <> [] -> List.last (l ++ m) "" = List.last m "".
Proof.
  intros H. rewrite (app_removelast_last "" H), app_assoc.
  now rewrite !last_last.
Qed.

End Landing.

(** X15. Staging and restoring agree on the leaf: for a destination with
    at least one segment, the staged path has the name of the
    destination, the restore step creates the parent of the destination,
    and the copy into that parent, which keeps the name of what is copied,
    lands exactly on the destination, the path the removal cleared. *)
Theorem restore_lands_on_destination (temp_dir d : Path) :
  tail d <> [] ->
  Path_name (staged_at temp_dir d) = Path_name d
  /\ destination_parent_of d = parent d
  /\ cp_lands_at (destination_parent_of d) (staged_at temp_dir d) = d.
Proof.
  intros H.
  assert (N : Path_name (staged_at temp_dir d) = Path_name d)
    by (unfold Path_name, staged_at; cbn [tail]; now apply last_app_nonempty).
  assert (P : destination_parent_of d = parent d)
    by (unfold destination_parent_of; now rewrite (parent_differs d H)).
  split; [exact N|]. split; [exact P|].
  unfold cp_lands_at. rewrite N, P. unfold joinpath, parent, Path_name.
  cbn [root tail truthy String.eqb negb].
  rewrite <- (app_removelast_last "" H). now destruct d.
Qed.

Lemma restore_lands_on_destination_witness :
  Path_name (staged_at scenario_temp_dir (of_string "/workspace/app"))
  = Path_name (of_string "/workspace/app")
  /\ destination_parent_of (of_string "/workspace/app")
     = parent (of_string "/workspace/app")
  /\ cp_lands_at (destination_parent_of (of_string "/workspace/app"))
       (staged_at scenario_temp_dir (of_string "/workspace/app"))
     = of_string "/workspace/app".
Proof.
  apply restore_lands_on_destination. vm_compute. discriminate.
Defined.

(** ** What the host is asked to remove *)

Section Removals.

Variable W : World.

Lemma removed_paths_app (evs1 evs2 : list event) :
  removed_paths (evs1 ++ evs2) = removed_paths evs1 ++ removed_paths evs2.
Proof. apply flat_map_app. Qed.

Lemma removes_among_paths (targets : list Path) (evs : list event) :
  Forall (removes_among targets) evs -> incl (removed_paths evs) targets.
Proof.
  induction 1 as [|ev evs Hev _ IH]; [intros p []|].
  cbn [removed_paths flat_map]. unfold removes_among in Hev.
  destruct (removal_target ev) as [q|]; [|exact IH].
  intros p [<- | I]; [exact Hev | now apply IH].
Qed.

Lemma restore_removes_nothing (evs : list event) :
  Forall restore_event evs -> removed_paths evs = [].
Proof.
  induction 1 as [|ev evs Hev _ IH]; [reflexivity|].
  cbn [removed_paths flat_map]. fold (removed_paths evs). rewrite IH.
  destruct ev as [[] ok|w]; try discriminate Hev; reflexivity.
Qed.

(** The only thing the staging of one mount removes is what is already
    at its staging path. *)
Lemma stage_one_removals (mount : BindMount) (temp_dir : Path) :
  wf_mount mount ->
  emits (removes_among [staged_at temp_dir (destination mount)])
    (stage_one W mount temp_dir).
Proof.
  intros Hwf tr r tr' E. unfold stage_one in E.
  rewrite (bind_ok (exists_ W (source mount)) _ tr _ tr eq_refl) in E.
  destruct (path_exists W tr (source mount)); cbn [negb] in E.
  2:{ rewrite (bind_err (raise _) _ tr _ tr eq_refl) in E. inversion E; subst.
      exists []. rewrite app_nil_r. now split. }
  rewrite (bind_ok (ret tt) _ tr tt tr eq_refl) in E.
  destruct (relative_of_cases (destination mount) tr Hwf) as [[_ R] | [N R]].
  { rewrite (bind_err _ _ _ _ _ R) in E. inversion E; subst.
    exists []. rewrite app_nil_r. now split. }
  rewrite (bind_ok _ _ _ _ _ R) in E.
  change (joinpath temp_dir (strip_root (destination mount)))
    with (staged_at temp_dir (destination mount)) in E.
  set (target := staged_at temp_dir (destination mount)) in *.
  match type of E with
  | ?c tr = _ => assert (Em : emits (removes_among [target]) c)
  end.
  { apply emits_bind; [apply emits_perform; intros ok; exact I | intros _].
    apply emits_bind; [apply emits_exists | intros target_exists].
    apply emits_bind; [|intros _].
    { destruct target_exists; [|apply emits_ret].
      apply emits_bind; [apply emits_is_dir | intros []];
        apply emits_perform; intros ok; now left. }
    apply emits_bind; [apply emits_is_dir | intros source_is_dir].
    apply emits_bind; [|intros _; apply emits_ret].
    destruct source_is_dir; apply emits_perform; intros ok; exact I. }
  exact (Em _ _ _ E).
Qed.

Lemma copy_loop_removals (bind_mounts : list BindMount) (temp_dir : Path) :
  Forall wf_mount bind_mounts ->
  forall copies,
    emits (removes_among
             (map (fun m => staged_at temp_dir (destination m)) bind_mounts))
      (copy_loop W bind_mounts temp_dir copies).
Proof.
  induction 1 as [|m rest Hm _ IH]; intros copies; cbn [copy_loop map].
  - apply emits_ret.
  - apply emits_bind.
    + eapply emits_weaken; [|exact (stage_one_removals m temp_dir Hm)].
      intros ev. unfold removes_among.
      destruct (removal_target ev); [|trivial]. intros [<- | []]. now left.
    + intros spec. eapply emits_weaken; [|apply IH].
      intros ev. unfold removes_among.
      destruct (removal_target ev); [|trivial]. intros K. now right.
Qed.

Lemma staged_host_paths (temp_dir : Path) (bind_mounts : list BindMount) :
  map host_path (map (staged temp_dir) bind_mounts)
  = map (fun m => staged_at temp_dir (destination m)) bind_mounts.
Proof. rewrite map_map. reflexivity. Qed.

End Removals.

(** ** What a run that succeeds returns *)

Section SuccessfulRun.

Variable W : World.

Lemma build_commit_changes_directives (config : ContainerConfig) :
  _build_commit_changes (Some config) = Ok (directives_of config).
Proof.
  destruct config as [ep cmd wd us].
  unfold _build_commit_changes, directives_of. simpl.
  destruct ep as [| |[|e ep]], cmd as [| |[|c cmd]],
    wd as [| |[|w wd]], us as [| |[|u us]]; reflexivity.
Qed.

Lemma guarded_steps_ok (inspect_info : InspectInfo)
  (temp_container_name output_image : string) (copies : list CopySpec)
  (tr : list event) u tr1 :
  guarded_steps W inspect_info temp_container_name output_image copies tr
  = (Ok u, tr1) ->
  exists config mid,
    get_default (Config inspect_info) empty_config = Some config
    /\ Forall restore_event mid
    /\ docker_commands mid = flat_map (restore_plan temp_container_name) copies
    /\ tr1 = tr ++ mid
             ++ [Did (Docker (final_commit_argv (directives_of config)
                                temp_container_name output_image)) true].
Proof.
  unfold guarded_steps, _run_docker. intros H.
  destruct (_restore_bind_mounts W temp_container_name copies tr)
    as [[v|e] tr2] eqn:R;
    [rewrite (bind_ok _ _ _ _ _ R) in H
    | rewrite (bind_err _ _ _ _ _ R) in H; discriminate H].
  destruct (restore_restore_events W _ _ _ _ _ R) as [mid [-> F]].
  destruct (restore_run_complete W temp_container_name copies tr)
    as [r' [evs [R' [_ Dc]]]].
  rewrite R in R'. inversion R' as [[Hr Ht]]. apply app_inv_head in Ht. subst evs.
  specialize (Dc v (eq_sym Hr)).
  destruct (get_default (Config inspect_info) empty_config) as [config|].
  2:{ change (_build_commit_changes None)
        with (@Err (list string) AttributeError) in H.
      rewrite (bind_err (lift (Err AttributeError)) _ _ _ _ eq_refl) in H.
      discriminate H. }
  rewrite build_commit_changes_directives in H.
  rewrite (bind_ok (lift (Ok (directives_of config))) _ _ _ _ eq_refl) in H.
  destruct (perform_cases W
              (Docker (final_commit_argv (directives_of config)
                         temp_container_name output_image))
              (tr ++ mid)) as [C | C]; rewrite C in H; [|discriminate H].
  inversion H; subst. exists config, mid. rewrite <- app_assoc. now repeat split.
Qed.

Lemma capture_and_fold_ok (cid : string) (inspect_info : InspectInfo)
  (sanitized_name timestamp final_tag stage_tag : string)
  (temp_root : option string) (keep_temp keep_intermediate : bool)
  (tr : list event) res tr' :
  capture_and_fold W cid inspect_info sanitized_name timestamp
    final_tag stage_tag temp_root keep_temp keep_intermediate tr
  = (Ok res, tr') ->
  exists mounts,
    get_default (Mounts inspect_info) [] = Some mounts
    /\ existsb has_null_path (filter is_bind mounts) = false
    /\ filter is_bind mounts <> []
    /\ container_id res = cid
    /\ copied_mounts res
       = map (staged (temp_dir res)) (map bind_mount_of (filter is_bind mounts))
    /\ final_image res = final_tag
    /\ intermediate_image res = stage_tag
    /\ exists config staging mid stopped removed cleaned untagged,
         get_default (Config inspect_info) empty_config = Some config
         /\ Forall staging_event staging
         /\ In (temp_dir res)
              (temp_dirs W (tr ++ [Did (Docker ["commit"; cid; stage_tag]) true])
                 staging)
         /\ incl (removed_paths staging) (map host_path (copied_mounts res))
         /\ Forall restore_event mid
         /\ docker_commands mid
            = flat_map (restore_plan (temp_container_name_of sanitized_name
                                        timestamp)) (copied_mounts res)
         /\ tr' = tr
                  ++ [Did (Docker ["commit"; cid; stage_tag]) true]
                  ++ staging
                  ++ [Did (Docker (run_argv stage_tag
                                     (temp_container_name_of sanitized_name
                                        timestamp))) true]
                  ++ mid
                  ++ [Did (Docker (final_commit_argv (directives_of config)
                                     (temp_container_name_of sanitized_name
                                        timestamp) final_tag)) true]
                  ++ teardown_events
                       (temp_container_name_of sanitized_name timestamp)
                       (temp_dir res) keep_temp stopped removed cleaned
                  ++ (if keep_intermediate then []
                      else rmi_events stage_tag untagged).
Proof.
  unfold capture_and_fold, _copy_bind_mounts_to_tmp,
    _start_keepalive_container, _run_docker.
  intros H.
  destruct (get_default (Mounts inspect_info) []) as [mounts|];
    [|discriminate H].
  exists mounts. split; [reflexivity|].
  rewrite (bind_ok (ret mounts) _ tr mounts tr eq_refl) in H.
  pose proof (extracted_mounts_wf mounts) as Hwf.
  rewrite extract_result_aux in H, Hwf.
  destruct (existsb has_null_path (filter is_bind mounts)); [discriminate H|].
  split; [reflexivity|].
  specialize (Hwf _ eq_refl).
  set (bms := map bind_mount_of (filter is_bind mounts)) in *.
  rewrite (bind_ok (lift (Ok bms)) _ tr _ tr eq_refl) in H.
  assert (Hne : bms <> [] -> filter is_bind mounts <> []).
  { intros N E. apply N. unfold bms. now rewrite E. }
  destruct bms as [|m bms'] eqn:B; [discriminate H|].
  split; [apply Hne; discriminate|]. clear Hne.
  set (commit := Docker ["commit"; cid; stage_tag]) in *.
  destruct (perform_cases W commit tr) as [C | C];
    [rewrite (bind_ok _ _ _ _ _ C) in H
    | rewrite (bind_err _ _ _ _ _ C) in H; discriminate H].
  destruct (_resolve_temp_dir W temp_root (tr ++ [Did commit true]))
    as [[dir|e] tr2] eqn:R;
    [rewrite (bind_ok _ _ _ _ _ R) in H
    | rewrite (bind_err _ _ _ _ _ R) in H; discriminate H].
  destruct (resolve_temp_dir_events W _ _ _ _ R) as [evs2 [-> [F2 [T2 Q2]]]].
  specialize (T2 dir eq_refl).
  destruct (copy_loop W (m :: bms') dir [] ((tr ++ [Did commit true]) ++ evs2))
    as [[copies|e] tr3] eqn:S;
    [rewrite (bind_ok _ _ _ _ _ S) in H
    | rewrite (bind_err _ _ _ _ _ S) in H; discriminate H].
  destruct (copy_loop_events W _ _ _ _ _ _ S) as [evs3 [-> F3]].
  destruct (copy_loop_removals W (m :: bms') dir Hwf [] _ _ _ S)
    as [evs3' [E3 Q3]].
  apply app_inv_head in E3. subst evs3'. apply removes_among_paths in Q3.
  destruct (copy_loop_ok W (m :: bms') dir Hwf _ _ _ _ S) as [-> _].
  set (name := temp_container_name_of sanitized_name timestamp) in *.
  set (tr3 := ((tr ++ [Did commit true]) ++ evs2) ++ evs3) in *.
  destruct (perform_cases W (Docker (run_argv stage_tag name)) tr3) as [C' | C'];
    [rewrite (bind_ok _ _ _ _ _ C') in H
    | rewrite (bind_err _ _ _ _ _ C') in H; discriminate H].
  set (tr4 := tr3 ++ [Did (Docker (run_argv stage_tag name)) true]) in *.
  destruct (teardown_keeps_outcome_aux W inspect_info name final_tag dir
              ([] ++ map (staged dir) (m :: bms')) keep_temp tr4)
    as [stopped [removed [cleaned G]]].
  destruct (guarded_steps W inspect_info name final_tag
              ([] ++ map (staged dir) (m :: bms')) tr4) as [[u|e] tr5] eqn:Gs;
    cbn [fst snd] in G;
    [rewrite (bind_ok _ _ _ _ _ G) in H
    | rewrite (bind_err _ _ _ _ _ G) in H; discriminate H].
  destruct (guarded_steps_ok _ _ _ _ _ _ _ Gs) as [config [mid [Bc [Fm [Dm ->]]]]].
  match type of H with
  | bind _ _ ?t = _ =>
      destruct (rmi_run W stage_tag keep_intermediate t) as [untagged U]
  end.
  rewrite (bind_ok _ _ _ _ _ U) in H.
  inversion H; subst. cbn [container_id copied_mounts temp_dir final_image
                             intermediate_image app].
  do 4 (split; [reflexivity|]).
  exists config, (evs2 ++ evs3), mid, stopped, removed, cleaned, untagged.
  split; [exact Bc|]. split; [now apply Forall_app|].
  split; [rewrite temp_dirs_app; apply in_or_app; now left|].
  split; [rewrite removed_paths_app, Q2; rewrite <- staged_host_paths in Q3;
          exact Q3|].
  split; [exact Fm|]. split; [exact Dm|].
  unfold tr4, tr3. rewrite <- !app_assoc. reflexivity.
Qed.

End SuccessfulRun.

(** X16. A run that succeeds reports the container it was given and one
    CopySpec for each mount of type bind of the inspected container, in
    the order reported; there is at least one.  Each CopySpec keeps the
    destination of its mount and has as host path the temp directory of
    the result followed by the segments of that destination; when the
    destination has at least one segment and no segment [..], the host
    path lies inside the temp directory of the result. *)
Theorem successful_run_result (W : World) (cid : string)
  (output_tag stage_tag temp_root : option string)
  (keep_temp keep_intermediate : bool) res tr :
  devc_to_docker W cid output_tag stage_tag temp_root keep_temp keep_intermediate []
  = (Ok res, tr) ->
  exists inspect_info mounts,
    hd_error (inspect_json W [Did (Docker ["inspect"; cid]) true] cid)
    = Some inspect_info
    /\ get_default (Mounts inspect_info) [] = Some mounts
    /\ filter is_bind mounts <> []
    /\ container_id res = cid
    /\ copied_mounts res
       = map (staged (temp_dir res)) (map bind_mount_of (filter is_bind mounts))
    /\ Forall2 (mirrors (temp_dir res))
         (map bind_mount_of (filter is_bind mounts)) (copied_mounts res).
Proof.
  intros H.
  destruct (devc_to_docker_cases W cid output_tag stage_tag temp_root
              keep_temp keep_intermediate [])
    as [[e [evs [E F]]] | [inspect_info [container_name [Hj [Hn E]]]]];
    rewrite E in H; [discriminate H|].
  cbv zeta in H. apply capture_and_fold_ok in H.
  destruct H as [mounts [M [_ [N [I [C _]]]]]].
  exists inspect_info, mounts.
  split; [exact Hj|]. split; [exact M|]. split; [exact N|]. split; [exact I|].
  split; [exact C|]. rewrite C. apply staged_mirrors.
Qed.

Lemma successful_run_result_witness :
  exists inspect_info mounts,
    hd_error [abc123_info] = Some inspect_info
    /\ get_default (Mounts inspect_info) [] = Some mounts
    /\ filter is_bind mounts <> []
    /\ "abc123" = "abc123"
    /\ [workspace_copy]
       = map (staged scenario_temp_dir) (map bind_mount_of (filter is_bind mounts))
    /\ Forall2 (mirrors scenario_temp_dir)
         (map bind_mount_of (filter is_bind mounts)) [workspace_copy].
Proof.
  apply (successful_run_result fresh_host "abc123" None None None false false
           (mkResult "abc123" "devc_to_docker/My-App:20240101120000"
              "devc_to_docker/My-App:20240101120000-stage" scenario_temp_dir
              [workspace_copy])
           (snd (devc_to_docker fresh_host "abc123" None None None false false []))).
  vm_compute. reflexivity.
Defined.

(** X17. The whole trace of a run that succeeds: [docker inspect] of the
    container; [docker commit] of it to the intermediate tag of the
    result; staging operations on the host only, among them the
    [mkdtemp] of the reported temp directory; [docker run -d --name
    <name> --entrypoint /bin/sh <intermediate tag> -lc <idle loop>], the
    name being the first 60 characters of
    devc-to-docker-<slug>-<timestamp>; restore events only, whose
    commands are the removal, the creation of the parent and the copy for
    each CopySpec of the result in order; [docker commit] with one
    [--change] for each directive of the inspected configuration, in
    order, of the container of that name to the final tag of the result;
    the teardown of that container and of that directory; the removal of
    the intermediate image unless it is kept. *)
Theorem successful_run_trace (W : World) (cid : string)
  (output_tag stage_tag temp_root : option string)
  (keep_temp keep_intermediate : bool) res tr :
  devc_to_docker W cid output_tag stage_tag temp_root keep_temp keep_intermediate []
  = (Ok res, tr) ->
  exists inspect_info container_name config staging mid
         stopped removed cleaned untagged,
    hd_error (inspect_json W [Did (Docker ["inspect"; cid]) true] cid)
    = Some inspect_info
    /\ container_name_of inspect_info cid = Ok container_name
    /\ get_default (Config inspect_info) empty_config = Some config
    /\ Forall staging_event staging
    /\ In (temp_dir res)
         (temp_dirs W [Did (Docker ["inspect"; cid]) true;
                       Did (Docker ["commit"; cid; intermediate_image res]) true]
            staging)
    /\ Forall restore_event mid
    /\ let name :=
         take 60 ("devc-to-docker-" ++ _sanitize_name container_name
                  ++ "-" ++ utcnow W)%string in
       docker_commands mid = flat_map (restore_plan name) (copied_mounts res)
       /\ tr = [Did (Docker ["inspect"; cid]) true;
                Did (Docker ["commit"; cid; intermediate_image res]) true]
               ++ staging
               ++ [Did (Docker ["run"; "-d"; "--name"; name;
                                "--entrypoint"; "/bin/sh"; intermediate_image res;
                                "-lc"; "while true; do sleep 3600; done"]) true]
               ++ mid
               ++ [Did (Docker (["commit"]
                                ++ flat_map (fun change => ["--change"; change])
                                     (directives_of config)
                                ++ [name; final_image res])) true]
               ++ teardown_events name (temp_dir res) keep_temp
                    stopped removed cleaned
               ++ (if keep_intermediate then []
                   else rmi_events (intermediate_image res) untagged).
Proof.
  intros H.
  destruct (devc_to_docker_cases W cid output_tag stage_tag temp_root
              keep_temp keep_intermediate [])
    as [[e [evs [E F]]] | [inspect_info [container_name [Hj [Hn E]]]]];
    rewrite E in H; [discriminate H|].
  cbv zeta in H. apply capture_and_fold_ok in H.
  destruct H as [mounts [_ [_ [_ [_ [_ [Fi [In_
    [config [staging [mid [stopped [removed [cleaned [untagged
      [Bc [Fs [Td [_ [Fm [Dm Tr]]]]]]]]]]]]]]]]]]]]].
  exists inspect_info, container_name, config, staging, mid,
    stopped, removed, cleaned, untagged.
  rewrite temp_container_name_take in Dm, Tr.
  rewrite Fi, In_. cbn [app] in *.
  split; [exact Hj|]. split; [exact Hn|]. split; [exact Bc|]. split; [exact Fs|].
  split; [exact Td|]. split; [exact Fm|]. cbv zeta. split; [exact Dm | exact Tr].
Qed.

Lemma successful_run_trace_witness :
  exists inspect_info container_name config staging mid
         stopped removed cleaned untagged,
    hd_error [abc123_info] = Some inspect_info
    /\ container_name_of inspect_info "abc123" = Ok container_name
    /\ get_default (Config inspect_info) empty_config = Some config
    /\ Forall staging_event staging
    /\ In scenario_temp_dir
         (temp_dirs fresh_host
            [Did (Docker ["inspect"; "abc123"]) true;
             Did (Docker ["commit"; "abc123";
                          "devc_to_docker/My-App:20240101120000-stage"]) true]
            staging)
    /\ Forall restore_event mid
    /\ let name :=
         take 60 ("devc-to-docker-" ++ _sanitize_name container_name
                  ++ "-" ++ "20240101120000")%string in
       docker_commands mid = flat_map (restore_plan name) [workspace_copy]
       /\ snd (devc_to_docker fresh_host "abc123" None None None false false [])
          = [Did (Docker ["inspect"; "abc123"]) true;
             Did (Docker ["commit"; "abc123";
                          "devc_to_docker/My-App:20240101120000-stage"]) true]
            ++ staging
            ++ [Did (Docker ["run"; "-d"; "--name"; name;
                             "--entrypoint"; "/bin/sh";
                             "devc_to_docker/My-App:20240101120000-stage";
                             "-lc"; "while true; do sleep 3600; done"]) true]
            ++ mid
            ++ [Did (Docker (["commit"]
                             ++ flat_map (fun change => ["--change"; change])
                                  (directives_of config)
                             ++ [name; "devc_to_docker/My-App:20240101120000"]))
                  true]
            ++ teardown_events name scenario_temp_dir false stopped removed cleaned
            ++ (if false then []
                else rmi_events "devc_to_docker/My-App:20240101120000-stage"
                       untagged).
Proof.
  apply (successful_run_trace fresh_host "abc123" None None None false false
           (mkResult "abc123" "devc_to_docker/My-App:20240101120000"
              "devc_to_docker/My-App:20240101120000-stage" scenario_temp_dir
              [workspace_copy])).
  vm_compute. reflexivity.
Defined.

(** ** Keeping the temp directory *)

(** X8. With [keep_temp] no run, failed or not, issues the final
    [shutil.rmtree(temp_dir, ignore_errors=True)].  When the run succeeds,
    every path the host was asked to remove is the host path of a
    CopySpec of the result, the staging path the stager clears before it
    copies; so when every destination has at least one segment and no
    segment [..], every removal is of a path inside the temp directory of
    the result, never of that directory itself. *)
Theorem keep_temp_keeps (W : World) (cid : string)
  (output_tag stage_tag temp_root : option string) (keep_intermediate : bool)
  r tr :
  devc_to_docker W cid output_tag stage_tag temp_root true keep_intermediate []
  = (r, tr) ->
  ~ issues_cleanup tr
  /\ (forall res,
        r = Ok res ->
        incl (removed_paths tr) (map host_path (copied_mounts res))
        /\ (forallb (fun spec => names_a_place (cs_destination spec))
              (copied_mounts res) = true ->
            Forall (fun p => lies_inside p (temp_dir res) = true)
              (removed_paths tr))).
Proof.
  intros H. split.
  - intros [p [ok I]].
    apply devc_to_docker_shape in H. destruct H as [image [name [evs [-> Sh]]]].
    simpl in I. inversion Sh; subst.
    + exact (before_start_not_cleanup _ _ _ H I).
    + apply in_app_or in I. destruct I as [I | I];
        [exact (before_start_not_cleanup _ _ _ H I)|].
      apply in_app_or in I. destruct I as [[I | []] | I]; [discriminate I|].
      apply in_app_or in I. destruct I as [I | I];
        [exact (guarded_not_cleanup _ _ _ H1 I)
        | exact (kept_teardown_not_cleanup _ _ _ _ _ _ _ I)].
    + apply in_app_or in I. destruct I as [I | I];
        [exact (before_start_not_cleanup _ _ _ H0 I)|].
      apply in_app_or in I. destruct I as [[I | []] | I]; [discriminate I|].
      apply in_app_or in I. destruct I as [I | I];
        [exact (guarded_not_cleanup _ _ _ H2 I)|].
      apply in_app_or in I. destruct I as [I | I];
        [exact (kept_teardown_not_cleanup _ _ _ _ _ _ _ I)|].
      destruct keep_intermediate; [exact I|].
      exact (rmi_events_not_cleanup _ _ _ _ I).
  - intros res ->.
    destruct (devc_to_docker_cases W cid output_tag stage_tag temp_root
                true keep_intermediate [])
      as [[e [evs [E F]]] | [inspect_info [container_name [Hj [Hn E]]]]];
      rewrite E in H; [discriminate H|].
    cbv zeta in H. apply capture_and_fold_ok in H.
    destruct H as [mounts [_ [_ [_ [_ [C [_ [_
      [config [staging [mid [stopped [removed [cleaned [untagged
        [_ [_ [_ [Rm [Fm [_ Tr]]]]]]]]]]]]]]]]]]]]].
    assert (Q : removed_paths tr = removed_paths staging).
    { rewrite Tr. rewrite !removed_paths_app, (restore_removes_nothing mid Fm).
      unfold teardown_events, rmi_events.
      destruct keep_intermediate; [|destruct untagged];
        cbn [removed_paths flat_map removal_target app];
        now rewrite ?app_nil_r. }
    rewrite Q. split; [exact Rm|].
    intros Hp. apply Forall_forall. intros p I. apply Rm in I.
    rewrite C in I, Hp.
    apply in_map_iff in I. destruct I as [spec [<- I]].
    apply in_map_iff in I. destruct I as [m [<- I]].
    cbn [host_path staged]. apply staged_at_lies_inside.
    rewrite forallb_forall in Hp.
    exact (Hp (staged (temp_dir res) m) (in_map _ _ _ I)).
Qed.

Lemma keep_temp_keeps_witness :
  let run := devc_to_docker stale_host "abc123" None None None true false [] in
  ~ issues_cleanup (snd run)
  /\ (forall res,
        fst run = Ok res ->
        incl (removed_paths (snd run)) (map host_path (copied_mounts res))
        /\ (forallb (fun spec => names_a_place (cs_destination spec))
              (copied_mounts res) = true ->
            Forall (fun p => lies_inside p (temp_dir res) = true)
              (removed_paths (snd run)))).
Proof.
  intros run.
  apply (keep_temp_keeps stale_host "abc123" None None None false).
  vm_compute. reflexivity.
Defined.

(** ** The intermediate commit comes first *)

Section CommitFirst.

Variable W : World.

Lemma emits_resolve_temp_dir (temp_root : option string) :
  emits (fun _ => True) (_resolve_temp_dir W temp_root).
Proof.
  intros tr r tr' H.
  destruct (resolve_temp_dir_events W _ _ _ _ H) as [evs [-> _]].
  exists evs. split; [reflexivity|]. now apply Forall_forall.
Qed.

Lemma emits_restore_and_commit (inspect_info : InspectInfo)
  (temp_container_name output_image : string) (temp_dir : Path)
  (copies : list CopySpec) (keep_temp : bool) :
  emits (fun _ => True)
    (restore_and_commit W inspect_info temp_container_name output_image
       temp_dir copies keep_temp).
Proof.
  intros tr r tr' H.
  destruct (restore_and_commit_run W inspect_info temp_container_name
              output_image temp_dir copies keep_temp tr)
    as [r5 [mid [stopped [removed [cleaned [G _]]]]]].
  rewrite G in H. inversion H; subst. eexists. split; [reflexivity|].
  now apply Forall_forall.
Qed.

Lemma emits_rmi (stage_tag : string) (keep_intermediate : bool) :
  emits (fun _ => True)
    (if negb keep_intermediate then
       try_except_CalledProcessError
         (_run_docker W ["rmi"; stage_tag])
         (fun _ => emit (Warned (CouldNotRemoveIntermediate stage_tag)))
     else ret tt).
Proof.
  intros tr r tr' H.
  destruct (rmi_run W stage_tag keep_intermediate tr) as [untagged U].
  rewrite U in H. inversion H; subst. eexists. split; [reflexivity|].
  now apply Forall_forall.
Qed.

Lemma capture_and_fold_commit_first (cid : string) (inspect_info : InspectInfo)
  (sanitized_name timestamp final_tag stage_tag : string)
  (temp_root : option string) (keep_temp keep_intermediate : bool)
  (tr : list event) r tr' :
  capture_and_fold W cid inspect_info sanitized_name timestamp
    final_tag stage_tag temp_root keep_temp keep_intermediate tr
  = (r, tr') ->
  tr' = tr
  \/ exists ok rest,
       tr' = tr ++ Did (Docker ["commit"; cid; stage_tag]) ok :: rest
       /\ (ok = false -> rest = []).
Proof.
  unfold capture_and_fold, _copy_bind_mounts_to_tmp,
    _start_keepalive_container, _run_docker.
  intros H.
  destruct (get_default (Mounts inspect_info) []) as [mounts|];
    [|left; now inversion H].
  rewrite (bind_ok (ret mounts) _ tr mounts tr eq_refl) in H.
  destruct (_extract_bind_mounts mounts) as [[|m bind_mounts]|e];
    [left; now inversion H | | left; now inversion H].
  rewrite (bind_ok (lift (Ok (m :: bind_mounts))) _ tr _ tr eq_refl) in H.
  right.
  set (commit := Docker ["commit"; cid; stage_tag]) in *.
  destruct (perform_cases W commit tr) as [C | C];
    [rewrite (bind_ok _ _ _ _ _ C) in H | rewrite (bind_err _ _ _ _ _ C) in H].
  2:{ inversion H; subst. exists false, []. now split. }
  match type of H with
  | ?c ?t = _ => assert (E : emits (fun _ => True) c)
  end.
  { apply emits_bind; [apply emits_resolve_temp_dir | intros dir].
    apply emits_bind;
      [apply (emits_weaken (fun _ => True) staging_event); [trivial|];
       apply copy_loop_events | intros copies].
    apply emits_bind; [now apply emits_perform | intros _].
    apply emits_bind; [apply emits_restore_and_commit | intros _].
    apply emits_bind; [apply emits_rmi | intros _]. apply emits_ret. }
  destruct (E _ _ _ H) as [rest [-> _]].
  exists true, rest. rewrite <- app_assoc. split; [reflexivity | discriminate].
Qed.

(** How a run gets through the door: it stops without an event, or with
    the inspection as its only event, or it goes on. *)
Lemma devc_to_docker_door (cid : string)
  (output_tag stage_tag temp_root : option string)
  (keep_temp keep_intermediate : bool) (tr : list event) :
  (exists e,
      devc_to_docker W cid output_tag stage_tag temp_root
        keep_temp keep_intermediate tr = (Err e, tr))
  \/ (exists e ok,
        devc_to_docker W cid output_tag stage_tag temp_root
          keep_temp keep_intermediate tr
        = (Err e, tr ++ [Did (Docker ["inspect"; cid]) ok]))
  \/ (exists inspect_info container_name,
        devc_to_docker W cid output_tag stage_tag temp_root
          keep_temp keep_intermediate tr
        = let slug := _sanitize_name container_name in
          let final_tag := default_output_image output_tag slug (utcnow W) in
          capture_and_fold W cid inspect_info slug (utcnow W) final_tag
            (default_intermediate_image stage_tag final_tag)
            temp_root keep_temp keep_intermediate
            (tr ++ [Did (Docker ["inspect"; cid]) true])).
Proof.
  set (inspect := Docker ["inspect"; cid]).
  destruct (which_docker W) eqn:Hw.
  2:{ left. exists (DevcToDockerError EngineUnavailable).
      unfold devc_to_docker, _ensure_docker_available. rewrite Hw. cbn [negb].
      exact (bind_err (raise (DevcToDockerError EngineUnavailable)) _ tr _ tr eq_refl). }
  assert (start :
             devc_to_docker W cid output_tag stage_tag temp_root
               keep_temp keep_intermediate tr
             = bind (_inspect_container W cid)
                 (fun inspect_info =>
                    bind (lift (container_name_of inspect_info cid))
                      (fun container_name =>
                         capture_and_fold W cid inspect_info
                           (_sanitize_name container_name) (utcnow W)
                           (default_output_image output_tag
                              (_sanitize_name container_name) (utcnow W))
                           (default_intermediate_image stage_tag
                              (default_output_image output_tag
                                 (_sanitize_name container_name) (utcnow W)))
                           temp_root keep_temp keep_intermediate)) tr).
  { unfold devc_to_docker, _ensure_docker_available. rewrite Hw.
    cbn [negb]. exact (bind_ok (ret tt) _ tr tt tr eq_refl). }
  destruct (succeeds W tr inspect) eqn:Hs.
  2:{ right; left. exists (exn_of inspect), false. rewrite start.
      apply bind_err. unfold _inspect_container, _run_docker.
      apply bind_err. unfold perform. fold inspect. now rewrite Hs. }
  assert (P : perform W inspect tr = (Ok tt, tr ++ [Did inspect true]))
    by (unfold perform; now rewrite Hs).
  destruct (inspect_json W (tr ++ [Did inspect true]) cid)
    as [|inspect_info others] eqn:Hj.
  { right; left. exists (DevcToDockerError (NotFound cid)), true. rewrite start.
    apply bind_err. unfold _inspect_container, _run_docker. fold inspect.
    rewrite (bind_ok _ _ _ _ _ P). now rewrite Hj. }
  destruct (container_name_of inspect_info cid) as [container_name|e] eqn:Hn.
  - right; right. exists inspect_info, container_name.
    exact (devc_to_docker_after_inspect _ _ _ _ _ _ _ _ _ _ _ Hw Hs Hj Hn).
  - right; left. exists e, true. rewrite start.
    assert (I : _inspect_container W cid tr
                = (Ok inspect_info, tr ++ [Did inspect true])).
    { unfold _inspect_container, _run_docker. fold inspect.
      rewrite (bind_ok _ _ _ _ _ P). now rewrite Hj. }
    rewrite (bind_ok _ _ _ _ _ I). apply bind_err. unfold lift. now rewrite Hn.
Qed.

End CommitFirst.

(** X18. After the inspection the first thing a run does is commit the
    container to the intermediate image, and when that commit fails it
    does nothing more: a trace is empty, or the inspection alone, or the
    inspection followed by the intermediate commit and, only if that
    succeeded, by the rest. *)
Theorem commit_comes_first (W : World) (cid : string)
  (output_tag stage_tag temp_root : option string)
  (keep_temp keep_intermediate : bool) r tr :
  devc_to_docker W cid output_tag stage_tag temp_root keep_temp keep_intermediate []
  = (r, tr) ->
  tr = []
  \/ (exists ok, tr = [Did (Docker ["inspect"; cid]) ok])
  \/ (exists image ok rest,
        tr = Did (Docker ["inspect"; cid]) true
             :: Did (Docker ["commit"; cid; image]) ok :: rest
        /\ (ok = false -> rest = [])).
Proof.
  intros H.
  destruct (devc_to_docker_door W cid output_tag stage_tag temp_root
              keep_temp keep_intermediate [])
    as [[e E] | [[e [ok E]] | [inspect_info [container_name E]]]];
    rewrite E in H.
  - left. now inversion H.
  - right; left. exists ok. now inversion H.
  - cbv zeta in H. apply capture_and_fold_commit_first in H.
    destruct H as [-> | [ok [rest [-> K]]]].
    + right; left. now exists true.
    + right; right. eexists. exists ok, rest. split; [reflexivity | exact K].
Qed.

Lemma commit_comes_first_witness :
  let tr := snd (devc_to_docker (world_of [abc123_info] [host_proj] (is_verb "commit"))
                   "abc123" None None None false false []) in
  tr = []
  \/ (exists ok, tr = [Did (Docker ["inspect"; "abc123"]) ok])
  \/ (exists image ok rest,
        tr = Did (Docker ["inspect"; "abc123"]) true
             :: Did (Docker ["commit"; "abc123"; image]) ok :: rest
        /\ (ok = false -> rest = [])).
Proof.
  intros tr.
  apply (commit_comes_first (world_of [abc123_info] [host_proj] (is_verb "commit"))
           "abc123" None None None false false
           (fst (devc_to_docker (world_of [abc123_info] [host_proj] (is_verb "commit"))
                   "abc123" None None None false false []))).
  vm_compute. reflexivity.
Defined.

(** ** Exit codes *)

Section Outcomes.

Context {A B : Type}.
Variable P : exn -> Prop.

Lemma outcome_ret (Q : A -> Prop) (a : A) : Q a -> outcome Q P (ret a).
Proof. intros H tr r tr' E. inversion E; subst. exact H. Qed.

Lemma outcome_raise (Q : A -> Prop) (e : exn) : P e -> outcome Q P (raise e).
Proof. intros H tr r tr' E. inversion E; subst. exact H. Qed.

Lemma outcome_lift (Q : A -> Prop) (r : result A) :
  match r with Ok a => Q a | Err e => P e end -> outcome Q P (lift r).
Proof. intros H tr r' tr' E. inversion E; subst. exact H. Qed.

Lemma outcome_bind (Q1 : A -> Prop) (Q2 : B -> Prop) (c : M A) (k : A -> M B) :
  outcome Q1 P c -> (forall a, Q1 a -> outcome Q2 P (k a)) ->
  outcome Q2 P (bind c k).
Proof.
  intros Hc Hk tr r tr' E. unfold bind in E.
  destruct (c tr) as [[a|e] tr1] eqn:C; specialize (Hc _ _ _ C); simpl in Hc.
  - exact (Hk a Hc _ _ _ E).
  - inversion E; subst. exact Hc.
Qed.

Lemma outcome_try_except (Q : A -> Prop) (body : M A) (handler : list string -> M A) :
  outcome Q (fun e => match e with CalledProcessError _ => True | _ => P e end) body ->
  (forall argv, outcome Q P (handler argv)) ->
  outcome Q P (try_except_CalledProcessError body handler).
Proof.
  intros Hb Hh tr r tr' E. unfold try_except_CalledProcessError in E.
  destruct (body tr) as [[a|e] tr1] eqn:C; specialize (Hb _ _ _ C); simpl in Hb.
  - inversion E; subst. exact Hb.
  - destruct e; try (inversion E; subst; exact Hb).
    exact (Hh argv _ _ _ E).
Qed.

Lemma outcome_try_finally (Q : A -> Prop) (body : M A) (cleanup : M unit) :
  outcome Q P body -> outcome (fun _ => True) P cleanup ->
  outcome Q P (try_finally body cleanup).
Proof.
  intros Hb Hc tr r tr' E. unfold try_finally in E.
  destruct (body tr) as [rb tr1] eqn:C. specialize (Hb _ _ _ C).
  destruct (cleanup tr1) as [[u|e] tr2] eqn:D; specialize (Hc _ _ _ D);
    inversion E; subst; assumption.
Qed.

End Outcomes.

Section HandledErrors.

Variable W : World.
Hypothesis host_ok : host_never_fails W.
Hypothesis typed : inspection_has_no_null W.

Lemma outcome_docker (P : exn -> Prop) (argv : list string) :
  P (CalledProcessError argv) -> outcome anything P (perform W (Docker argv)).
Proof.
  intros H tr r tr' E.
  destruct (perform_cases W (Docker argv) tr) as [C | C]; rewrite C in E;
    inversion E; subst; [exact I | exact H].
Qed.

Lemma outcome_host (P : exn -> Prop) (a : action) :
  is_docker a = false -> outcome anything P (perform W a).
Proof.
  intros H tr r tr' E. unfold perform in E. rewrite (host_ok tr a H) in E.
  inversion E; subst. exact I.
Qed.

Lemma outcome_silent {A} (P : exn -> Prop) (c : M A) :
  (forall tr, exists a, fst (c tr) = Ok a) -> outcome anything P c.
Proof.
  intros H tr r tr' E. destruct (H tr) as [a K]. rewrite E in K. simpl in K.
  subst r. exact I.
Qed.

Lemma outcome_inspect (cid : string) :
  outcome no_null handled (_inspect_container W cid).
Proof.
  unfold _inspect_container, _run_docker.
  apply (outcome_bind handled anything); [now apply outcome_docker|].
  intros _ _ tr r tr' E.
  destruct (inspect_json W tr cid) as [|info others] eqn:J; inversion E; subst.
  - reflexivity.
  - exact (typed _ _ _ _ J).
Qed.

Lemma outcome_resolve (temp_root : option string) :
  outcome anything handled (_resolve_temp_dir W temp_root).
Proof.
  unfold _resolve_temp_dir.
  apply (outcome_bind handled anything); [now apply outcome_host|].
  intros _ _ tr r tr' E. rewrite host_ok in E by reflexivity.
  inversion E; subst. exact I.
Qed.

Lemma outcome_stage_one (mount : BindMount) (temp_dir : Path) :
  outcome anything handled (stage_one W mount temp_dir).
Proof.
  unfold stage_one.
  apply (outcome_bind handled anything);
    [apply outcome_silent; intros tr; now eexists | intros src_exists _].
  apply (outcome_bind handled anything);
    [destruct (negb src_exists); [now apply outcome_raise | now apply outcome_ret]
    | intros _ _].
  apply (outcome_bind handled anything).
  { unfold relative_of. destruct (is_absolute (destination mount));
      [|now apply outcome_ret].
    destruct (skipn 1 (parts (destination mount)));
      [now apply outcome_raise | now apply outcome_ret]. }
  intros relative _.
  apply (outcome_bind handled anything); [now apply outcome_host | intros _ _].
  apply (outcome_bind handled anything);
    [apply outcome_silent; intros tr; now eexists | intros target_exists _].
  apply (outcome_bind handled anything); [|intros _ _].
  { destruct target_exists; [|now apply outcome_ret].
    apply (outcome_bind handled anything);
      [apply outcome_silent; intros tr; now eexists | intros [] _];
      now apply outcome_host. }
  apply (outcome_bind handled anything);
    [apply outcome_silent; intros tr; now eexists | intros source_is_dir _].
  apply (outcome_bind handled anything);
    [destruct source_is_dir; now apply outcome_host
    | intros _ _; now apply outcome_ret].
Qed.

Lemma outcome_copy_loop (bind_mounts : list BindMount) (temp_dir : Path) :
  forall copies, outcome anything handled (copy_loop W bind_mounts temp_dir copies).
Proof.
  induction bind_mounts as [|mount rest IH]; intros copies; cbn [copy_loop].
  - now apply outcome_ret.
  - apply (outcome_bind handled anything);
      [apply outcome_stage_one | intros spec _; apply IH].
Qed.

Lemma outcome_restore (temp_container : string) (copies : list CopySpec) :
  outcome anything handled (_restore_bind_mounts W temp_container copies).
Proof.
  induction copies as [|spec rest IH]; cbn [_restore_bind_mounts].
  - now apply outcome_ret.
  - apply (outcome_bind handled anything); [|intros _ _; exact IH].
    unfold restore_one, _run_docker.
    apply (outcome_bind handled anything); [|intros _ _].
    { apply outcome_try_except; [now apply outcome_docker|].
      intros _. apply outcome_silent. intros tr. now eexists. }
    apply (outcome_bind handled anything);
      [|intros _ _; now apply outcome_docker].
    apply outcome_try_except; [now apply outcome_docker|].
    intros _. now apply outcome_raise.
Qed.

Lemma outcome_teardown (temp_container_name : string) (temp_dir : Path)
  (keep_temp : bool) :
  outcome anything handled (teardown W temp_container_name temp_dir keep_temp).
Proof.
  intros tr r tr' E.
  destruct (teardown_run W temp_container_name temp_dir keep_temp tr)
    as [stopped [removed [cleaned T]]].
  rewrite T in E. inversion E; subst. exact I.
Qed.

Lemma outcome_restore_and_commit (inspect_info : InspectInfo)
  (temp_container_name output_image : string) (temp_dir : Path)
  (copies : list CopySpec) (keep_temp : bool) :
  Config inspect_info <> Null ->
  outcome anything handled
    (restore_and_commit W inspect_info temp_container_name output_image
       temp_dir copies keep_temp).
Proof.
  intros Hc. unfold restore_and_commit.
  apply outcome_try_finally; [|apply outcome_teardown].
  apply (outcome_bind handled anything); [apply outcome_restore | intros _ _].
  apply (outcome_bind handled anything);
    [|intros changes _; unfold _run_docker; now apply outcome_docker].
  apply outcome_lift.
  destruct (Config inspect_info) as [| |config]; [exact I | congruence | exact I].
Qed.

Lemma outcome_capture_and_fold (cid : string) (inspect_info : InspectInfo)
  (sanitized_name timestamp final_tag stage_tag : string)
  (temp_root : option string) (keep_temp keep_intermediate : bool) :
  no_null inspect_info ->
  outcome anything handled
    (capture_and_fold W cid inspect_info sanitized_name timestamp
       final_tag stage_tag temp_root keep_temp keep_intermediate).
Proof.
  intros [_ [Hc [Hm Hp]]]. unfold capture_and_fold.
  apply (outcome_bind handled
           (fun mounts => existsb has_null_path (filter is_bind mounts) = false)).
  { destruct (Mounts inspect_info) as [| |mounts] eqn:E; cbn [get_default].
    - now apply outcome_ret.
    - congruence.
    - apply outcome_ret. now apply Hp. }
  intros mounts Hn.
  apply (outcome_bind handled anything).
  { apply outcome_lift. rewrite extract_result_aux, Hn. exact I. }
  intros [|m bind_mounts] _; [now apply outcome_raise|].
  unfold _run_docker, _start_keepalive_container, _copy_bind_mounts_to_tmp.
  apply (outcome_bind handled anything); [now apply outcome_docker | intros _ _].
  apply (outcome_bind handled anything); [apply outcome_resolve | intros dir _].
  apply (outcome_bind handled anything); [apply outcome_copy_loop | intros copies _].
  apply (outcome_bind handled anything); [now apply outcome_docker | intros _ _].
  apply (outcome_bind handled anything);
    [now apply outcome_restore_and_commit | intros _ _].
  apply (outcome_bind handled anything); [|intros _ _; now apply outcome_ret].
  intros tr r tr' E.
  destruct (rmi_run W stage_tag keep_intermediate tr) as [untagged U].
  unfold _run_docker in U. rewrite U in E. inversion E; subst. exact I.
Qed.

Lemma outcome_devc_to_docker (cid : string)
  (output_tag stage_tag temp_root : option string)
  (keep_temp keep_intermediate : bool) :
  outcome anything handled
    (devc_to_docker W cid output_tag stage_tag temp_root keep_temp keep_intermediate).
Proof.
  unfold devc_to_docker.
  apply (outcome_bind handled anything).
  { unfold _ensure_docker_available. destruct (negb (which_docker W));
      [now apply outcome_raise | now apply outcome_ret]. }
  intros _ _.
  apply (outcome_bind handled no_null); [apply outcome_inspect|].
  intros inspect_info Hn.
  apply (outcome_bind handled anything);
    [|intros container_name _; now apply outcome_capture_and_fold].
  apply outcome_lift. unfold container_name_of.
  destruct Hn as [Hname _].
  destruct (Name inspect_info) as [| |name]; [exact I | congruence | exact I].
Qed.

End HandledErrors.

(** X19. When the inspected metadata holds no null where the program
    reads it and no file-system operation on the host fails, the command
    never lets an exception escape: it returns 0 with the summary, or 1
    with a single error line, whichever [docker] commands fail. *)
Theorem command_handles_every_failure (W : World) (args : Namespace)
  (tr : list event) :
  host_never_fails W ->
  inspection_has_no_null W ->
  exists code tr' lines,
    _handle_command W args tr = (Ok code, tr', lines)
    /\ ((code = 0 /\ exists result, lines = summary_lines result)
        \/ (code = 1 /\ exists exc, lines = [ErrorLine exc] /\ handled exc)).
Proof.
  intros Hh Ht. unfold _handle_command.
  pose proof (outcome_devc_to_docker W Hh Ht (arg_container_id args)
                (arg_output_image args) (arg_intermediate_image args)
                (arg_temp_root args) (arg_keep_temp args)
                (arg_keep_intermediate args) tr) as O.
  destruct (devc_to_docker W (arg_container_id args) (arg_output_image args)
              (arg_intermediate_image args) (arg_temp_root args)
              (arg_keep_temp args) (arg_keep_intermediate args) tr)
    as [[result|exc] tr'] eqn:E; specialize (O _ _ eq_refl); simpl in O.
  - exists 0, tr', (summary_lines result). split; [reflexivity|].
    left. split; [reflexivity | now exists result].
  - unfold handled in O. rewrite O.
    exists 1, tr', [ErrorLine exc]. split; [reflexivity|].
    right. split; [reflexivity | now exists exc].
Qed.

Lemma command_handles_every_failure_witness :
  exists code tr' lines,
    _handle_command (world_of [abc123_info] [host_proj] (is_verb "cp"))
      abc123_args [] = (Ok code, tr', lines)
    /\ ((code = 0 /\ exists result, lines = summary_lines result)
        \/ (code = 1 /\ exists exc, lines = [ErrorLine exc] /\ handled exc)).
Proof.
  apply command_handles_every_failure.
  - intros tr [argv| | | | | | |] H; try discriminate H; reflexivity.
  - intros tr cid info others H. cbn in H. inversion H; subst.
    repeat split; try discriminate.
    intros mounts M. inversion M; subst. reflexivity.
Defined.

(** X20. A [null] name is not among the failures the command handles:
    the run stops at the inspection with an [AttributeError] that escapes
    the command, which prints no error line and returns no exit code. *)
Theorem null_name_escapes (W : World) (args : Namespace) (tr : list event)
  (inspect_info : InspectInfo) (others : list InspectInfo) :
  which_docker W = true ->
  succeeds W tr (Docker ["inspect"; arg_container_id args]) = true ->
  inspect_json W (tr ++ [Did (Docker ["inspect"; arg_container_id args]) true])
    (arg_container_id args) = inspect_info :: others ->
  Name inspect_info = Null ->
  _handle_command W args tr
  = (Err AttributeError,
     tr ++ [Did (Docker ["inspect"; arg_container_id args]) true], []).
Proof.
  intros Hw Hs Hj Hn. unfold _handle_command, devc_to_docker.
  assert (E0 : _ensure_docker_available W tr = (Ok tt, tr))
    by (unfold _ensure_docker_available; now rewrite Hw).
  rewrite (bind_ok _ _ _ _ _ E0).
  assert (I : _inspect_container W (arg_container_id args) tr
              = (Ok inspect_info,
                 tr ++ [Did (Docker ["inspect"; arg_container_id args]) true])).
  { unfold _inspect_container, _run_docker.
    assert (P : perform W (Docker ["inspect"; arg_container_id args]) tr
                = (Ok tt, tr ++ [Did (Docker ["inspect"; arg_container_id args]) true]))
      by (unfold perform; now rewrite Hs).
    rewrite (bind_ok _ _ _ _ _ P). now rewrite Hj. }
  rewrite (bind_ok _ _ _ _ _ I).
  assert (L : lift (container_name_of inspect_info (arg_container_id args))
                (tr ++ [Did (Docker ["inspect"; arg_container_id args]) true])
              = (Err AttributeError,
                 tr ++ [Did (Docker ["inspect"; arg_container_id args]) true]))
    by (unfold lift, container_name_of; now rewrite Hn).
  now rewrite (bind_err _ _ _ _ _ L).
Qed.

Lemma null_name_escapes_witness :
  _handle_command (world_of [null_name_info] [host_proj] never) abc123_args []
  = (Err AttributeError, [Did (Docker ["inspect"; "abc123"]) true], []).
Proof.
  apply (null_name_escapes (world_of [null_name_info] [host_proj] never)
           abc123_args [] null_name_info []); reflexivity.
Defined.

(** X21. When the command returns 0 the run succeeded, and the summary
    names the container given, the two tags and the temp directory of
    the result and, under the header of the copied mounts, which is
    never left out, one line per CopySpec in order. *)
Theorem summary_of_success (W : World) (args : Namespace)
  (tr : list event) (lines : list console_line) :
  _handle_command W args [] = (Ok 0, tr, lines) ->
  exists result,
    devc_to_docker W (arg_container_id args) (arg_output_image args)
      (arg_intermediate_image args) (arg_temp_root args)
      (arg_keep_temp args) (arg_keep_intermediate args) [] = (Ok result, tr)
    /\ copied_mounts result <> []
    /\ lines
       = [SummaryHeader;
          ContainerCaptured (arg_container_id args);
          FinalImageTag (final_image result);
          IntermediateTag (intermediate_image result);
          CopiedHeader]
         ++ map (fun spec => CopiedLine (host_path spec) (cs_destination spec))
              (copied_mounts result)
         ++ [TemporaryDir (temp_dir result)].
Proof.
  unfold _handle_command. intros H.
  destruct (devc_to_docker W (arg_container_id args) (arg_output_image args)
              (arg_intermediate_image args) (arg_temp_root args)
              (arg_keep_temp args) (arg_keep_intermediate args) [])
    as [[result|exc] tr'] eqn:E.
  - inversion H; subst. exists result. split; [reflexivity|].
    destruct (devc_to_docker_cases W (arg_container_id args)
                (arg_output_image args) (arg_intermediate_image args)
                (arg_temp_root args) (arg_keep_temp args)
                (arg_keep_intermediate args) [])
      as [[e [evs [E1 F]]] | [inspect_info [container_name [Hj [Hn E1]]]]];
      rewrite E1 in E; [discriminate E|].
    cbv zeta in E. apply capture_and_fold_ok in E.
    destruct E as [mounts [_ [_ [N [I [C _]]]]]].
    assert (Ne : copied_mounts result <> []).
    { rewrite C. intros K. apply N.
      destruct (filter is_bind mounts); [reflexivity | discriminate K]. }
    split; [exact Ne|].
    unfold summary_lines. rewrite I.
    destruct (copied_mounts result); [congruence | reflexivity].
  - destruct (is_handled exc); inversion H.
Qed.

Lemma summary_of_success_witness :
  exists result,
    devc_to_docker fresh_host "abc123" None None None false false []
    = (Ok result,
       snd (devc_to_docker fresh_host "abc123" None None None false false []))
    /\ copied_mounts result <> []
    /\ summary_lines
         (mkResult "abc123" "devc_to_docker/My-App:20240101120000"
            "devc_to_docker/My-App:20240101120000-stage" scenario_temp_dir
            [workspace_copy])
       = [SummaryHeader;
          ContainerCaptured "abc123";
          FinalImageTag (final_image result);
          IntermediateTag (intermediate_image result);
          CopiedHeader]
         ++ map (fun spec => CopiedLine (host_path spec) (cs_destination spec))
              (copied_mounts result)
         ++ [TemporaryDir (temp_dir result)].
Proof.
  apply (summary_of_success fresh_host abc123_args).
  vm_compute. reflexivity.
Defined.
